(** * PrimeCuts loyalty program: the shared utilities of [app.js]

    A shallow embedding of [window.AppUtils] and of the helpers that
    [app.js] adds to [window.DatabaseHelpers], together with the points
    ledger of the design document.

    Conventions of the embedding.
    - A JavaScript string is a [string]; each character stands for one
      code unit, so [String.length] is the [.length] of the source.
    - A JavaScript number is a binary64 value ([spec_float]); the
      arithmetic of [Number] rounds as the language does.  The fields
      that hold point counts are integers ([Z]), read as the numbers
      they denote.
    - Calls to the hosted backend (Firestore, Firebase Auth, the console)
      are the operations of a small free monad, [Prog]; [run] executes a
      program against any backend, [firebase] is an in-memory one.
      [Session] extends this to the calls of [loginCustomer] and of the
      history queries.
    - The page-side utilities have their own small states: a [Button]
      for [setButtonLoading], the timers of [Debounce], the items of
      [Storage] with [JSON] as a parameter. *)

From Stdlib Require Import ZArith QArith Qround Qpower Ascii String List Lia Lqa.
From Stdlib Require Import SpecFloat.
From stdpp Require Import base gmap strings list sorting.

Local Open Scope string_scope.
Local Open Scope Z_scope.

(* ===================================================================== *)
(** ** Character classes and regular expressions *)
(* ===================================================================== *)

Module Regex.

(** The character classes of the two regular expressions of [app.js]:
    [\d], a literal character, the members of [[...]] and its
    complement [[^...]]. *)
Inductive CharClass : Type :=
| Digit
| Lit (c : ascii)
| Union (a b : CharClass)
| Neg (a : CharClass).

(** [\d] is the ASCII digits only. *)
Definition is_digit (c : ascii) : bool :=
  let n := nat_of_ascii c in (48 <=? n)%nat && (n <=? 57)%nat.

Fixpoint class_mem (cl : CharClass) (c : ascii) : bool :=
  match cl with
  | Digit => is_digit c
  | Lit d => Ascii.eqb c d
  | Union a b => class_mem a c || class_mem b c
  | Neg a => negb (class_mem a c)
  end.

(** Patterns: the assertions [^] and [$] (no [m] flag: start and end
    of the input), one character of a class, sequence, and the bounded
    repetition [r{lo,hi}]. *)
Inductive Pattern : Type :=
| Bol
| Eol
| Class (cl : CharClass)
| Seq (r1 r2 : Pattern)
| Repeat (r : Pattern) (lo hi : nat).

(** A matcher state: are we still at the start of the input, and what
    is left of it. *)
Definition MState : Type := bool * string.

(** [repeat_from step lo hi st]: the states reached from [st] by
    between [lo] and [hi] iterations of [step], greedy first. *)
Fixpoint repeat_from (step : MState -> list MState) (lo hi : nat)
         (st : MState) : list MState :=
  match hi with
  | O => match lo with O => [st] | S _ => [] end
  | S hi' =>
      flat_map (repeat_from step (Nat.pred lo) hi') (step st)
      ++ match lo with O => [st] | S _ => [] end
  end.

(** [match_from r st]: every state in which a match of [r] that starts
    in [st] can end, in priority order. *)
Fixpoint match_from (r : Pattern) (st : MState) : list MState :=
  match r with
  | Bol => if fst st then [st] else []
  | Eol => match snd st with EmptyString => [st] | String _ _ => [] end
  | Class cl =>
      match snd st with
      | EmptyString => []
      | String c rest => if class_mem cl c then [(false, rest)] else []
      end
  | Seq r1 r2 => flat_map (match_from r2) (match_from r1 st)
  | Repeat r' lo hi => repeat_from (match_from r') lo hi st
  end.

Definition matches_at (r : Pattern) (st : MState) : bool :=
  match match_from r st with [] => false | _ :: _ => true end.

(** [search r bol s]: is there a match of [r] starting at some
    position of [s], tried from left to right. *)
Fixpoint search (r : Pattern) (bol : bool) (s : string) : bool :=
  matches_at r (bol, s)
  || match s with
     | EmptyString => false
     | String _ rest => search r false rest
     end.

(** [RegExp.prototype.test] of a pattern without flags. *)
Definition test (r : Pattern) (s : string) : bool := search r true s.

(** [String.prototype.replace] with a global pattern that is a single
    character class: every character of the class is replaced. *)
Fixpoint replace_class_all (cl : CharClass) (repl : string) (s : string)
  : string :=
  match s with
  | EmptyString => EmptyString
  | String c rest =>
      if class_mem cl c
      then repl ++ replace_class_all cl repl rest
      else String c (replace_class_all cl repl rest)
  end.

End Regex.

(* ===================================================================== *)
(** ** JavaScript numbers *)
(* ===================================================================== *)

(** A JavaScript number is an IEEE 754 binary64 value: a [spec_float]
    of the Standard Library (a signed zero, a signed infinity, NaN, or
    [(-1)^s * m * 2^e]) at precision 53 and maximal exponent 1024.  An
    arithmetic operation on finite numbers returns the exact result
    rounded to the nearest number of the format, ties to the even
    mantissa; for zeros, infinities and NaN it answers as the operations
    of [SpecFloat] do. *)
Module Number.

Definition prec : Z := 53.
Definition emax : Z := 1024.
Definition emin : Z := SpecFloat.emin prec emax.

(** The exponent of the numbers of magnitude below [2^e]: normal numbers
    carry 53 bits, subnormal ones have exponent [emin]. *)
Definition fexp (e : Z) : Z := SpecFloat.fexp prec emax e.

Definition valid (x : spec_float) : Prop := valid_binary prec emax x = true.

Definition pow2 (e : Z) : Q := (2 ^ e)%Q.

(** The real number that a finite number stands for; 0 for the others. *)
Definition value (x : spec_float) : Q :=
  match x with
  | S754_finite s m e => (inject_Z (cond_Zopp s (Zpos m)) * pow2 e)%Q
  | _ => 0%Q
  end.

(** The magnitude of a positive rational: [2^(Qmag q - 1) <= q < 2^(Qmag q)]. *)
Definition Qmag (q : Q) : Z :=
  let k := Z.log2 (Qnum q) - Z.log2 (Zpos (Qden q)) in
  if Qle_bool (pow2 k) q then k + 1 else k.

(** The nearest integer, ties to even. *)
Definition Qrne (q : Q) : Z :=
  let f := Qfloor q in
  match Qcompare (q - inject_Z f) (1 # 2) with
  | Lt => f
  | Gt => f + 1
  | Eq => if Z.even f then f else f + 1
  end.

(** The exponent at which a positive rational is rounded, its mantissa
    there, and the rounded rational. *)
Definition cexp (q : Q) : Z := fexp (Qmag q).

Definition scaled (q : Q) : Z := Qrne (q / pow2 (cexp q)).

Definition rnd (q : Q) : Q := (inject_Z (scaled q) * pow2 (cexp q))%Q.

(** The number nearest to [(-1)^s * q], for a positive [q]: the mantissa
    is renormalised when the rounding carries into a 54th bit, and a
    magnitude beyond the format overflows to infinity. *)
Definition round_pos (s : bool) (q : Q) : spec_float :=
  match scaled q with
  | Zpos n =>
      let '(m, e) :=
        if Zpos n <? 2 ^ prec then (n, cexp q)
        else (Pos.div2 n, cexp q + 1) in
      if e <=? emax - prec then S754_finite s m e else S754_infinity s
  | _ => S754_zero s
  end.

(** The number nearest to a rational; an exact zero is [+0]. *)
Definition round (q : Q) : spec_float :=
  match Qcompare q 0 with
  | Eq => S754_zero false
  | Gt => round_pos false q
  | Lt => round_pos true (- q)
  end.

(** The value that [round] aims at, before the overflow test. *)
Definition sround (q : Q) : Q :=
  match Qcompare q 0 with
  | Eq => 0%Q
  | Gt => rnd q
  | Lt => (- rnd (- q))%Q
  end.

(** A numeric literal. *)
Definition of_Z (n : Z) : spec_float := round (inject_Z n).

Definition of_Q (q : Q) : spec_float := round q.

(** [x / y] *)
Definition div (x y : spec_float) : spec_float :=
  match x, y with
  | S754_finite _ _ _, S754_finite _ _ _ => round (value x / value y)
  | _, _ => SFdiv prec emax x y
  end.

(** [x * y] *)
Definition mul (x y : spec_float) : spec_float :=
  match x, y with
  | S754_finite _ _ _, S754_finite _ _ _ => round (value x * value y)
  | _, _ => SFmul prec emax x y
  end.

(** [x + y] *)
Definition add (x y : spec_float) : spec_float :=
  match x, y with
  | S754_finite _ _ _, S754_finite _ _ _ => round (value x + value y)
  | _, _ => SFadd prec emax x y
  end.

(** [x - y] *)
Definition sub (x y : spec_float) : spec_float :=
  match x, y with
  | S754_finite _ _ _, S754_finite _ _ _ => round (value x - value y)
  | _, _ => SFsub prec emax x y
  end.

(** [Math.floor(x)]: the greatest whole number that is at most [x]; a
    zero, an infinity and NaN are returned as they are. *)
Definition floor (x : spec_float) : spec_float :=
  match x with
  | S754_finite _ _ _ => of_Z (Qfloor (value x))
  | _ => x
  end.

Definition is_nan (x : spec_float) : bool :=
  match x with S754_nan => true | _ => false end.

Definition is_finite (x : spec_float) : bool :=
  match x with S754_finite _ _ _ | S754_zero _ => true | _ => false end.

(** Truthiness: every number but [+0], [-0] and NaN. *)
Definition truthy (x : spec_float) : bool :=
  match x with S754_finite _ _ _ | S754_infinity _ => true | _ => false end.

(** The integer that a number is, if it is finite and whole. *)
Definition to_Z (x : spec_float) : option Z :=
  if is_finite x then
    let n := Qfloor (value x) in
    if Qeq_bool (value x) (inject_Z n) then Some n else None
  else None.

(** [x] is the whole number [z]. *)
Definition whole_as (x : spec_float) (z : Z) : Prop :=
  is_finite x = true /\ (value x == inject_Z z)%Q.

(** The order of the numbers: the values of the finite ones between the
    two infinities; NaN is not comparable. *)
Inductive Ext : Type :=
| NegInf
| Fin (q : Q)
| PosInf.

Definition ext (x : spec_float) : option Ext :=
  match x with
  | S754_nan => None
  | S754_infinity s => Some (if s then NegInf else PosInf)
  | _ => Some (Fin (value x))
  end.

Definition Ext_leb (a b : Ext) : bool :=
  match a, b with
  | NegInf, _ => true
  | _, PosInf => true
  | Fin p, Fin q => Qle_bool p q
  | _, _ => false
  end.

(** [x <= y] *)
Definition leb (x y : spec_float) : bool :=
  match ext x, ext y with
  | Some a, Some b => Ext_leb a b
  | _, _ => false
  end.

(** [x < y] *)
Definition ltb (x y : spec_float) : bool := leb x y && negb (leb y x).

End Number.

(* ===================================================================== *)
(** ** [window.AppUtils] *)
(* ===================================================================== *)

(** The class [[^\d+]] of [formatPhoneNumber]. *)
Definition non_phone_char : Regex.CharClass :=
  Regex.Neg (Regex.Union Regex.Digit (Regex.Lit "+"%char)).

(** [phone.replace(/[^\d+]/g, '')] *)
Definition formatPhoneNumber (phone : string) : string :=
  Regex.replace_class_all non_phone_char "" phone.

(** [`${formattedPhone}@butchery.local`] *)
Definition phoneToEmail (phone : string) : string :=
  formatPhoneNumber phone ++ "@butchery.local".

(** The pattern [/^\+\d{10,15}$/] of [isValidPhoneNumber]. *)
Definition phone_pattern : Regex.Pattern :=
  Regex.Seq Regex.Bol
    (Regex.Seq (Regex.Class (Regex.Lit "+"%char))
       (Regex.Seq (Regex.Repeat (Regex.Class Regex.Digit) 10 15) Regex.Eol)).

Definition isValidPhoneNumber (phone : string) : bool :=
  let formatted := formatPhoneNumber phone in
  Regex.test phone_pattern formatted.

(** [Math.floor(amount / 100) * 5] *)
Definition calculatePoints (amount : spec_float) : spec_float :=
  Number.mul (Number.floor (Number.div amount (Number.of_Z 100)))
             (Number.of_Z 5).


(** *** JavaScript values that [getErrorMessage] handles *)

(** What a property read or [||] can produce here: [undefined], a
    string, or an object or function (named, for inspection). *)
Inductive JsValue : Type :=
| JUndefined
| JString (s : string)
| JObject (name : string).

Definition truthy (v : JsValue) : bool :=
  match v with
  | JUndefined => false
  | JString s => negb (String.eqb s "")
  | JObject _ => true
  end.

(** [a || b] *)
Definition js_or (a b : JsValue) : JsValue := if truthy a then a else b.

(** An error object: Firebase errors carry [code] and [message], a plain
    [Error] only [message]; an absent property reads as [undefined]. *)
Record JsError : Type := mkError {
  code : option string;
  message : option string
}.

Definition prop (o : option string) : JsValue :=
  match o with Some s => JString s | None => JUndefined end.

(** The property key that a value is converted to in [obj[v]]. *)
Definition property_key (v : JsValue) : string :=
  match v with
  | JUndefined => "undefined"
  | JString s => s
  | JObject _ => "[object Object]"
  end.

(** The object literal [errorMessages], its own properties in order. *)
Definition errorMessages_entries : list (string * string) :=
  [ ("auth/user-not-found", "Account not found. Please check your phone number.");
    ("auth/wrong-password", "Incorrect password. Please try again.");
    ("auth/email-already-in-use", "An account with this phone number already exists.");
    ("auth/weak-password", "Password should be at least 6 characters.");
    ("auth/too-many-requests", "Too many failed attempts. Please try again later.");
    ("auth/network-request-failed", "Network error. Please check your connection.");
    ("permission-denied", "Permission denied. Please check your credentials.");
    ("not-found", "Document not found.");
    ("already-exists", "Document already exists.");
    ("resource-exhausted", "Database quota exceeded. Please try again later.");
    ("unauthenticated", "Authentication required. Please log in again.") ].

Definition errorMessages : gmap string string :=
  list_to_map errorMessages_entries.

(** The properties that an object literal inherits from
    [Object.prototype]: [errorMessages[code]] finds them too. *)
Definition object_prototype_members : list string :=
  [ "constructor"; "__defineGetter__"; "__defineSetter__"; "hasOwnProperty";
    "__lookupGetter__"; "__lookupSetter__"; "isPrototypeOf";
    "propertyIsEnumerable"; "toString"; "valueOf"; "__proto__";
    "toLocaleString" ].

Definition is_inherited (key : string) : bool :=
  existsb (String.eqb key) object_prototype_members.

(** [errorMessages[key]] *)
Definition errorMessages_get (key : string) : JsValue :=
  match errorMessages !! key with
  | Some m => JString m
  | None => if is_inherited key then JObject key else JUndefined
  end.

Definition generic_message : string := "An unexpected error occurred.".

Definition getErrorMessage (error : JsError) : JsValue :=
  let code := js_or (prop (code error)) (prop (message error)) in
  js_or (js_or (errorMessages_get (property_key code)) (prop (message error)))
        (JString generic_message).

(* ===================================================================== *)
(** ** The backend: programs, operations and their execution *)
(* ===================================================================== *)

(** [firebase.firestore.FieldValue.serverTimestamp()] or a stored time. *)
Inductive FieldTime : Type :=
| ServerTimestamp
| TimeAt (t : Z).

Record CustomerDoc : Type := mkCustomer {
  points : Z;
  createdAt : FieldTime;
  name : string;
  uid : nat;
  lastLogin : FieldTime
}.

(** Documents of [purchases] and [redemptions] as [doc.data()] returns
    them; [None] is a field that the document lacks.  An amount is any
    number; the point fields hold integers, which the program reads as
    the numbers [Number.of_Z] of them. *)
Record PurchaseDoc : Type := mkPurchase {
  p_customerPhone : string;
  amount : option spec_float;
  pointsEarned : option Z;
  p_createdAt : FieldTime
}.

Record RedemptionDoc : Type := mkRedemption {
  r_customerPhone : string;
  tier : string;
  pointsSpent : option Z;
  r_createdAt : FieldTime
}.

(** [userCredential.user] *)
Record User : Type := mkUser {
  user_uid : nat;
  user_email : string
}.

(** A settled promise.  The reason of a rejection is an error object, as
    the rejections of Firebase are; a promise rejected with [undefined]
    or [null], on which reading [error.code] throws, is not modelled. *)
Inductive Outcome (X : Type) : Type :=
| Resolved (x : X)
| Rejected (e : JsError).
Arguments Resolved {X} x.
Arguments Rejected {X} e.

(** The backend calls of [app.js], indexed by what they resolve to. *)
Inductive Op : Type -> Type :=
| GetCustomer (phone : string) : Op (option CustomerDoc)
| SetCustomer (phone : string) (data : CustomerDoc) : Op unit
| CreateUser (email password : string) : Op User
| GetCustomers : Op (list (string * CustomerDoc))
| GetPurchases : Op (list PurchaseDoc)
| GetRedemptions : Op (list RedemptionDoc)
| ConsoleError (label : string) (error : JsError) : Op unit
(** Not a request of the program: the answer of the event loop to
    which of [n] rejected promises was rejected first. *)
| FirstRejected (n : nat) : Op nat.


(** The body of an [async] function: it returns, throws, or makes a
    backend call and goes on with the settled promise. *)
Inductive Prog (A : Type) : Type :=
| Ret (a : A)
| Throw (e : JsError)
| Call {X : Type} (op : Op X) (k : Outcome X -> Prog A).
Arguments Ret {A} a.
Arguments Throw {A} e.
Arguments Call {A X} op k.

Fixpoint bind {A B : Type} (p : Prog A) (f : A -> Prog B) : Prog B :=
  match p with
  | Ret a => f a
  | Throw e => Throw e
  | Call op k => Call op (fun o => bind (k o) f)
  end.

#[export] Instance Prog_ret : MRet Prog := @Ret.
#[export] Instance Prog_bind : MBind Prog := fun A B f p => bind p f.

(** [try { p } catch (error) { h error }] *)
Fixpoint try_catch {A : Type} (p : Prog A) (h : JsError -> Prog A) : Prog A :=
  match p with
  | Ret a => Ret a
  | Throw e => h e
  | Call op k => Call op (fun o => try_catch (k o) h)
  end.

(** [await promise]: a rejection is thrown. *)
Definition settle {X : Type} (o : Outcome X) : Prog X :=
  match o with
  | Resolved x => Ret x
  | Rejected e => Throw e
  end.

Definition await {X : Type} (op : Op X) : Prog X := Call op settle.

(** [console.error(label, error)] returns nothing and does not throw. *)
Definition console_error (label : string) (error : JsError) : Prog unit :=
  Call (ConsoleError label error) (fun _ => Ret tt).

(** The reason of a rejection, if the promise was rejected. *)
Definition rejection {X : Type} (o : Outcome X) : list JsError :=
  match o with
  | Resolved _ => []
  | Rejected e => [e]
  end.

(** The rejection that [Promise.all] reports: of several rejected
    promises, the one that was rejected first in time, which the event
    loop decides; [errors] are the rejections in the order of the array
    and [e] is the first of them. *)
Definition throw_first {A : Type} (e : JsError) (errors : list JsError)
  : Prog A :=
  match errors with
  | [] | [_] => Throw e
  | _ =>
      Call (FirstRejected (length errors))
           (fun o =>
              match o with
              | Resolved i => Throw (nth i errors e)
              | Rejected _ => Throw e
              end)
  end.

(** [await Promise.all([a, b, c])]: the three calls are issued in the
    order of the array; when all three promises are fulfilled the three
    results are returned, otherwise the rejection that came first in
    time is thrown. *)
Definition await_all3 {X Y Z' : Type} (a : Op X) (b : Op Y) (c : Op Z')
  : Prog (X * Y * Z') :=
  Call a (fun oa => Call b (fun ob => Call c (fun oc =>
    let errors := (rejection oa ++ rejection ob ++ rejection oc)%list in
    match oa, ob, oc with
    | Resolved x, Resolved y, Resolved z => Ret (x, y, z)
    | Rejected e, _, _
    | Resolved _, Rejected e, _
    | Resolved _, Resolved _, Rejected e => throw_first e errors
    end))).

(** A backend call of any result type, for logs of calls. *)
Inductive AnyOp : Type :=
| any_op {X : Type} (op : Op X).

Section Run.
Context {W : Type}.
Variable perform : forall X : Type, Op X -> W -> W * Outcome X.

(** The execution of a program against a backend. *)
Fixpoint run {A : Type} (p : Prog A) (w : W) : W * Outcome A :=
  match p with
  | Ret a => (w, Resolved a)
  | Throw e => (w, Rejected e)
  | Call op k => let '(w', o) := perform _ op w in run (k o) w'
  end.

(** The backend calls that the execution makes, in order. *)
Fixpoint calls {A : Type} (p : Prog A) (w : W) : list AnyOp :=
  match p with
  | Ret _ | Throw _ => []
  | Call op k =>
      let '(w', o) := perform _ op w in any_op op :: calls (k o) w'
  end.
End Run.


(* ===================================================================== *)
(** ** The helpers that [app.js] adds to [window.DatabaseHelpers] *)
(* ===================================================================== *)

(** What a helper resolves to: [{ success: true, ... }] or
    [{ success: false, error }]. *)
Inductive Reply (A : Type) : Type :=
| Success (a : A)
| Failure (error : JsValue).
Arguments Success {A} a.
Arguments Failure {A} error.

(** White space of [String.prototype.trim] among the one-byte code
    units: TAB, LF, VT, FF, CR, SP and NBSP. *)
Definition is_space (c : ascii) : bool :=
  let n := nat_of_ascii c in
  ((9 <=? n)%nat && (n <=? 13)%nat) || (n =? 32)%nat || (n =? 160)%nat.

Fixpoint trim_start (s : string) : string :=
  match s with
  | EmptyString => EmptyString
  | String c rest => if is_space c then trim_start rest else s
  end.

Fixpoint trim_end (s : string) : string :=
  match s with
  | EmptyString => EmptyString
  | String c rest =>
      match trim_end rest with
      | EmptyString => if is_space c then EmptyString else String c EmptyString
      | rest' => String c rest'
      end
  end.

Definition trim (s : string) : string := trim_end (trim_start s).

(** [createCustomer(phoneNumber, password, name = '')]; an omitted
    [name] is [None]. *)
Definition createCustomer (phoneNumber password : string)
           (name : option string) : Prog (Reply (User * string)) :=
  let name := default "" name in
  try_catch
    (if negb (isValidPhoneNumber phoneNumber) then
       Ret (Failure (JString "Invalid phone number format"))
     else if (String.length password <? 6)%nat then
       Ret (Failure (JString "Password must be at least 6 characters"))
     else
       let formattedPhone := formatPhoneNumber phoneNumber in
       let email := phoneToEmail formattedPhone in
       existingCustomer ← await (GetCustomer formattedPhone);
       if bool_decide (is_Some existingCustomer) then
         Ret (Failure
                (JString "Customer with this phone number already exists"))
       else
         user ← await (CreateUser email password);
         _ ← await (SetCustomer formattedPhone
                      {| points := 0;
                         createdAt := ServerTimestamp;
                         name := trim name;
                         uid := user_uid user;
                         lastLogin := ServerTimestamp |});
         Ret (Success (user, formattedPhone)))
    (fun error =>
       _ ← console_error "Error creating customer:" error;
       Ret (Failure (getErrorMessage error))).

(** The three sizes are counts; the four totals are numbers. *)
Record Stats : Type := mkStats {
  totalCustomers : Z;
  totalPurchases : Z;
  totalRedemptions : Z;
  totalRevenue : spec_float;
  totalPointsEarned : spec_float;
  totalPointsRedeemed : spec_float;
  activePoints : spec_float
}.

(** [x || 0] for a numeric field: [undefined], [0], [-0] and [NaN] give
    the literal [0]. *)
Definition or_zero (x : option spec_float) : spec_float :=
  match x with
  | Some v => if Number.truthy v then v else Number.of_Z 0
  | None => Number.of_Z 0
  end.

Definition amount_or_zero (x : option spec_float) : spec_float := or_zero x.

Definition points_or_zero (x : option Z) : spec_float :=
  or_zero (Number.of_Z <$> x).

(** The body of [purchasesSnapshot.forEach]: one step on the pair
    [(totalRevenue, totalPointsEarned)]; each [+=] is an addition of
    numbers. *)
Definition purchase_step (acc : spec_float * spec_float) (data : PurchaseDoc)
  : spec_float * spec_float :=
  (Number.add (fst acc) (amount_or_zero (amount data)),
   Number.add (snd acc) (points_or_zero (pointsEarned data))).

(** The body of [redemptionsSnapshot.forEach]. *)
Definition redemption_step (acc : spec_float) (data : RedemptionDoc)
  : spec_float :=
  Number.add acc (points_or_zero (pointsSpent data)).

Definition getStatistics : Prog (Reply Stats) :=
  try_catch
    ('(customersSnapshot, purchasesSnapshot, redemptionsSnapshot) ←
       await_all3 GetCustomers GetPurchases GetRedemptions;
     let '(totalRevenue, totalPointsEarned) :=
       fold_left purchase_step purchasesSnapshot
                 (Number.of_Z 0, Number.of_Z 0) in
     let totalPointsRedeemed :=
       fold_left redemption_step redemptionsSnapshot (Number.of_Z 0) in
     Ret (Success
            {| totalCustomers := Z.of_nat (length customersSnapshot);
               totalPurchases := Z.of_nat (length purchasesSnapshot);
               totalRedemptions := Z.of_nat (length redemptionsSnapshot);
               totalRevenue := totalRevenue;
               totalPointsEarned := totalPointsEarned;
               totalPointsRedeemed := totalPointsRedeemed;
               activePoints :=
                 Number.sub totalPointsEarned totalPointsRedeemed |}))
    (fun error =>
       _ ← console_error "Error getting statistics:" error;
       Ret (Failure (getErrorMessage error))).

(* ===================================================================== *)
(** ** An in-memory backend *)
(* ===================================================================== *)

Record World : Type := mkWorld {
  customers : gmap string CustomerDoc;
  purchases : list PurchaseDoc;
  redemptions : list RedemptionDoc;
  (** Firebase Auth: email to password and uid. *)
  accounts : gmap string (string * nat);
  console : list (string * JsError);
  clock : Z;
  (** When set, every call to Firestore or Auth is rejected with it. *)
  outage : option JsError
}.

Definition resolve_time (now : Z) (t : FieldTime) : FieldTime :=
  match t with
  | ServerTimestamp => TimeAt now
  | TimeAt _ => t
  end.

Definition stored (now : Z) (d : CustomerDoc) : CustomerDoc :=
  {| points := points d;
     createdAt := resolve_time now (createdAt d);
     name := name d;
     uid := uid d;
     lastLogin := resolve_time now (lastLogin d) |}.

Definition with_customers (w : World) (cs : gmap string CustomerDoc) : World :=
  {| customers := cs; purchases := purchases w; redemptions := redemptions w;
     accounts := accounts w; console := console w; clock := clock w;
     outage := outage w |}.

Definition with_accounts (w : World) (acs : gmap string (string * nat))
  : World :=
  {| customers := customers w; purchases := purchases w;
     redemptions := redemptions w; accounts := acs; console := console w;
     clock := clock w; outage := outage w |}.

Definition with_console (w : World) (c : list (string * JsError)) : World :=
  {| customers := customers w; purchases := purchases w;
     redemptions := redemptions w; accounts := accounts w; console := c;
     clock := clock w; outage := outage w |}.

Definition email_in_use : JsError :=
  {| code := Some "auth/email-already-in-use";
     message := Some "The email address is already in use by another account." |}.

Definition weak_password : JsError :=
  {| code := Some "auth/weak-password";
     message := Some "Password should be at least 6 characters" |}.

(** The service behind a call that is not an outage. *)
Definition serve {X : Type} (op : Op X) : World -> World * Outcome X :=
  match op in Op X return World -> World * Outcome X with
  | GetCustomer phone => fun w => (w, Resolved (customers w !! phone))
  | SetCustomer phone data => fun w =>
      (with_customers w (<[phone := stored (clock w) data]> (customers w)),
       Resolved tt)
  | CreateUser email password => fun w =>
      if bool_decide (is_Some (accounts w !! email)) then
        (w, Rejected email_in_use)
      else if (String.length password <? 6)%nat then
        (w, Rejected weak_password)
      else
        let uid := size (accounts w) in
        (with_accounts w (<[email := (password, uid)]> (accounts w)),
         Resolved {| user_uid := uid; user_email := email |})
  | GetCustomers => fun w => (w, Resolved (map_to_list (customers w)))
  | GetPurchases => fun w => (w, Resolved (purchases w))
  | GetRedemptions => fun w => (w, Resolved (redemptions w))
  | ConsoleError label error => fun w =>
      (with_console w (console w ++ [(label, error)]), Resolved tt)
  | FirstRejected _ => fun w => (w, Resolved 0%nat)
  end.

Definition is_console {X : Type} (op : Op X) : bool :=
  match op with
  | ConsoleError _ _ => true
  | _ => false
  end.

Definition firebase (X : Type) (op : Op X) (w : World) : World * Outcome X :=
  match outage w with
  | Some e => if is_console op then serve op w else (w, Rejected e)
  | None => serve op w
  end.

(* ===================================================================== *)
(** ** The points ledger *)
(* ===================================================================== *)

(** [awardPoints] and [redeemPoints] belong to the original
    [window.DatabaseHelpers], which [app.js] extends but does not define;
    the ledger below follows sections 4.1 to 4.3 of the design document. *)
Module Ledger.

Inductive Error : Type :=
| CustomerNotFound
| InvalidAmount
| InsufficientPoints
| InvalidTier.

Inductive Result (A : Type) : Type :=
| Ok (a : A)
| Err (e : Error).
Arguments Ok {A} a.
Arguments Err {A} e.

(** Modelled from the spec: the table of section 4.3, the points that
    a tier costs ([small] 100, [large] 180); any other name is not a
    tier. *)
Definition tier_cost (tier : string) : option Z :=
  if String.eqb tier "small" then Some 100
  else if String.eqb tier "large" then Some 180
  else None.

Definition with_points (c : CustomerDoc) (balance : Z) : CustomerDoc :=
  {| points := balance; createdAt := createdAt c; name := name c;
     uid := uid c; lastLogin := lastLogin c |}.

(** Modelled from the spec: the amounts for which section 4.1 defines
    the points, the finite numbers that are not negative; sections 4.1
    and 7 have the others rejected with [InvalidAmount]. *)
Definition valid_amount (amount : spec_float) : bool :=
  Number.is_finite amount && Number.leb (Number.of_Z 0) amount.

(** Modelled from the spec: [award_points] of section 4.2, absent from
    [app.js].  One transaction on the store: the customer is looked up
    by the normalized phone; an amount that section 4.1 does not admit
    is rejected with [InvalidAmount]; the points earned are those that
    [calculatePoints] of [app.js] computes for the amount; the balance
    update and the new Purchase record are committed together; a failure
    leaves the store as it was.  Returns [(newBalance, pointsEarned)]. *)
Definition award_points (customerPhone : string) (amount : spec_float)
           (w : World) : World * Result (Z * Z) :=
  let phone := formatPhoneNumber customerPhone in
  match customers w !! phone with
  | None => (w, Err CustomerNotFound)
  | Some customer =>
      if negb (valid_amount amount) then (w, Err InvalidAmount)
      else
        match Number.to_Z (calculatePoints amount) with
        | None => (w, Err InvalidAmount)
        | Some earned =>
            let newBalance := points customer + earned in
            ({| customers :=
                  <[phone := with_points customer newBalance]> (customers w);
                purchases :=
                  purchases w ++
                  [ {| p_customerPhone := phone;
                       amount := Some amount;
                       pointsEarned := Some earned;
                       p_createdAt := TimeAt (clock w) |} ];
                redemptions := redemptions w;
                accounts := accounts w;
                console := console w;
                clock := clock w;
                outage := outage w |},
             Ok (newBalance, earned))
        end
  end.

(** Modelled from the spec: [redeem_points] of section 4.3, absent
    from [app.js].  One transaction on the store: the customer is
    looked up, the balance is checked against the cost of the tier,
    and the deduction and the new Redemption record are committed
    together; a failure leaves the store as it was.  Returns
    [(newBalance, pointsSpent)]. *)
Definition redeem_points (customerPhone : string) (tier : string)
           (w : World) : World * Result (Z * Z) :=
  let phone := formatPhoneNumber customerPhone in
  match tier_cost tier with
  | None => (w, Err InvalidTier)
  | Some cost =>
      match customers w !! phone with
      | None => (w, Err CustomerNotFound)
      | Some customer =>
          if points customer <? cost then (w, Err InsufficientPoints)
          else
            let newBalance := points customer - cost in
            ({| customers :=
                  <[phone := with_points customer newBalance]> (customers w);
                purchases := purchases w;
                redemptions :=
                  redemptions w ++
                  [ {| r_customerPhone := phone;
                       tier := tier;
                       pointsSpent := Some cost;
                       r_createdAt := TimeAt (clock w) |} ];
                accounts := accounts w;
                console := console w;
                clock := clock w;
                outage := outage w |},
             Ok (newBalance, cost))
      end
  end.

End Ledger.

(** The outcome of the call [AppUtils.calculatePoints(amount)] in the
    vocabulary of the ledger: the body has no [throw] and no guard, so
    every call returns its number. *)
Definition calculatePoints_result (amount : spec_float)
  : Ledger.Result spec_float :=
  Ledger.Ok (calculatePoints amount).

(** Does [needle] occur in [hay]? *)
Definition contains (needle hay : string) : bool :=
  match String.index 0 needle hay with
  | Some _ => true
  | None => false
  end.

(** The canonical form of a phone number: a [+], then between 10 and 15
    characters, each one of the ten digits. *)
Definition decimal_digits : list ascii := list_ascii_of_string "0123456789".

Definition canonical_digits (s : string) : Prop :=
  Forall (fun c => In c decimal_digits) (list_ascii_of_string s).

Definition canonical_phone (s : string) : Prop :=
  exists ds : string,
    s = String "+"%char ds
    /\ canonical_digits ds
    /\ (10 <= String.length ds <= 15)%nat.

(** One step of [\d{lo,hi}]. *)
Definition digit_step : Regex.MState -> list Regex.MState :=
  Regex.match_from (Regex.Class Regex.Digit).

(** The key under which [getErrorMessage] looks an error up: its code,
    or its message when the code is missing or empty. *)
Definition lookup_key (error : JsError) : string :=
  property_key (js_or (prop (code error)) (prop (message error))).

(** A message that is the generic message plus the raw detail of the
    error: both occur in it. *)
Definition generic_plus_detail (error : JsError) (v : JsValue) : Prop :=
  exists s detail : string,
    v = JString s
    /\ message error = Some detail
    /\ contains generic_message s = true
    /\ contains detail s = true.

(** The fallback of [getErrorMessage]: the message of the error when it
    has one, the generic message otherwise. *)
Definition fallback_message (error : JsError) : string :=
  match message error with
  | Some detail => if String.eqb detail "" then generic_message else detail
  | None => generic_message
  end.

(** A Firestore error that the table does not list. *)
Definition unavailable_error : JsError :=
  {| code := Some "unavailable";
     message := Some "The service is currently unavailable." |}.


Definition sum_pointsEarned (ps : list PurchaseDoc) : Z :=
  fold_right (fun d acc => default 0 (pointsEarned d) + acc) 0 ps.

Definition sum_pointsSpent (rs : list RedemptionDoc) : Z :=
  fold_right (fun d acc => default 0 (pointsSpent d) + acc) 0 rs.

(** The sum of a list of integers, and the sum of their absolute
    values. *)
Definition Zsum (zs : list Z) : Z := fold_right Z.add 0 zs.

Definition Zsum_abs (zs : list Z) : Z :=
  fold_right (fun z acc => Z.abs z + acc) 0 zs.

(** The integers that the point fields of the records hold. *)
Definition earned_fields (ps : list PurchaseDoc) : list Z :=
  map (fun d => default 0 (pointsEarned d)) ps.

Definition spent_fields (rs : list RedemptionDoc) : list Z :=
  map (fun d => default 0 (pointsSpent d)) rs.

(** The sum of a list of numbers as a loop of [+=] from [0] computes
    it: from left to right, each addition rounded. *)
Definition float_sum (xs : list spec_float) : spec_float :=
  fold_left Number.add xs (Number.of_Z 0).

(** What the loops of [getStatistics] add: the fields of the documents,
    passed through [|| 0]. *)
Definition revenue_terms (ps : list PurchaseDoc) : list spec_float :=
  map (fun d => amount_or_zero (amount d)) ps.

Definition earned_terms (ps : list PurchaseDoc) : list spec_float :=
  map (fun d => points_or_zero (pointsEarned d)) ps.

Definition spent_terms (rs : list RedemptionDoc) : list spec_float :=
  map (fun d => points_or_zero (pointsSpent d)) rs.

(** The part of the world that the ledger keeps: the three collections
    and the accounts. *)
Definition same_records (w w' : World) : Prop :=
  customers w' = customers w
  /\ purchases w' = purchases w
  /\ redemptions w' = redemptions w
  /\ accounts w' = accounts w.

(** A small shop: one customer, three purchases, one redemption. *)
Definition wanjiru (balance : Z) : CustomerDoc :=
  {| points := balance; createdAt := TimeAt 1; name := "Wanjiru";
     uid := 0; lastLogin := TimeAt 2 |}.

Definition shop : World :=
  {| customers := {[ "+254700111222" := wanjiru 5 ]};
     purchases :=
       [ {| p_customerPhone := "+254700111222"; amount := Some (Number.of_Z 2050);
            pointsEarned := Some 100; p_createdAt := TimeAt 3 |};
         {| p_customerPhone := "+254700111222"; amount := Some (Number.of_Q (1999 # 20));
            pointsEarned := Some 0; p_createdAt := TimeAt 4 |};
         {| p_customerPhone := "+254700111222"; amount := Some (Number.of_Z 100);
            pointsEarned := Some 5; p_createdAt := TimeAt 5 |} ];
     redemptions :=
       [ {| r_customerPhone := "+254700111222"; tier := "small";
            pointsSpent := Some 100; r_createdAt := TimeAt 6 |} ];
     accounts := {[ "+254700111222@butchery.local" := ("secret1", 0%nat) ]};
     console := [];
     clock := 7;
     outage := None |}.


(** The shop with another balance for its customer. *)
Definition shop_with (balance : Z) : World :=
  with_customers shop {[ "+254700111222" := wanjiru balance ]}.

(** The characters that [formatPhoneNumber] keeps: the digits and [+]. *)
Definition phone_char (c : ascii) : Prop :=
  In c decimal_digits \/ c = "+"%char.

(** How many characters of a string satisfy a test. *)
Fixpoint count_chars (f : ascii -> bool) (s : string) : nat :=
  match s with
  | EmptyString => 0
  | String c rest => (if f c then 1 else 0) + count_chars f rest
  end.

Definition count_digits (s : string) : nat := count_chars Regex.is_digit s.

Definition count_plus (s : string) : nat :=
  count_chars (fun c => Ascii.eqb c "+") s.

(** A program that never throws to its caller, whatever the backend
    answers: every path ends in a [return]. *)
Inductive Returns {A : Type} : Prog A -> Prop :=
| Returns_Ret (a : A) : Returns (Ret a)
| Returns_Call {X : Type} (op : Op X) (k : Outcome X -> Prog A) :
    (forall o, Returns (k o)) -> Returns (Call op k).

(** The document that [createCustomer] writes for a new customer. *)
Definition new_customer (name : option string) (user : User) : CustomerDoc :=
  {| points := 0;
     createdAt := ServerTimestamp;
     name := trim (default "" name);
     uid := user_uid user;
     lastLogin := ServerTimestamp |}.

(** The statistics that [getStatistics] resolves to, if it does. *)
Definition stats_of (w : World) : option Stats :=
  match snd (run firebase getStatistics w) with
  | Resolved (Success st) => Some st
  | _ => None
  end.

(** A backend whose security rules refuse the write of a customer
    document; everything else is served as [firebase] does. *)
Definition permission_denied : JsError :=
  {| code := Some "permission-denied";
     message := Some "Missing or insufficient permissions." |}.

Definition is_set_customer {X : Type} (op : Op X) : bool :=
  match op with
  | SetCustomer _ _ => true
  | _ => false
  end.

Definition firebase_write_denied (X : Type) (op : Op X) (w : World)
  : World * Outcome X :=
  if is_set_customer op then (w, Rejected permission_denied)
  else firebase X op w.

(** A backend that rejects the read of the customers and the read of
    the purchases, the second rejection arriving first. *)
Definition racing (X : Type) (op : Op X) (w : unit) : unit * Outcome X :=
  match op in Op X return unit * Outcome X with
  | GetCustomers => (w, Rejected unavailable_error)
  | GetPurchases => (w, Rejected permission_denied)
  | GetRedemptions => (w, Resolved [])
  | FirstRejected _ => (w, Resolved 1%nat)
  | GetCustomer _ => (w, Resolved None)
  | SetCustomer _ _ => (w, Resolved tt)
  | CreateUser email _ => (w, Resolved {| user_uid := 0; user_email := email |})
  | ConsoleError _ _ => (w, Resolved tt)
  end.

(** The shop after its customer documents were lost: the account of the
    customer is still there. *)
Definition shop_without_documents : World := with_customers shop ∅.

(* ===================================================================== *)
(** ** The rest of [window.AppUtils]: buttons *)
(* ===================================================================== *)

(** What [setButtonLoading] reads and writes of a button element: its
    text, its [disabled] flag and the entry [originalText] of its
    [dataset] ([None] when the entry is absent). *)
Record Button : Type := mkButton {
  textContent : string;
  disabled : bool;
  dataset_originalText : option string
}.

(** [a || b] for an optional string [a] and a string [b]. *)
Definition string_or (a : option string) (b : string) : string :=
  match a with
  | Some s => if String.eqb s "" then b else s
  | None => b
  end.

(** [setButtonLoading(button, loading, originalText = null)]; the button
    is changed in place, so the new state of the button is returned. *)
Definition setButtonLoading (button : Button) (loading : bool)
           (originalText : option string) : Button :=
  if loading then
    {| dataset_originalText := Some (textContent button);
       textContent := "Loading...";
       disabled := true |}
  else
    {| textContent :=
         string_or originalText
           (string_or (dataset_originalText button) "Submit");
       disabled := false;
       dataset_originalText := None |}.

(* ===================================================================== *)
(** ** The session helpers of [window.DatabaseHelpers] *)
(* ===================================================================== *)

(** [loginCustomer], [getCustomerPurchases] and [getCustomerRedemptions]
    make backend calls that [createCustomer] and [getStatistics] do not:
    their programs are scripts over the requests below, which include
    the calls of [Op]. *)
Module Session.

(** Document ids are opaque; here, the position in the collection. *)
Definition DocId : Type := nat.

Inductive Request : Type -> Type :=
| Backend {X : Type} (op : Op X) : Request X
(** [auth.signInWithEmailAndPassword(email, password)] *)
| SignIn (email password : string) : Request User
(** [auth.signOut()] *)
| SignOut : Request unit
(** [db.collection('customers').doc(phone).update({lastLogin: serverTimestamp()})] *)
| UpdateLastLogin (phone : string) : Request unit
(** [db.collection('purchases').where('customerPhone', '==', phone)
       .orderBy('createdAt', 'desc').limit(limit).get()] *)
| QueryPurchases (phone : string) (limit : nat)
  : Request (list (DocId * PurchaseDoc))
(** the same query on [redemptions] *)
| QueryRedemptions (phone : string) (limit : nat)
  : Request (list (DocId * RedemptionDoc)).

Inductive Script (A : Type) : Type :=
| Return (a : A)
| Raise (e : JsError)
| Ask {X : Type} (rq : Request X) (k : Outcome X -> Script A).
Arguments Return {A} a.
Arguments Raise {A} e.
Arguments Ask {A X} rq k.

Fixpoint bind {A B : Type} (p : Script A) (f : A -> Script B) : Script B :=
  match p with
  | Return a => f a
  | Raise e => Raise e
  | Ask rq k => Ask rq (fun o => bind (k o) f)
  end.

#[export] Instance Script_ret : MRet Script := @Return.
#[export] Instance Script_bind : MBind Script := fun A B f p => bind p f.

(** [try { p } catch (error) { h error }] *)
Fixpoint try_catch {A : Type} (p : Script A) (h : JsError -> Script A)
  : Script A :=
  match p with
  | Return a => Return a
  | Raise e => h e
  | Ask rq k => Ask rq (fun o => try_catch (k o) h)
  end.

Definition settle {X : Type} (o : Outcome X) : Script X :=
  match o with
  | Resolved x => Return x
  | Rejected e => Raise e
  end.

Definition await {X : Type} (rq : Request X) : Script X := Ask rq settle.

Definition console_error (label : string) (error : JsError) : Script unit :=
  Ask (Backend (ConsoleError label error)) (fun _ => Return tt).

Inductive AnyRequest : Type :=
| any_request {X : Type} (rq : Request X).

Section Run.
Context {S : Type}.
Variable perform : forall X : Type, Request X -> S -> S * Outcome X.

Fixpoint run {A : Type} (p : Script A) (s : S) : S * Outcome A :=
  match p with
  | Return a => (s, Resolved a)
  | Raise e => (s, Rejected e)
  | Ask rq k => let '(s', o) := perform _ rq s in run (k o) s'
  end.

Fixpoint calls {A : Type} (p : Script A) (s : S) : list AnyRequest :=
  match p with
  | Return _ | Raise _ => []
  | Ask rq k =>
      let '(s', o) := perform _ rq s in any_request rq :: calls (k o) s'
  end.
End Run.

(** A script that never throws to its caller. *)
Inductive Returns {A : Type} : Script A -> Prop :=
| Returns_Return (a : A) : Returns (Return a)
| Returns_Ask {X : Type} (rq : Request X) (k : Outcome X -> Script A) :
    (forall o, Returns (k o)) -> Returns (Ask rq k).

(** [loginCustomer(phoneNumber, password)]; a success carries the user,
    the normalized phone and [customerDoc.data()]. *)
Definition loginCustomer (phoneNumber password : string)
  : Script (Reply (User * string * CustomerDoc)) :=
  try_catch
    (if negb (isValidPhoneNumber phoneNumber) then
       Return (Failure (JString "Invalid phone number format"))
     else
       let formattedPhone := formatPhoneNumber phoneNumber in
       let email := phoneToEmail formattedPhone in
       user ← await (SignIn email password);
       customerDoc ← await (Backend (GetCustomer formattedPhone));
       match customerDoc with
       | None =>
           _ ← await SignOut;
           Return (Failure (JString "Customer account not found"))
       | Some customer =>
           _ ← await (UpdateLastLogin formattedPhone);
           Return (Success (user, formattedPhone, customer))
       end)
    (fun error =>
       _ ← console_error "Error logging in customer:" error;
       Return (Failure (getErrorMessage error))).

(** [snapshot.forEach(doc => list.push({ id: doc.id, ...doc.data() }))],
    starting from the empty array. *)
Definition collect {D : Type} (snapshot : list (DocId * D))
  : list (DocId * D) :=
  fold_left (fun acc doc => (acc ++ [(fst doc, snd doc)])%list) snapshot [].

(** [getCustomerPurchases(phoneNumber, limit = 10)] *)
Definition getCustomerPurchases (phoneNumber : string) (limit : option nat)
  : Script (Reply (list (DocId * PurchaseDoc))) :=
  let limit := default 10%nat limit in
  try_catch
    (snapshot ← await (QueryPurchases phoneNumber limit);
     Return (Success (collect snapshot)))
    (fun error =>
       _ ← console_error "Error getting purchases:" error;
       Return (Failure (getErrorMessage error))).

(** [getCustomerRedemptions(phoneNumber, limit = 10)] *)
Definition getCustomerRedemptions (phoneNumber : string) (limit : option nat)
  : Script (Reply (list (DocId * RedemptionDoc))) :=
  let limit := default 10%nat limit in
  try_catch
    (snapshot ← await (QueryRedemptions phoneNumber limit);
     Return (Success (collect snapshot)))
    (fun error =>
       _ ← console_error "Error getting redemptions:" error;
       Return (Failure (getErrorMessage error))).

(** *** The in-memory backend with a session *)

Record State : Type := mkState {
  store : World;
  (** [auth.currentUser] *)
  currentUser : option User
}.

Definition with_store (s : State) (w : World) : State :=
  {| store := w; currentUser := currentUser s |}.

Definition user_not_found : JsError :=
  {| code := Some "auth/user-not-found";
     message := Some "There is no user record corresponding to this identifier." |}.

Definition wrong_password : JsError :=
  {| code := Some "auth/wrong-password";
     message := Some "The password is invalid or the user does not have a password." |}.

Definition not_found : JsError :=
  {| code := Some "not-found";
     message := Some "No document to update." |}.

Definition invalid_limit : JsError :=
  {| code := Some "invalid-argument";
     message := Some "Function Query.limit() requires a positive number." |}.

Definition with_lastLogin (c : CustomerDoc) (t : FieldTime) : CustomerDoc :=
  {| points := points c; createdAt := createdAt c; name := name c;
     uid := uid c; lastLogin := t |}.

(** The time by which [orderBy('createdAt')] orders a document. *)
Definition time_key (t : FieldTime) : Z :=
  match t with
  | TimeAt z => z
  | ServerTimestamp => 0
  end.

(** The documents of a collection with their ids. *)
Definition with_ids {D : Type} (docs : list D) : list (DocId * D) :=
  imap (fun i d => (i, d)) docs.

(** [a] comes no later than [b] in the order of [orderBy(_, 'desc')]:
    it is at least as recent. *)
Definition newer {D : Type} (time_of : D -> FieldTime) (a b : DocId * D)
  : Prop :=
  time_key (time_of (snd b)) <= time_key (time_of (snd a)).

#[global] Instance newer_dec {D : Type} (time_of : D -> FieldTime)
  (a b : DocId * D) : Decision (newer time_of a b).
Proof. unfold newer. apply Z.le_dec. Defined.

(** [where(phone).orderBy(createdAt, 'desc').limit(limit)] on a
    collection, given where a document keeps its phone and its time. *)
Definition select {D : Type} (phone_of : D -> string) (time_of : D -> FieldTime)
           (phone : string) (limit : nat) (docs : list D)
  : list (DocId * D) :=
  take limit
    (merge_sort (newer time_of)
       (filter (fun d => phone_of (snd d) = phone) (with_ids docs))).

(** What the services answer while they are up. *)
Definition serve {X : Type} (rq : Request X) : State -> State * Outcome X :=
  match rq in Request X return State -> State * Outcome X with
  | Backend op => fun s =>
      let '(w, o) := firebase _ op (store s) in (with_store s w, o)
  | SignIn email password => fun s =>
      match accounts (store s) !! email with
      | None => (s, Rejected user_not_found)
      | Some (stored_password, uid) =>
          if String.eqb stored_password password then
            let user := {| user_uid := uid; user_email := email |} in
            ({| store := store s; currentUser := Some user |}, Resolved user)
          else (s, Rejected wrong_password)
      end
  | SignOut => fun s =>
      ({| store := store s; currentUser := None |}, Resolved tt)
  | UpdateLastLogin phone => fun s =>
      match customers (store s) !! phone with
      | None => (s, Rejected not_found)
      | Some c =>
          (with_store s
             (with_customers (store s)
                (<[phone := with_lastLogin c (TimeAt (clock (store s)))]>
                   (customers (store s)))),
           Resolved tt)
      end
  | QueryPurchases phone limit => fun s =>
      match limit with
      | O => (s, Rejected invalid_limit)
      | S _ =>
          (s, Resolved (select p_customerPhone p_createdAt phone limit
                               (purchases (store s))))
      end
  | QueryRedemptions phone limit => fun s =>
      match limit with
      | O => (s, Rejected invalid_limit)
      | S _ =>
          (s, Resolved (select r_customerPhone r_createdAt phone limit
                               (redemptions (store s))))
      end
  end.

Definition is_backend {X : Type} (rq : Request X) : bool :=
  match rq with
  | Backend _ => true
  | _ => false
  end.

Definition is_sign_out {X : Type} (rq : Request X) : bool :=
  match rq with
  | SignOut => true
  | _ => false
  end.

(** During an outage every request to Firestore or Auth is rejected;
    signing out is local and the calls of [Op] are served by [firebase],
    which knows about the outage. *)
Definition backend (X : Type) (rq : Request X) (s : State)
  : State * Outcome X :=
  match outage (store s) with
  | Some e =>
      if is_backend rq || is_sign_out rq then serve rq s else (s, Rejected e)
  | None => serve rq s
  end.

End Session.

(** What a history query answers for [phone] and [limit] on a
    collection: at most [limit] documents, each one a document of the
    collection whose phone is [phone], the newest first; all of them
    when there are no more than [limit]. *)
Definition history_of {D : Type} (phone_of : D -> string)
           (time_of : D -> FieldTime) (docs : list D) (phone : string)
           (limit : nat) (result : list (Session.DocId * D)) : Prop :=
  (length result <= limit)%nat
  /\ (forall (id : Session.DocId) (d : D),
         (id, d) ∈ result -> phone_of d = phone /\ docs !! id = Some d)
  /\ StronglySorted (Session.newer time_of) result
  /\ ((length (filter (fun d => phone_of d = phone) docs) <= limit)%nat ->
      forall (id : Session.DocId) (d : D),
        docs !! id = Some d -> phone_of d = phone -> (id, d) ∈ result).

(** The shop in a session with nobody signed in. *)
Definition shop_session : Session.State :=
  {| Session.store := shop; Session.currentUser := None |}.

(* ===================================================================== *)
(** ** The rest of [window.AppUtils]: [debounce] *)
(* ===================================================================== *)

(** [debounce(func, wait)] returns a function that shares one variable,
    [timeout], with the timers it sets.  The model keeps the timers of
    the page that this function has set, the variable, the clock of the
    page in milliseconds, and the calls of [func] made so far.  Time
    passes between events only: a timer runs when the page is idle and
    its delay has elapsed. *)
Module Debounce.

Section Debounce.

(** The arguments of one call, [...args]. *)
Context {Args : Type}.

(** [wait] *)
Variable wait : Z.

Record Timer : Type := mkTimer {
  timer_id : nat;
  due : Z;
  (** the [args] that the callback [later] has captured *)
  timer_args : Args
}.

Record State : Type := mkState {
  now : Z;
  next_id : nat;
  pending : list Timer;
  (** [let timeout;]: [None] is [undefined] *)
  timeout : option nat;
  (** the calls [func(...args)] so far, oldest first *)
  invoked : list Args
}.

Definition initial : State :=
  {| now := 0; next_id := 1; pending := []; timeout := None; invoked := [] |}.

(** A timer fires no earlier than its delay, and a negative delay counts
    as none. *)
Definition delay : Z := Z.max 0 wait.

(** [clearTimeout(id)]; clearing [undefined] or a timer that is gone
    does nothing. *)
Definition clearTimeout (id : option nat) (timers : list Timer)
  : list Timer :=
  match id with
  | None => timers
  | Some i => List.filter (fun t => negb (Nat.eqb (timer_id t) i)) timers
  end.

(** A call [executedFunction(...args)]:
    [clearTimeout(timeout); timeout = setTimeout(later, wait)]. *)
Definition executedFunction (args : Args) (st : State) : State :=
  let id := next_id st in
  {| now := now st;
     next_id := S id;
     pending :=
       clearTimeout (timeout st) (pending st)
       ++ [ {| timer_id := id; due := now st + delay; timer_args := args |} ];
     timeout := Some id;
     invoked := invoked st |}.

(** The callback of a timer that fires:
    [clearTimeout(timeout); func(...args)]. *)
Definition later (t : Timer) (st : State) : State :=
  {| now := now st;
     next_id := next_id st;
     pending := clearTimeout (timeout st) (pending st);
     timeout := timeout st;
     invoked := invoked st ++ [timer_args t] |}.

(** The timer to run next at time [t]: among those that are due, the
    one due first, the older one on a tie. *)
Fixpoint next_due (t : Z) (timers : list Timer) : option Timer :=
  match timers with
  | [] => None
  | x :: rest =>
      match next_due t rest with
      | Some y =>
          if (due x <=? t) && (due x <=? due y) then Some x else Some y
      | None => if due x <=? t then Some x else None
      end
  end.

Definition remove_timer (t : Timer) (timers : list Timer) : list Timer :=
  List.filter (fun x => negb (Nat.eqb (timer_id x) (timer_id t))) timers.

(** Run the timers that are due, one after the other. *)
Fixpoint run_due (fuel : nat) (st : State) : State :=
  match fuel with
  | O => st
  | S fuel' =>
      match next_due (now st) (pending st) with
      | None => st
      | Some t =>
          run_due fuel'
            (later t
               {| now := now st; next_id := next_id st;
                  pending := remove_timer t (pending st);
                  timeout := timeout st; invoked := invoked st |})
      end
  end.

(** The page is idle for [d] milliseconds. *)
Definition elapse (d : Z) (st : State) : State :=
  run_due (length (pending st))
    {| now := now st + Z.max 0 d; next_id := next_id st;
       pending := pending st; timeout := timeout st;
       invoked := invoked st |}.

Inductive Event : Type :=
| Invoke (args : Args)
| Elapse (d : Z).

Definition step (st : State) (ev : Event) : State :=
  match ev with
  | Invoke args => executedFunction args st
  | Elapse d => elapse d st
  end.

Definition run_events (evs : list Event) (st : State) : State :=
  fold_left step evs st.

(** A burst: calls, each followed by an idle time. *)
Definition burst_events (burst : list (Args * Z)) : list Event :=
  flat_map (fun call => [Invoke (fst call); Elapse (snd call)]) burst.

(** At most one timer is pending, and it is the one in [timeout]. *)
Definition tidy (st : State) : Prop :=
  pending st = []
  \/ exists t : Timer, pending st = [t] /\ timeout st = Some (timer_id t).

End Debounce.

End Debounce.

(** The arguments of the calls among the events, oldest first. *)
Definition invocations {Args : Type} (evs : list (@Debounce.Event Args))
  : list Args :=
  flat_map (fun ev => match ev with
                      | Debounce.Invoke args => [args]
                      | Debounce.Elapse _ => []
                      end) evs.

(** What has been delivered and what is still pending is, in order, a
    selection of the calls seen so far. *)
Definition delivered_of {Args : Type} (seen : list Args)
           (st : @Debounce.State Args) : Prop :=
  Debounce.tidy st
  /\ (Debounce.invoked st
      ++ map Debounce.timer_args (Debounce.pending st))%list
     `sublist_of` seen.

(* ===================================================================== *)
(** ** The rest of [window.AppUtils]: [storage] *)
(* ===================================================================== *)

(** The helpers around [localStorage].  [JSON.stringify] and
    [JSON.parse] are parameters: the values [V] of the page, what
    [stringify] makes of a value (a text, [undefined], or an exception)
    and what [parse] makes of a text ([None] when it throws). *)
Module Storage.

Inductive Stringified : Type :=
| Text (s : string)
| NoText
| StringifyThrows.

(** [localStorage]: its items; [full] when [setItem] throws for lack of
    room, [blocked] when every access throws; and the labels that
    [console.warn] has logged. *)
Record State : Type := mkState {
  items : gmap string string;
  full : bool;
  blocked : bool;
  warnings : list string
}.

Definition with_items (st : State) (m : gmap string string) : State :=
  {| items := m; full := full st; blocked := blocked st;
     warnings := warnings st |}.

Definition warn (label : string) (st : State) : State :=
  {| items := items st; full := full st; blocked := blocked st;
     warnings := warnings st ++ [label] |}.

Section Storage.

Context {V : Type}.
Variable null : V.
Variable stringify : V -> Stringified.
Variable parse : string -> option V.

(** [storage.set(key, value)] *)
Definition set (key : string) (value : V) (st : State) : State :=
  match stringify value with
  | StringifyThrows => warn "Failed to save to localStorage:" st
  | Text text =>
      if blocked st || full st then warn "Failed to save to localStorage:" st
      else with_items st (<[key := text]> (items st))
  | NoText =>
      if blocked st || full st then warn "Failed to save to localStorage:" st
      else with_items st (<[key := "undefined"]> (items st))
  end.

(** [storage.get(key, defaultValue = null)]: the new state of the
    console and the value returned. *)
Definition get (key : string) (defaultValue : option V) (st : State)
  : State * V :=
  let defaultValue := default null defaultValue in
  if blocked st then
    (warn "Failed to read from localStorage:" st, defaultValue)
  else
    match items st !! key with
    | None => (st, defaultValue)
    | Some item =>
        if String.eqb item "" then (st, defaultValue)
        else
          match parse item with
          | Some value => (st, value)
          | None => (warn "Failed to read from localStorage:" st,
                     defaultValue)
          end
    end.

(** [storage.remove(key)] *)
Definition remove (key : string) (st : State) : State :=
  if blocked st then warn "Failed to remove from localStorage:" st
  else with_items st (delete key (items st)).

End Storage.

(** A fragment of JSON for the examples: [undefined], [null] and the
    booleans. *)
Inductive Flag : Type :=
| FUndefined
| FNull
| FBool (b : bool).

Definition flag_stringify (v : Flag) : Stringified :=
  match v with
  | FUndefined => NoText
  | FNull => Text "null"
  | FBool true => Text "true"
  | FBool false => Text "false"
  end.

Definition flag_parse (text : string) : option Flag :=
  if String.eqb text "null" then Some FNull
  else if String.eqb text "true" then Some (FBool true)
  else if String.eqb text "false" then Some (FBool false)
  else None.

Definition empty : State :=
  {| items := ∅; full := false; blocked := false; warnings := [] |}.

End Storage.

(* ===================================================================== *)
(** * Properties *)
(* ===================================================================== *)

(** ** Binary64 arithmetic *)

Ltac zq := unfold Qlt, Qle, inject_Z; cbn [Qnum Qden]; lia.

Ltac qlra := repeat match goal with x := _ |- _ => clearbody x end; lra.

Module NumberFacts.
Import Number.

(** *** Powers of two *)

Lemma pow2_pos (e : Z) : (0 < pow2 e)%Q.
Proof. unfold pow2. apply Qpower_0_lt. reflexivity. Qed.

Lemma pow2_add (a b : Z) : (pow2 (a + b) == pow2 a * pow2 b)%Q.
Proof. unfold pow2. apply Qpower_plus. discriminate. Qed.

Lemma pow2_sub (a b : Z) : (pow2 (a - b) == pow2 a / pow2 b)%Q.
Proof. unfold pow2. apply Qpower_minus. discriminate. Qed.

Lemma pow2_0 : (pow2 0 == 1)%Q.
Proof. reflexivity. Qed.

Lemma pow2_1 : (pow2 1 == 2)%Q.
Proof. reflexivity. Qed.

Lemma pow2_succ (a : Z) : (pow2 (a + 1) == 2 * pow2 a)%Q.
Proof. rewrite pow2_add, pow2_1. ring. Qed.

Lemma pow2_le (a b : Z) : a <= b -> (pow2 a <= pow2 b)%Q.
Proof. intros H. unfold pow2. apply Qpower_le_compat_l; [exact H | discriminate]. Qed.

Lemma pow2_lt (a b : Z) : a < b -> (pow2 a < pow2 b)%Q.
Proof. intros H. unfold pow2. apply Qpower_lt_compat_l; [exact H | reflexivity]. Qed.

Lemma pow2_le_inv (a b : Z) : (pow2 a <= pow2 b)%Q -> a <= b.
Proof.
  intros H. destruct (Z_le_gt_dec a b) as [|Hgt]; [assumption|].
  assert (pow2 b < pow2 a)%Q by (apply pow2_lt; lia). lra.
Qed.

Lemma pow2_lt_inv (a b : Z) : (pow2 a < pow2 b)%Q -> a < b.
Proof.
  intros H. destruct (Z_lt_ge_dec a b) as [|Hge]; [assumption|].
  assert (pow2 b <= pow2 a)%Q by (apply pow2_le; lia). lra.
Qed.

Lemma pow2_Z (e : Z) : 0 <= e -> (pow2 e == inject_Z (2 ^ e))%Q.
Proof. intros H. unfold pow2. now rewrite Zpower_Qpower. Qed.

(** *** Magnitude and rounding to an integer *)

Lemma Qle_bool_false (x y : Q) : Qle_bool x y = false -> (y < x)%Q.
Proof.
  intros H. apply Qnot_le_lt. intros Hle. apply Qle_bool_iff in Hle. congruence.
Qed.

Lemma Z_log2_bounds (n : Z) : 0 < n -> 2 ^ Z.log2 n <= n < 2 ^ (Z.log2 n + 1).
Proof. intros H. pose proof (Z.log2_spec n H). replace (Z.log2 n + 1) with (Z.succ (Z.log2 n)) by lia. lia. Qed.

Lemma Qmag_rough (q : Q) :
  (0 < q)%Q ->
  let k := Z.log2 (Qnum q) - Z.log2 (Zpos (Qden q)) in
  (pow2 (k - 1) < q /\ q < pow2 (k + 1))%Q.
Proof.
  intros Hq k. destruct q as [n d]. cbn [Qnum Qden] in k.
  assert (Hn : 0 < n) by (unfold Qlt in Hq; cbn in Hq; lia).
  pose proof (Z_log2_bounds n Hn) as [Hn1 Hn2].
  pose proof (Z_log2_bounds (Zpos d) eq_refl) as [Hd1 Hd2].
  pose proof (Z.log2_nonneg n) as Hln. pose proof (Z.log2_nonneg (Zpos d)) as Hld.
  set (ln := Z.log2 n) in *. set (ld := Z.log2 (Zpos d)) in *.
  assert (Hnd : (n # d == inject_Z n / inject_Z (Zpos d))%Q) by (apply Qmake_Qdiv).
  assert (HdQ : (0 < inject_Z (Zpos d))%Q) by zq.
  split.
  - replace (k - 1) with (ln - (ld + 1)) by (unfold k; lia).
    rewrite pow2_sub, !pow2_Z by lia. rewrite Hnd.
    assert (H1 : (inject_Z (2 ^ ln) <= inject_Z n)%Q) by zq.
    assert (H2 : (inject_Z (Zpos d) < inject_Z (2 ^ (ld + 1)))%Q) by zq.
    assert (H0 : (0 < inject_Z (2 ^ ln))%Q) by zq.
    set (A := inject_Z (2 ^ ln)) in *. set (B := inject_Z (2 ^ (ld + 1))) in *.
    set (N := inject_Z n) in *. set (D := inject_Z (Zpos d)) in *.
    apply Qlt_shift_div_l; [exact HdQ|].
    apply Qlt_le_trans with (A / B * B)%Q.
    + apply Qmult_lt_l; [|exact H2]. apply Qlt_shift_div_l; lra.
    + field_simplify; lra.
  - replace (k + 1) with (ln + 1 - ld) by (unfold k; lia).
    rewrite pow2_sub, !pow2_Z by lia. rewrite Hnd.
    assert (H1 : (inject_Z n < inject_Z (2 ^ (ln + 1)))%Q) by zq.
    assert (H2 : (inject_Z (2 ^ ld) <= inject_Z (Zpos d))%Q) by zq.
    assert (H0 : (0 < inject_Z (2 ^ ld))%Q) by zq.
    assert (H3 : (0 < inject_Z n)%Q) by zq.
    set (A := inject_Z (2 ^ (ln + 1))) in *. set (B := inject_Z (2 ^ ld)) in *.
    set (N := inject_Z n) in *. set (D := inject_Z (Zpos d)) in *.
    apply Qlt_shift_div_r; [exact HdQ|].
    apply Qlt_le_trans with (A / B * B)%Q.
    + field_simplify; lra.
    + apply Qmult_le_l; [|exact H2]. apply Qlt_shift_div_l; lra.
Qed.

Lemma Qmag_spec (q : Q) :
  (0 < q)%Q -> (pow2 (Qmag q - 1) <= q /\ q < pow2 (Qmag q))%Q.
Proof.
  intros Hq. pose proof (Qmag_rough q Hq) as [H1 H2]. unfold Qmag.
  set (k := Z.log2 (Qnum q) - Z.log2 (Zpos (Qden q))) in *.
  destruct (Qle_bool (pow2 k) q) eqn:Hb.
  - apply Qle_bool_iff in Hb. replace (k + 1 - 1) with k by lia. split; assumption.
  - apply Qle_bool_false in Hb. split; [apply Qlt_le_weak; exact H1 | exact Hb].
Qed.

Lemma Qmag_unique (q : Q) (m : Z) :
  (pow2 (m - 1) <= q)%Q -> (q < pow2 m)%Q -> Qmag q = m.
Proof.
  intros H1 H2.
  assert (Hq : (0 < q)%Q) by (pose proof (pow2_pos (m - 1)); lra).
  pose proof (Qmag_spec q Hq) as [H3 H4].
  assert (m - 1 < Qmag q) by (apply pow2_lt_inv; lra).
  assert (Qmag q - 1 < m) by (apply pow2_lt_inv; lra).
  lia.
Qed.

Lemma Qmag_mono (p q : Q) : (0 < p)%Q -> (p <= q)%Q -> Qmag p <= Qmag q.
Proof.
  intros Hp Hpq.
  pose proof (Qmag_spec p Hp) as [H1 H2].
  pose proof (Qmag_spec q ltac:(lra)) as [H3 H4].
  assert (Qmag p - 1 < Qmag q) by (apply pow2_lt_inv; lra). lia.
Qed.

Lemma Qmag_comp (p q : Q) : (0 < p)%Q -> (p == q)%Q -> Qmag p = Qmag q.
Proof.
  intros Hp Hpq. pose proof (Qmag_spec p Hp) as [H1 H2].
  symmetry. apply Qmag_unique; lra.
Qed.

(** * Rounding to the nearest integer, ties to even *)

Lemma Qfloor_bounds (q : Q) : (inject_Z (Qfloor q) <= q < inject_Z (Qfloor q) + 1)%Q.
Proof.
  split; [apply Qfloor_le|]. pose proof (Qlt_floor q) as H.
  rewrite inject_Z_plus in H. exact H.
Qed.

Lemma Qfloor_unique (q : Q) (n : Z) : (inject_Z n <= q < inject_Z n + 1)%Q -> Qfloor q = n.
Proof.
  intros [H1 H2]. pose proof (Qfloor_bounds q) as [H3 H4].
  assert (n < Qfloor q + 1).
  { rewrite Zlt_Qlt, inject_Z_plus. change (inject_Z 1) with 1%Q. lra. }
  assert (Qfloor q < n + 1).
  { rewrite Zlt_Qlt, inject_Z_plus. change (inject_Z 1) with 1%Q. lra. }
  lia.
Qed.

Lemma Qrne_comp (p q : Q) : (p == q)%Q -> Qrne p = Qrne q.
Proof.
  intros Hpq. unfold Qrne. rewrite (Qfloor_comp _ _ Hpq).
  assert (H : (p - inject_Z (Qfloor q) == q - inject_Z (Qfloor q))%Q) by (rewrite Hpq; reflexivity).
  now rewrite (Qcompare_comp _ _ H _ _ (Qeq_refl (1 # 2))).
Qed.

Lemma Qrne_cases (q : Q) :
  (Qrne q = Qfloor q /\ (q - inject_Z (Qfloor q) <= 1 # 2)%Q) \/
  (Qrne q = Qfloor q + 1 /\ (1 # 2 <= q - inject_Z (Qfloor q))%Q).
Proof.
  unfold Qrne. destruct (Qcompare_spec (q - inject_Z (Qfloor q)) (1 # 2)) as [H|H|H].
  - destruct (Z.even (Qfloor q)); [left | right]; split; try reflexivity; lra.
  - left. split; [reflexivity | lra].
  - right. split; [reflexivity | lra].
Qed.

Lemma Qrne_err (q : Q) : (- (1 # 2) <= inject_Z (Qrne q) - q <= 1 # 2)%Q.
Proof.
  pose proof (Qfloor_bounds q) as [H1 H2].
  destruct (Qrne_cases q) as [[-> H]|[-> H]].
  - lra.
  - rewrite inject_Z_plus. change (inject_Z 1) with 1%Q. lra.
Qed.

Lemma Qrne_Z (n : Z) : Qrne (inject_Z n) = n.
Proof.
  unfold Qrne. rewrite Qfloor_Z.
  destruct (Qcompare_spec (inject_Z n - inject_Z n) (1 # 2)) as [H|H|H]; try reflexivity; lra.
Qed.

Lemma Qrne_mono (p q : Q) : (p <= q)%Q -> Qrne p <= Qrne q.
Proof.
  intros Hpq.
  pose proof (Qfloor_resp_le _ _ Hpq) as Hf.
  destruct (Z.eq_dec (Qfloor p) (Qfloor q)) as [He|Hne].
  - unfold Qrne. rewrite He.
    destruct (Qcompare_spec (p - inject_Z (Qfloor q)) (1 # 2)) as [H|H|H];
      destruct (Qcompare_spec (q - inject_Z (Qfloor q)) (1 # 2)) as [H'|H'|H'];
      try destruct (Z.even (Qfloor q)); try lia; lra.
  - assert (Qfloor p + 1 <= Qfloor q) by lia.
    destruct (Qrne_cases p) as [[-> _]|[-> _]]; destruct (Qrne_cases q) as [[-> _]|[-> _]]; lia.
Qed.

Lemma Qrne_between (q : Q) (a b : Z) :
  (inject_Z a <= q <= inject_Z b)%Q -> a <= Qrne q <= b.
Proof.
  intros [H1 H2]. split.
  - rewrite <- (Qrne_Z a). now apply Qrne_mono.
  - rewrite <- (Qrne_Z b). now apply Qrne_mono.
Qed.

(** *** Rounding to the format *)

Lemma fexp_eq (e : Z) : fexp e = Z.max (e - 53) (-1074).
Proof. reflexivity. Qed.

Lemma fexp_mono (a b : Z) : a <= b -> fexp a <= fexp b.
Proof. rewrite !fexp_eq. lia. Qed.

Lemma cexp_comp (p q : Q) : (0 < p)%Q -> (p == q)%Q -> cexp p = cexp q.
Proof. intros Hp Hpq. unfold cexp. now rewrite (Qmag_comp p q Hp Hpq). Qed.

Lemma scaled_comp (p q : Q) : (0 < p)%Q -> (p == q)%Q -> scaled p = scaled q.
Proof.
  intros Hp Hpq. unfold scaled. rewrite (cexp_comp p q Hp Hpq).
  apply Qrne_comp. now rewrite Hpq.
Qed.

Lemma rnd_comp (p q : Q) : (0 < p)%Q -> (p == q)%Q -> (rnd p == rnd q)%Q.
Proof.
  intros Hp Hpq. unfold rnd.
  now rewrite (scaled_comp p q Hp Hpq), (cexp_comp p q Hp Hpq).
Qed.

Lemma round_pos_comp (s : bool) (p q : Q) :
  (0 < p)%Q -> (p == q)%Q -> round_pos s p = round_pos s q.
Proof.
  intros Hp Hpq. unfold round_pos.
  now rewrite (scaled_comp p q Hp Hpq), (cexp_comp p q Hp Hpq).
Qed.

Lemma cexp_mono (p q : Q) : (0 < p)%Q -> (p <= q)%Q -> cexp p <= cexp q.
Proof. intros Hp Hpq. apply fexp_mono. now apply Qmag_mono. Qed.

(** Division by a power of two, as a product. *)
Lemma div_pow2 (q : Q) (e : Z) : (q / pow2 e == q * pow2 (- e))%Q.
Proof.
  assert (H : (pow2 (- e) == / pow2 e)%Q) by (unfold pow2; apply Qpower_opp).
  rewrite H. reflexivity.
Qed.

Lemma pow2_cancel (e : Z) : (pow2 (- e) * pow2 e == 1)%Q.
Proof. rewrite <- pow2_add. replace (- e + e) with 0 by lia. reflexivity. Qed.

Lemma grid_point (n e E : Z) :
  E <= e -> (inject_Z n * pow2 e / pow2 E == inject_Z (n * 2 ^ (e - E)))%Q.
Proof.
  intros H. rewrite div_pow2, inject_Z_mult, <- pow2_Z by lia.
  rewrite <- Qmult_assoc, <- pow2_add. replace (e + - E) with (e - E) by lia.
  reflexivity.
Qed.

Lemma scale_le (p q : Q) (E : Z) : (p <= q)%Q -> (p / pow2 E <= q / pow2 E)%Q.
Proof.
  intros H. rewrite !div_pow2. apply Qmult_le_compat_r; [exact H|].
  apply Qlt_le_weak, pow2_pos.
Qed.

Lemma unscale (n : Z) (e E : Z) :
  E <= e -> (inject_Z (n * 2 ^ (e - E)) * pow2 E == inject_Z n * pow2 e)%Q.
Proof.
  intros H. rewrite inject_Z_mult, <- pow2_Z by lia.
  rewrite <- Qmult_assoc, <- pow2_add. replace (e - E + E) with e by lia.
  reflexivity.
Qed.

(** A point of the grid of [q] below [q] stays below its rounding. *)
Lemma grid_le (q : Q) (n e : Z) :
  cexp q <= e -> (inject_Z n * pow2 e <= q)%Q -> (inject_Z n * pow2 e <= rnd q)%Q.
Proof.
  intros He Hq. unfold rnd, scaled.
  assert (H : n * 2 ^ (e - cexp q) <= Qrne (q / pow2 (cexp q))).
  { rewrite <- (Qrne_Z (n * 2 ^ (e - cexp q))). apply Qrne_mono.
    rewrite <- (grid_point n e (cexp q) He). now apply scale_le. }
  rewrite <- (unscale n e (cexp q) He).
  apply Qmult_le_compat_r; [now rewrite <- Zle_Qle | apply Qlt_le_weak, pow2_pos].
Qed.

Lemma grid_ge (q : Q) (n e : Z) :
  cexp q <= e -> (q <= inject_Z n * pow2 e)%Q -> (rnd q <= inject_Z n * pow2 e)%Q.
Proof.
  intros He Hq. unfold rnd, scaled.
  assert (H : Qrne (q / pow2 (cexp q)) <= n * 2 ^ (e - cexp q)).
  { rewrite <- (Qrne_Z (n * 2 ^ (e - cexp q))). apply Qrne_mono.
    rewrite <- (grid_point n e (cexp q) He). now apply scale_le. }
  rewrite <- (unscale n e (cexp q) He).
  apply Qmult_le_compat_r; [now rewrite <- Zle_Qle | apply Qlt_le_weak, pow2_pos].
Qed.

Lemma rnd_grid (q : Q) (n e : Z) :
  cexp q <= e -> (q == inject_Z n * pow2 e)%Q -> (rnd q == q)%Q.
Proof.
  intros He Hq. apply Qle_antisym.
  - rewrite Hq at 2. apply grid_ge; [exact He | rewrite Hq; apply Qle_refl].
  - rewrite Hq at 1. apply grid_le; [exact He | rewrite Hq; apply Qle_refl].
Qed.

Lemma rnd_err (q : Q) :
  (- (pow2 (cexp q) / 2) <= rnd q - q <= pow2 (cexp q) / 2)%Q.
Proof.
  unfold rnd, scaled. set (E := cexp q).
  pose proof (Qrne_err (q / pow2 E)) as [H1 H2].
  pose proof (pow2_pos E) as HE.
  assert (Hq : (q == q / pow2 E * pow2 E)%Q) by (field; lra).
  set (r := inject_Z (Qrne (q / pow2 E))) in *.
  set (t := (q / pow2 E)%Q) in *.
  assert (Hd : (r * pow2 E - q == (r - t) * pow2 E)%Q) by (rewrite Hq at 1; ring).
  rewrite Hd.
  assert (Hh : (pow2 E / 2 == (1 # 2) * pow2 E)%Q) by field.
  rewrite Hh. split.
  - assert (Hn : (- ((1 # 2) * pow2 E) == (- (1 # 2)) * pow2 E)%Q) by ring.
    rewrite Hn. apply Qmult_le_compat_r; lra.
  - apply Qmult_le_compat_r; lra.
Qed.

Lemma cexp_cases (q : Q) :
  (cexp q = Qmag q - 53 /\ -1021 <= Qmag q) \/ (cexp q = -1074 /\ Qmag q < -1021).
Proof. unfold cexp. rewrite fexp_eq. lia. Qed.

(** The rounding of [q] lies between the powers of two around [q]. *)
Lemma rnd_ge_pow2 (q : Q) (M : Z) :
  (0 < q)%Q -> cexp q <= M -> (pow2 M <= q)%Q -> (pow2 M <= rnd q)%Q.
Proof.
  intros Hq HM H. pose proof (grid_le q 1 M HM) as G.
  change (inject_Z 1) with 1%Q in G. rewrite Qmult_1_l in G. auto.
Qed.

Lemma rnd_le_pow2 (q : Q) (M : Z) :
  (0 < q)%Q -> cexp q <= M -> (q <= pow2 M)%Q -> (rnd q <= pow2 M)%Q.
Proof.
  intros Hq HM H. pose proof (grid_ge q 1 M HM) as G.
  change (inject_Z 1) with 1%Q in G. rewrite Qmult_1_l in G. auto.
Qed.

Lemma rnd_nonneg (q : Q) : (0 < q)%Q -> (0 <= rnd q)%Q.
Proof.
  intros Hq. pose proof (grid_le q 0 (cexp q) (Z.le_refl _)) as G.
  change (inject_Z 0) with 0%Q in G. rewrite Qmult_0_l in G. apply G. lra.
Qed.

Lemma rnd_mono (p q : Q) : (0 < p)%Q -> (p <= q)%Q -> (rnd p <= rnd q)%Q.
Proof.
  intros Hp Hpq. assert (Hq : (0 < q)%Q) by lra.
  pose proof (cexp_mono p q Hp Hpq) as Hc.
  destruct (Z.eq_dec (cexp p) (cexp q)) as [He|Hne].
  - unfold rnd, scaled. rewrite He. apply Qmult_le_compat_r.
    + rewrite <- Zle_Qle. apply Qrne_mono. now apply scale_le.
    + apply Qlt_le_weak, pow2_pos.
  - assert (Hlt : cexp p < cexp q) by lia.
    pose proof (Qmag_spec p Hp) as [_ Hp2]. pose proof (Qmag_spec q Hq) as [Hq1 _].
    assert (Hm : Qmag p < Qmag q).
    { destruct (Z_lt_ge_dec (Qmag p) (Qmag q)) as [|Hge]; [assumption|].
      pose proof (fexp_mono (Qmag q) (Qmag p) ltac:(lia)). unfold cexp in Hlt. lia. }
    set (M := Z.max (Qmag p) (cexp p)).
    apply Qle_trans with (pow2 M).
    + apply rnd_le_pow2; [exact Hp | unfold M; lia |].
      apply Qle_trans with (pow2 (Qmag p)); [lra | apply pow2_le; unfold M; lia].
    + apply Qle_trans with (pow2 (Qmag q - 1)).
      * apply pow2_le. unfold M.
        destruct (cexp_cases q) as [[Hq' ?]|[Hq' ?]];
          destruct (cexp_cases p) as [[Hp' ?]|[Hp' ?]]; lia.
      * apply rnd_ge_pow2; [exact Hq | | exact Hq1].
        destruct (cexp_cases q) as [[Hq' ?]|[Hq' ?]];
          destruct (cexp_cases p) as [[Hp' ?]|[Hp' ?]]; lia.
Qed.

(** Whole numbers up to 2^53 are numbers of the format. *)
Lemma rnd_Z (n : Z) : 0 < n <= 2 ^ 53 -> (rnd (inject_Z n) == inject_Z n)%Q.
Proof.
  intros [H0 Hn].
  assert (Hq : (0 < inject_Z n)%Q) by zq.
  destruct (Z.eq_dec n (2 ^ 53)) as [->|Hne].
  - apply (rnd_grid _ 1 53); [|rewrite pow2_Z by lia; change (inject_Z 1) with 1%Q; ring].
    assert (Hm : Qmag (inject_Z (2 ^ 53)) = 54).
    { apply Qmag_unique; rewrite pow2_Z by lia; zq. }
    unfold cexp. rewrite Hm, fexp_eq. lia.
  - apply (rnd_grid _ n 0); [|rewrite pow2_0; ring].
    pose proof (Qmag_spec _ Hq) as [H1 _].
    assert (Hm : Qmag (inject_Z n) - 1 < 53).
    { apply pow2_lt_inv. apply Qle_lt_trans with (inject_Z n); [exact H1|].
      rewrite pow2_Z by lia. zq. }
    assert (Hm0 : 0 < Qmag (inject_Z n)).
    { pose proof (Qmag_spec _ Hq) as [_ H2]. apply pow2_lt_inv.
      apply Qle_lt_trans with (inject_Z n); [|exact H2]. rewrite pow2_0. zq. }
    unfold cexp. rewrite fexp_eq. lia.
Qed.

Lemma scaled_bounds (q : Q) : (0 < q)%Q -> 0 <= scaled q <= 2 ^ 53.
Proof.
  intros Hq. unfold scaled. apply Qrne_between.
  pose proof (pow2_pos (cexp q)) as HE. pose proof (Qmag_spec q Hq) as [_ H2].
  split.
  - change (inject_Z 0) with 0%Q. apply Qle_shift_div_l; lra.
  - apply Qle_shift_div_r; [exact HE|]. rewrite <- pow2_Z, <- pow2_add by lia.
    apply Qle_trans with (pow2 (Qmag q)); [lra|]. apply pow2_le.
    unfold cexp. rewrite fexp_eq. lia.
Qed.

Lemma round_pos_finite (s : bool) (q : Q) :
  (0 < q)%Q -> (rnd q < pow2 1024)%Q ->
  is_finite (round_pos s q) = true
  /\ (value (round_pos s q) == if s then - rnd q else rnd q)%Q.
Proof.
  intros Hq Hr. pose proof (scaled_bounds q Hq) as [Hs0 Hs1].
  unfold round_pos. unfold rnd in *.
  destruct (scaled q) as [|n|n] eqn:Hn; [| |lia].
  - cbn [is_finite value]. split; [reflexivity|]. destruct s; ring.
  - change prec with 53. change (emax - 53) with 971.
    destruct (Z.ltb_spec (Zpos n) (2 ^ 53)) as [Hlt|Hge].
    + destruct (Z.leb_spec (cexp q) 971) as [He|He].
      * cbn [is_finite value]. split; [reflexivity|].
        destruct s; cbn [cond_Zopp]; [|reflexivity].
        change (- Z.pos n) with (Z.opp (Z.pos n)). rewrite inject_Z_opp. ring.
      * exfalso. destruct (cexp_cases q) as [[Hc Hm]|[Hc Hm]]; [|lia].
        pose proof (Qmag_spec q Hq) as [H1 _].
        assert (G : (pow2 (Qmag q - 1) <= rnd q)%Q)
          by (apply rnd_ge_pow2; [exact Hq | lia | exact H1]).
        unfold rnd in G. rewrite Hn in G.
        assert (pow2 1024 <= pow2 (Qmag q - 1))%Q by (apply pow2_le; lia). lra.
    + assert (Hn53 : Zpos n = 2 ^ 53) by lia.
      assert (Hd : Pos.div2 n = (2 ^ 52)%positive) by (injection Hn53 as ->; reflexivity).
      destruct (Z.leb_spec (cexp q + 1) 971) as [He|He].
      * cbn [is_finite value]. split; [reflexivity|]. rewrite Hd, Hn53, pow2_succ.
        destruct s; cbn [cond_Zopp].
        -- change (inject_Z (- Z.pos (2 ^ 52))) with (- inject_Z (2 ^ 52))%Q.
           change (inject_Z (2 ^ 53)) with (2 * inject_Z (2 ^ 52))%Q. ring.
        -- change (inject_Z (Z.pos (2 ^ 52))) with (inject_Z (2 ^ 52)).
           change (inject_Z (2 ^ 53)) with (2 * inject_Z (2 ^ 52))%Q. ring.
      * exfalso. rewrite Hn53 in Hr.
        assert (H : (pow2 1024 <= inject_Z (2 ^ 53) * pow2 (cexp q))%Q).
        { rewrite <- pow2_Z, <- pow2_add by lia. apply pow2_le. lia. }
        lra.
Qed.

Lemma round_pos_infinite (s : bool) (q : Q) :
  (0 < q)%Q -> (pow2 1024 <= rnd q)%Q -> round_pos s q = S754_infinity s.
Proof.
  intros Hq Hr. pose proof (scaled_bounds q Hq) as [Hs0 Hs1].
  unfold round_pos. unfold rnd in *.
  pose proof (pow2_pos 1024) as H1024. pose proof (pow2_pos (cexp q)) as HE.
  destruct (scaled q) as [|n|n] eqn:Hn; [| |lia].
  - exfalso. change (inject_Z 0) with 0%Q in Hr. lra.
  - change prec with 53. change (emax - 53) with 971.
    assert (Hb : (inject_Z (Zpos n) * pow2 (cexp q) <= pow2 (53 + cexp q))%Q).
    { rewrite pow2_add, (pow2_Z 53) by lia. apply Qmult_le_compat_r; [zq | lra]. }
    assert (Hc : 971 <= cexp q) by (apply Z.lt_succ_r, Z.add_lt_mono_l with 53, pow2_lt_inv;
      replace (53 + Z.succ (cexp q)) with (53 + cexp q + 1) by lia;
      rewrite pow2_succ; pose proof (pow2_pos (53 + cexp q));
      apply Qle_lt_trans with (pow2 (53 + cexp q)); [|lra]; 
      replace (53 + 971) with 1024 by lia; lra).
    destruct (Z.ltb_spec (Zpos n) (2 ^ 53)) as [Hlt|Hge].
    + destruct (Z.leb_spec (cexp q) 971) as [He|He]; [|reflexivity].
      exfalso. assert (cexp q = 971) as Hq971 by lia. rewrite Hq971 in *.
      assert (H : (inject_Z (Zpos n) * pow2 971 < inject_Z (2 ^ 53) * pow2 971)%Q).
      { apply Qmult_lt_compat_r; [apply pow2_pos | zq]. }
      rewrite <- (pow2_Z 53), <- pow2_add in H by lia. change (53 + 971) with 1024 in H. lra.
    + destruct (Z.leb_spec (cexp q + 1) 971) as [He|He]; [lia | reflexivity].
Qed.

Lemma round_pos_kind (s : bool) (q : Q) :
  (0 < q)%Q ->
  (is_finite (round_pos s q) = true
   /\ (value (round_pos s q) == if s then - rnd q else rnd q)%Q
   /\ (rnd q < pow2 1024)%Q)
  \/ (round_pos s q = S754_infinity s /\ (pow2 1024 <= rnd q)%Q).
Proof.
  intros Hq. destruct (Qlt_le_dec (rnd q) (pow2 1024)) as [H|H].
  - left. destruct (round_pos_finite s q Hq H) as (A & B). auto.
  - right. split; [now apply round_pos_infinite | exact H].
Qed.

Lemma Qcompare_0_cases (q : Q) :
  (Qcompare q 0 = Eq /\ (q == 0)%Q) \/ (Qcompare q 0 = Lt /\ (q < 0)%Q)
  \/ (Qcompare q 0 = Gt /\ (0 < q)%Q).
Proof. destruct (Qcompare_spec q 0); auto. Qed.

Lemma sround_comp (p q : Q) : (p == q)%Q -> (sround p == sround q)%Q.
Proof.
  intros Hpq. unfold sround. rewrite (Qcompare_comp p q Hpq 0%Q 0%Q (Qeq_refl 0%Q)).
  destruct (Qcompare_0_cases q) as [[-> H]|[[-> H]|[-> H]]].
  - reflexivity.
  - apply Qopp_comp. apply rnd_comp; [lra | now rewrite Hpq].
  - apply rnd_comp; [lra | exact Hpq].
Qed.

Lemma round_comp (p q : Q) : (p == q)%Q -> round p = round q.
Proof.
  intros Hpq. unfold round. rewrite (Qcompare_comp p q Hpq 0%Q 0%Q (Qeq_refl 0%Q)).
  destruct (Qcompare_0_cases q) as [[-> H]|[[-> H]|[-> H]]].
  - reflexivity.
  - apply round_pos_comp; [lra | now rewrite Hpq].
  - apply round_pos_comp; [lra | exact Hpq].
Qed.

Lemma sround_nonneg (q : Q) : (0 <= q)%Q -> (0 <= sround q)%Q.
Proof.
  intros H. unfold sround.
  destruct (Qcompare_0_cases q) as [[-> Hq]|[[-> Hq]|[-> Hq]]]; [lra | lra |].
  now apply rnd_nonneg.
Qed.

Lemma sround_nonpos (q : Q) : (q <= 0)%Q -> (sround q <= 0)%Q.
Proof.
  intros H. unfold sround.
  destruct (Qcompare_0_cases q) as [[-> Hq]|[[-> Hq]|[-> Hq]]]; [lra | | lra].
  pose proof (rnd_nonneg (- q) ltac:(lra)). lra.
Qed.

Lemma sround_mono (p q : Q) : (p <= q)%Q -> (sround p <= sround q)%Q.
Proof.
  intros Hpq. destruct (Qlt_le_dec 0 p) as [Hp|Hp].
  - unfold sround.
    destruct (Qcompare_0_cases p) as [[-> Hp']|[[-> Hp']|[-> Hp']]]; try lra.
    destruct (Qcompare_0_cases q) as [[-> Hq']|[[-> Hq']|[-> Hq']]]; try lra.
    now apply rnd_mono.
  - destruct (Qlt_le_dec q 0) as [Hq|Hq].
    + unfold sround.
      destruct (Qcompare_0_cases p) as [[-> Hp']|[[-> Hp']|[-> Hp']]]; try lra.
      destruct (Qcompare_0_cases q) as [[-> Hq']|[[-> Hq']|[-> Hq']]]; try lra.
      pose proof (rnd_mono (- q) (- p) ltac:(lra) ltac:(lra)). lra.
    + pose proof (sround_nonpos p Hp). pose proof (sround_nonneg q Hq). lra.
Qed.

Lemma sround_Z (n : Z) : Z.abs n <= 2 ^ 53 -> (sround (inject_Z n) == inject_Z n)%Q.
Proof.
  intros Hn. unfold sround.
  destruct (Qcompare_0_cases (inject_Z n)) as [[-> H]|[[-> H]|[-> H]]].
  - lra.
  - assert (Hneg : n < 0) by (rewrite Zlt_Qlt; exact H).
    rewrite <- inject_Z_opp, rnd_Z by lia. rewrite inject_Z_opp. ring.
  - assert (Hpos : 0 < n) by (rewrite Zlt_Qlt; exact H).
    apply rnd_Z. lia.
Qed.

Lemma round_kind (q : Q) :
  (is_finite (round q) = true /\ (value (round q) == sround q)%Q
   /\ (- pow2 1024 < sround q)%Q /\ (sround q < pow2 1024)%Q)
  \/ (round q = S754_infinity false /\ (pow2 1024 <= sround q)%Q)
  \/ (round q = S754_infinity true /\ (sround q <= - pow2 1024)%Q).
Proof.
  unfold round, sround. pose proof (pow2_pos 1024) as Hbig.
  destruct (Qcompare_0_cases q) as [[-> H]|[[-> H]|[-> H]]].
  - left. cbn [is_finite value]. repeat split; lra.
  - assert (Hq : (0 < - q)%Q) by lra. pose proof (rnd_nonneg _ Hq).
    destruct (round_pos_kind true (- q) Hq) as [(A & B & C)|(A & B)].
    + left. repeat split; [exact A | exact B | lra | lra].
    + right. right. split; [exact A | lra].
  - pose proof (rnd_nonneg _ H).
    destruct (round_pos_kind false q H) as [(A & B & C)|(A & B)].
    + left. repeat split; [exact A | exact B | lra | lra].
    + right. left. split; [exact A | lra].
Qed.

Lemma round_not_nan (q : Q) : is_nan (round q) = false.
Proof.
  destruct (round_kind q) as [(A & _)|[(-> & _)|(-> & _)]]; try reflexivity.
  now destruct (round q).
Qed.

Lemma ext_finite (x : spec_float) : is_finite x = true -> ext x = Some (Fin (value x)).
Proof. now destruct x. Qed.

Lemma leb_finite (x y : spec_float) :
  is_finite x = true -> is_finite y = true -> leb x y = Qle_bool (value x) (value y).
Proof. intros Hx Hy. unfold leb. now rewrite (ext_finite x Hx), (ext_finite y Hy). Qed.

Lemma Qle_bool_true (p q : Q) : (p <= q)%Q -> Qle_bool p q = true.
Proof. apply Qle_bool_iff. Qed.

Lemma round_mono (p q : Q) : (p <= q)%Q -> leb (round p) (round q) = true.
Proof.
  intros Hpq. pose proof (sround_mono p q Hpq) as Hs.
  pose proof (pow2_pos 1024) as Hbig.
  destruct (round_kind p) as [(Ap & Bp & Cp & Dp)|[(Ap & Bp)|(Ap & Bp)]];
    destruct (round_kind q) as [(Aq & Bq & Cq & Dq)|[(Aq & Bq)|(Aq & Bq)]];
    try (exfalso; lra).
  - rewrite leb_finite by assumption. apply Qle_bool_true. lra.
  - rewrite Aq. unfold leb. rewrite (ext_finite _ Ap). reflexivity.
  - rewrite Ap, Aq. reflexivity.
  - rewrite Ap. unfold leb. cbn [ext]. rewrite (ext_finite _ Aq). reflexivity.
  - rewrite Ap, Aq. reflexivity.
  - rewrite Ap, Aq. reflexivity.
Qed.

Lemma round_exact (q : Q) (n : Z) :
  Z.abs n <= 2 ^ 53 -> (q == inject_Z n)%Q ->
  is_finite (round q) = true /\ (value (round q) == q)%Q.
Proof.
  intros Hn Hq. pose proof (sround_Z n Hn) as Hs.
  rewrite (round_comp q _ Hq). rewrite Hq.
  assert (Hb : (inject_Z n <= inject_Z (2 ^ 53))%Q /\ (inject_Z (- 2 ^ 53) <= inject_Z n)%Q)
    by (split; rewrite <- Zle_Qle; lia).
  assert (H53 : (inject_Z (2 ^ 53) < pow2 1024)%Q)
    by (rewrite <- pow2_Z by lia; apply pow2_lt; lia).
  rewrite inject_Z_opp in Hb.
  destruct (round_kind (inject_Z n)) as [(A & B & C & D)|[(A & B)|(A & B)]].
  - split; [exact A | lra].
  - exfalso. lra.
  - exfalso. lra.
Qed.

Lemma of_Z_exact (n : Z) :
  Z.abs n <= 2 ^ 53 ->
  is_finite (of_Z n) = true /\ (value (of_Z n) == inject_Z n)%Q.
Proof. intros Hn. apply (round_exact _ n Hn). reflexivity. Qed.

(** ** Numbers of the format *)

Lemma digits2_pos_size (m : positive) : digits2_pos m = Pos.size m.
Proof. induction m; cbn; congruence. Qed.

Lemma digits2_bounds (m : positive) :
  2 ^ (Zpos (digits2_pos m) - 1) <= Zpos m < 2 ^ Zpos (digits2_pos m).
Proof.
  rewrite digits2_pos_size. split.
  - induction m as [m IH|m IH|].
    + cbn [Pos.size]. rewrite Pos2Z.inj_succ.
      replace (Z.succ (Zpos (Pos.size m)) - 1) with (Zpos (Pos.size m) - 1 + 1) by lia.
      rewrite Z.pow_add_r by lia. lia.
    + cbn [Pos.size]. rewrite Pos2Z.inj_succ.
      replace (Z.succ (Zpos (Pos.size m)) - 1) with (Zpos (Pos.size m) - 1 + 1) by lia.
      rewrite Z.pow_add_r by lia. lia.
    + reflexivity.
  - induction m as [m IH|m IH|].
    + cbn [Pos.size]. rewrite Pos2Z.inj_succ, Z.pow_succ_r by lia. lia.
    + cbn [Pos.size]. rewrite Pos2Z.inj_succ, Z.pow_succ_r by lia. lia.
    + reflexivity.
Qed.

Lemma valid_finite (s : bool) (m : positive) (e : Z) :
  valid (S754_finite s m e) -> Zpos m < 2 ^ 53 /\ -1074 <= e <= 971
  /\ (0 < e -> 2 ^ 52 <= Zpos m).
Proof.
  unfold valid, valid_binary, bounded, canonical_mantissa.
  intros H. apply andb_true_iff in H as [Hc He].
  apply Z.eqb_eq in Hc. apply Z.leb_le in He.
  change (emax - prec) with 971 in He.
  change (SpecFloat.fexp prec emax) with fexp in Hc. rewrite fexp_eq in Hc.
  pose proof (digits2_bounds m) as [Hd1 Hd2].
  set (d := Zpos (digits2_pos m)) in *.
  assert (Hd : d <= 53) by lia.
  assert (Hp : 2 ^ d <= 2 ^ 53) by (apply Z.pow_le_mono_r; lia).
  repeat split; try lia.
  intros Hpos. assert (d = 53) as Hd53 by lia. rewrite Hd53 in Hd1. exact Hd1.
Qed.

Lemma mul_exact (x y : spec_float) (n : Z) :
  is_finite x = true -> is_finite y = true ->
  (value x * value y == inject_Z n)%Q -> Z.abs n <= 2 ^ 53 ->
  is_finite (mul x y) = true /\ (value (mul x y) == inject_Z n)%Q.
Proof.
  intros Hx Hy Hv Hn.
  destruct x as [sx|sx| |sx mx ex]; try discriminate Hx;
    destruct y as [sy|sy| |sy my ey]; try discriminate Hy.
  - cbn in *. split; [reflexivity | lra].
  - cbn [mul SFmul is_finite value] in *. split; [reflexivity | lra].
  - cbn [mul SFmul is_finite value] in *. split; [reflexivity | lra].
  - cbn [mul]. destruct (round_exact _ n Hn Hv) as [A B]. split; [exact A | lra].
Qed.

Lemma add_exact (x y : spec_float) (n : Z) :
  is_finite x = true -> is_finite y = true ->
  (value x + value y == inject_Z n)%Q -> Z.abs n <= 2 ^ 53 ->
  is_finite (add x y) = true /\ (value (add x y) == inject_Z n)%Q.
Proof.
  intros Hx Hy Hv Hn.
  destruct x as [sx|sx| |sx mx ex]; try discriminate Hx;
    destruct y as [sy|sy| |sy my ey]; try discriminate Hy.
  - destruct sx, sy; cbn in *; (split; [reflexivity | lra]).
  - cbn [add SFadd is_finite]. split; [reflexivity|]. cbn [value] in Hv |- *. lra.
  - cbn [add SFadd is_finite]. split; [reflexivity|]. cbn [value] in Hv |- *. lra.
  - cbn [add]. destruct (round_exact _ n Hn Hv) as [A B]. split; [exact A | lra].
Qed.

Lemma value_opp (s : bool) (m : positive) (e : Z) :
  (value (S754_finite (negb s) m e) == - value (S754_finite s m e))%Q.
Proof.
  cbn [value]. destruct s; cbn [negb cond_Zopp].
  - change (- Z.pos m) with (Z.opp (Z.pos m)). rewrite inject_Z_opp. ring.
  - change (- Z.pos m) with (Z.opp (Z.pos m)). rewrite inject_Z_opp. ring.
Qed.

Lemma sub_exact (x y : spec_float) (n : Z) :
  is_finite x = true -> is_finite y = true ->
  (value x - value y == inject_Z n)%Q -> Z.abs n <= 2 ^ 53 ->
  is_finite (sub x y) = true /\ (value (sub x y) == inject_Z n)%Q.
Proof.
  intros Hx Hy Hv Hn.
  destruct x as [sx|sx| |sx mx ex]; try discriminate Hx;
    destruct y as [sy|sy| |sy my ey]; try discriminate Hy.
  - destruct sx, sy; cbn in *; (split; [reflexivity | lra]).
  - cbn [sub SFsub is_finite]. split; [reflexivity|].
    rewrite value_opp. cbn [value] in Hv |- *. lra.
  - cbn [sub SFsub is_finite]. split; [reflexivity|]. cbn [value] in Hv |- *. lra.
  - cbn [sub]. destruct (round_exact _ n Hn Hv) as [A B]. split; [exact A | lra].
Qed.

Lemma floor_exact (x : spec_float) :
  is_finite x = true -> Z.abs (Qfloor (value x)) <= 2 ^ 53 ->
  is_finite (floor x) = true /\ (value (floor x) == inject_Z (Qfloor (value x)))%Q.
Proof.
  intros Hx Hn. destruct x as [sx|sx| |sx mx ex]; try discriminate Hx.
  - cbn. split; reflexivity.
  - cbn [floor]. now apply of_Z_exact.
Qed.

Lemma digits2_unique (m : positive) (d : Z) :
  2 ^ (d - 1) <= Zpos m < 2 ^ d -> Zpos (digits2_pos m) = d.
Proof.
  intros [H1 H2]. pose proof (digits2_bounds m) as [H3 H4].
  set (d' := Zpos (digits2_pos m)) in *.
  assert (Hd' : 0 < d') by (unfold d'; lia).
  assert (Hd : 0 < d).
  { destruct (Z_lt_ge_dec 0 d) as [|Hge]; [assumption|]. exfalso.
    destruct (Z.eq_dec d 0) as [->|Hne]; [cbn in H2; lia|].
    rewrite Z.pow_neg_r in H2 by lia. lia. }
  assert (d - 1 < d') by (apply (Z.pow_lt_mono_r_iff 2); lia).
  assert (d' - 1 < d) by (apply (Z.pow_lt_mono_r_iff 2); lia).
  lia.
Qed.

Lemma scaled_normal (q : Q) :
  (0 < q)%Q -> cexp q = Qmag q - 53 -> 2 ^ 52 <= scaled q.
Proof.
  intros Hq Hc. unfold scaled. rewrite <- (Qrne_Z (2 ^ 52)). apply Qrne_mono.
  pose proof (Qmag_spec q Hq) as [H1 _]. pose proof (pow2_pos (cexp q)) as HE.
  apply Qle_shift_div_l; [exact HE|]. rewrite <- pow2_Z, <- pow2_add by lia.
  apply Qle_trans with (pow2 (Qmag q - 1)); [apply pow2_le; lia | exact H1].
Qed.

Lemma round_pos_valid (s : bool) (q : Q) : (0 < q)%Q -> valid (round_pos s q).
Proof.
  intros Hq. pose proof (scaled_bounds q Hq) as [Hs0 Hs1].
  unfold round_pos.
  destruct (scaled q) as [|n|n] eqn:Hn; [reflexivity| |lia].
  change prec with 53. change (emax - 53) with 971.
  destruct (Z.ltb_spec (Zpos n) (2 ^ 53)) as [Hlt|Hge].
  - destruct (Z.leb_spec (cexp q) 971) as [He|He]; [|reflexivity].
    unfold valid, valid_binary, bounded, canonical_mantissa.
    apply andb_true_iff. split; [|apply Z.leb_le; exact He].
    apply Z.eqb_eq. change (SpecFloat.fexp prec emax) with fexp. rewrite fexp_eq.
    pose proof (digits2_bounds n) as [Hd1 Hd2].
    set (d := Zpos (digits2_pos n)) in *.
    assert (Hd : d <= 53).
    { assert (d - 1 < 53); [|lia]. apply (Z.pow_lt_mono_r_iff 2); lia. }
    destruct (cexp_cases q) as [[Hc Hm]|[Hc Hm]].
    + pose proof (scaled_normal q Hq Hc) as H52. rewrite Hn in H52.
      assert (52 < d) by (apply (Z.pow_lt_mono_r_iff 2); [lia | unfold d; lia | lia]).
      lia.
    + lia.
  - assert (Hn53 : Zpos n = 2 ^ 53) by lia.
    assert (Hd : Pos.div2 n = (2 ^ 52)%positive) by (injection Hn53 as ->; reflexivity).
    destruct (Z.leb_spec (cexp q + 1) 971) as [He|He]; [|reflexivity].
    unfold valid, valid_binary, bounded, canonical_mantissa.
    apply andb_true_iff. split; [|apply Z.leb_le; exact He].
    apply Z.eqb_eq. change (SpecFloat.fexp prec emax) with fexp. rewrite fexp_eq, Hd.
    change (Zpos (digits2_pos (2 ^ 52))) with 53.
    destruct (cexp_cases q) as [[Hc Hm]|[Hc Hm]]; lia.
Qed.

Lemma round_valid (q : Q) : valid (round q).
Proof.
  unfold round.
  destruct (Qcompare_0_cases q) as [[-> H]|[[-> H]|[-> H]]].
  - reflexivity.
  - apply round_pos_valid. lra.
  - now apply round_pos_valid.
Qed.

(** The rounding of a whole number is a whole number. *)
Lemma rnd_whole (n : Z) : 0 < n -> exists z : Z, (rnd (inject_Z n) == inject_Z z)%Q /\ 0 <= z.
Proof.
  intros Hn. assert (Hq : (0 < inject_Z n)%Q) by zq.
  pose proof (scaled_bounds _ Hq) as [Hs0 _].
  destruct (Z_le_gt_dec 0 (cexp (inject_Z n))) as [Hc|Hc].
  - exists (scaled (inject_Z n) * 2 ^ cexp (inject_Z n)). split.
    + unfold rnd. rewrite inject_Z_mult, <- pow2_Z by lia. reflexivity.
    + apply Z.mul_nonneg_nonneg; [lia | apply Z.pow_nonneg; lia].
  - exists n. split; [|lia]. apply rnd_Z. split; [lia|].
    pose proof (Qmag_spec _ Hq) as [H1 _].
    assert (Hm : Qmag (inject_Z n) - 1 < 53).
    { destruct (cexp_cases (inject_Z n)) as [[Hc' ?]|[Hc' ?]]; lia. }
    assert (H : (inject_Z n < inject_Z (2 ^ 53))%Q).
    { rewrite <- pow2_Z by lia. pose proof (Qmag_spec _ Hq) as [_ H2].
      apply Qlt_le_trans with (pow2 (Qmag (inject_Z n))); [exact H2 | apply pow2_le; lia]. }
    rewrite <- Zlt_Qlt in H. lia.
Qed.

Lemma to_Z_whole (x : spec_float) (n : Z) :
  is_finite x = true -> (value x == inject_Z n)%Q -> to_Z x = Some n.
Proof.
  intros Hf Hv. unfold to_Z. rewrite Hf.
  assert (Hfl : Qfloor (value x) = n) by (rewrite (Qfloor_comp _ _ Hv); apply Qfloor_Z).
  cbv zeta. rewrite Hfl.
  assert (Hb : Qeq_bool (value x) (inject_Z n) = true) by (now apply Qeq_bool_iff).
  now rewrite Hb.
Qed.

Lemma to_Z_spec (x : spec_float) (n : Z) :
  to_Z x = Some n -> is_finite x = true /\ (value x == inject_Z n)%Q.
Proof.
  unfold to_Z. destruct (is_finite x); [|discriminate]. cbv zeta.
  destruct (Qeq_bool (value x) (inject_Z (Qfloor (value x)))) eqn:Hb; [|discriminate].
  intros [= <-]. split; [reflexivity | now apply Qeq_bool_iff].
Qed.

(** A whole number below 2^1024, rounded, is a finite whole number. *)
Lemma round_whole (M : Z) (q : Q) (n : Z) :
  M < 1024 -> (q == inject_Z n)%Q -> 0 <= n -> (inject_Z n <= pow2 M)%Q ->
  exists z : Z, is_finite (round q) = true /\ (value (round q) == inject_Z z)%Q
                /\ 0 <= z /\ (inject_Z z <= pow2 M)%Q.
Proof.
  intros HM Hq Hn Hb. rewrite (round_comp _ _ Hq).
  destruct (Z.eq_dec n 0) as [->|Hne].
  - exists 0. cbn [round]. repeat split; try reflexivity; try lia.
    apply Qlt_le_weak, pow2_pos.
  - assert (Hpos : (0 < inject_Z n)%Q) by zq.
    assert (Hs : sround (inject_Z n) = rnd (inject_Z n)).
    { unfold sround.
      destruct (Qcompare_0_cases (inject_Z n)) as [[-> H]|[[-> H]|[-> H]]];
        try reflexivity; exfalso; lra. }
    assert (Hr : (rnd (inject_Z n) <= pow2 M)%Q).
    { apply rnd_le_pow2; [exact Hpos | | exact Hb].
      pose proof (Qmag_spec _ Hpos) as [H1 _].
      assert (Qmag (inject_Z n) - 1 <= M).
      { destruct (Z_le_gt_dec (Qmag (inject_Z n) - 1) M) as [|Hgt]; [assumption|].
        exfalso. assert (pow2 M < pow2 (Qmag (inject_Z n) - 1))%Q by (apply pow2_lt; lia).
        lra. }
      assert (0 < Qmag (inject_Z n)).
      { pose proof (Qmag_spec _ Hpos) as [_ H2]. apply pow2_lt_inv.
        apply Qle_lt_trans with (inject_Z n); [|exact H2]. rewrite pow2_0. zq. }
      destruct (cexp_cases (inject_Z n)) as [[Hc ?]|[Hc ?]]; lia. }
    assert (Hlt : (pow2 M < pow2 1024)%Q) by (apply pow2_lt; lia).
    pose proof (pow2_pos 1024) as Hp.
    destruct (rnd_whole n ltac:(lia)) as (z & Hz & Hz0).
    destruct (round_kind (inject_Z n)) as [(A & B & C & D)|[(A & B)|(A & B)]];
      rewrite Hs in *.
    + exists z. repeat split; [exact A | lra | exact Hz0 | lra].
    + exfalso. lra.
    + exfalso. pose proof (rnd_nonneg _ Hpos). lra.
Qed.

(** *** Monotone operations *)

Lemma round_nonneg (q : Q) (s : bool) :
  (0 <= q)%Q -> leb (S754_zero s) (round q) = true.
Proof.
  intros Hq. pose proof (sround_nonneg q Hq) as Hs. pose proof (pow2_pos 1024).
  destruct (round_kind q) as [(A & B & C & D)|[(A & B)|(A & B)]].
  - rewrite leb_finite by (assumption || reflexivity). apply Qle_bool_true.
    cbn [value]. lra.
  - rewrite A. reflexivity.
  - exfalso. lra.
Qed.

Lemma round_nonpos (q : Q) (s : bool) :
  (q <= 0)%Q -> leb (round q) (S754_zero s) = true.
Proof.
  intros Hq. pose proof (sround_nonpos q Hq) as Hs. pose proof (pow2_pos 1024).
  destruct (round_kind q) as [(A & B & C & D)|[(A & B)|(A & B)]].
  - rewrite leb_finite by (assumption || reflexivity). apply Qle_bool_true.
    cbn [value]. lra.
  - exfalso. lra.
  - rewrite A. reflexivity.
Qed.

Lemma leb_neg_inf (x : spec_float) : is_nan x = false -> leb (S754_infinity true) x = true.
Proof. destruct x as [s|s| |s m e]; try reflexivity. discriminate. Qed.

Lemma leb_pos_inf (x : spec_float) : is_nan x = false -> leb x (S754_infinity false) = true.
Proof. destruct x as [s|[]| |s m e]; try reflexivity. discriminate. Qed.

Section Stage.

Variable g : spec_float -> spec_float.
Variable phi : Q -> Q.
Hypothesis phi_mono : forall p q : Q, (p <= q)%Q -> (phi p <= phi q)%Q.
Hypothesis phi_0 : (phi 0 == 0)%Q.
Hypothesis g_finite : forall s m e,
  g (S754_finite s m e) = round (phi (value (S754_finite s m e))).
Hypothesis g_zero : forall s, g (S754_zero s) = S754_zero s.
Hypothesis g_infinity : forall s, g (S754_infinity s) = S754_infinity s.

Lemma stage_not_nan (x : spec_float) : is_nan x = false -> is_nan (g x) = false.
Proof.
  destruct x as [s|s| |s m e]; intros H; try discriminate H.
  - now rewrite g_zero.
  - now rewrite g_infinity.
  - rewrite g_finite. apply round_not_nan.
Qed.

Lemma stage_mono (x y : spec_float) : leb x y = true -> leb (g x) (g y) = true.
Proof.
  intros H.
  destruct x as [sx|sx| |sx mx ex]; try discriminate H;
    destruct y as [sy|sy| |sy my ey]; try discriminate H.
  - rewrite !g_zero. reflexivity.
  - destruct sy; [discriminate H|]. rewrite g_infinity. apply leb_pos_inf.
    now apply stage_not_nan.
  - rewrite g_zero, g_finite. apply round_nonneg.
    unfold leb in H. cbn [ext Ext_leb] in H. apply Qle_bool_iff in H.
    change (value (S754_zero sx)) with 0%Q in H.
    rewrite <- phi_0. now apply phi_mono.
  - destruct sx; [|discriminate H]. rewrite (g_infinity true). apply leb_neg_inf.
    now apply stage_not_nan.
  - destruct sx, sy; try discriminate H; rewrite !g_infinity; reflexivity.
  - destruct sx; [|discriminate H]. rewrite (g_infinity true). apply leb_neg_inf.
    now apply stage_not_nan.
  - rewrite g_zero, g_finite. apply round_nonpos.
    unfold leb in H. cbn [ext Ext_leb] in H. apply Qle_bool_iff in H.
    change (value (S754_zero sy)) with 0%Q in H.
    rewrite <- phi_0. now apply phi_mono.
  - destruct sy; [discriminate H|]. rewrite g_infinity. apply leb_pos_inf.
    now apply stage_not_nan.
  - rewrite !g_finite. apply round_mono. apply phi_mono.
    unfold leb in H. cbn [ext Ext_leb] in H. now apply Qle_bool_iff in H.
Qed.

End Stage.

(** *** Sums of whole numbers *)

Lemma Zsum_abs_nonneg (zs : list Z) : 0 <= Zsum_abs zs.
Proof.
  induction zs as [|z zs IH]; [reflexivity|].
  change (Zsum_abs (z :: zs)) with (Z.abs z + Zsum_abs zs). lia.
Qed.

Lemma Zsum_abs_bound (zs : list Z) : Z.abs (Zsum zs) <= Zsum_abs zs.
Proof.
  induction zs as [|z zs IH]; [reflexivity|].
  change (Zsum_abs (z :: zs)) with (Z.abs z + Zsum_abs zs).
  change (Zsum (z :: zs)) with (z + Zsum zs). lia.
Qed.

Lemma fold_add_exact (xs : list spec_float) (zs : list Z) :
  Forall2 whole_as xs zs ->
  forall (acc : spec_float) (a : Z),
    whole_as acc a -> Z.abs a + Zsum_abs zs <= 2 ^ 53 ->
    whole_as (fold_left add xs acc) (a + Zsum zs).
Proof.
  induction 1 as [|x z xs zs [Hx Hz] _ IH]; intros acc a [Ha Hv] Hb.
  - cbn. replace (a + 0) with a by lia. now split.
  - change (Zsum_abs (z :: zs)) with (Z.abs z + Zsum_abs zs) in Hb.
    change (Zsum (z :: zs)) with (z + Zsum zs). cbn [fold_left].
    pose proof (Zsum_abs_nonneg zs).
    replace (a + (z + Zsum zs)) with (a + z + Zsum zs) by lia.
    apply IH; [|lia].
    apply add_exact; [exact Ha | exact Hx | | lia].
    rewrite Hv, Hz, inject_Z_plus. reflexivity.
Qed.

Lemma or_zero_of_Z (z : option Z) :
  Z.abs (default 0 z) <= 2 ^ 53 -> whole_as (or_zero (of_Z <$> z)) (default 0 z).
Proof.
  destruct z as [z|]; cbn [default fmap option_fmap option_map or_zero]; intros Hz.
  - destruct (of_Z_exact z Hz) as [Hf Hv].
    destruct (of_Z z) as [s|s| |s m e]; try discriminate Hf; cbn [truthy].
    + split; [reflexivity|]. cbn [value] in *. exact Hv.
    + split; [reflexivity | exact Hv].
  - split; reflexivity.
Qed.

(** *** The three steps of [calculatePoints] *)

Lemma of_Z_100 : of_Z 100 = S754_finite false 7036874417766400 (-46).
Proof. vm_compute. reflexivity. Qed.

Lemma of_Z_5 : of_Z 5 = S754_finite false 5629499534213120 (-50).
Proof. vm_compute. reflexivity. Qed.

Lemma value_100 : (value (of_Z 100) == 100)%Q.
Proof. vm_compute. reflexivity. Qed.

Lemma value_5 : (value (of_Z 5) == 5)%Q.
Proof. vm_compute. reflexivity. Qed.

(** The quotient by 100 of a number below 2^53 is never rounded up to
    the next whole number. *)
Lemma quotient_rounding (m : positive) (e : Z) :
  Zpos m < 2 ^ 53 -> -1074 <= e <= 0 ->
  let X := (inject_Z (Zpos m) * pow2 e)%Q in
  let k := Qfloor (X / 100) in
  (inject_Z k <= rnd (X / 100))%Q /\ (rnd (X / 100) < inject_Z k + 1)%Q
  /\ 0 <= k /\ 100 * k < 2 ^ 53.
Proof.
  intros Hm He X k.
  assert (HX : (0 < X)%Q) by (apply Qmult_lt_0_compat; [zq | apply pow2_pos]).
  assert (HX53 : (X < inject_Z (2 ^ 53))%Q).
  { unfold X. apply Qle_lt_trans with (inject_Z (Zpos m) * 1)%Q.
    - apply Qmult_le_l; [zq|]. rewrite <- pow2_0. apply pow2_le. lia.
    - rewrite Qmult_1_r. zq. }
  set (t := (X / 100)%Q) in *.
  assert (Ht : (0 < t)%Q) by (unfold t; apply Qlt_shift_div_l; lra).
  pose proof (Qfloor_bounds t) as [Hk1 Hk2]. fold k in Hk1, Hk2.
  assert (Hk0 : 0 <= k).
  { assert (-1 < k); [|lia]. rewrite Zlt_Qlt.
    change (inject_Z (-1)) with (-1)%Q. lra. }
  assert (HtX : (X == 100 * t)%Q) by (unfold t; field).
  assert (Hk53 : 100 * k < 2 ^ 53).
  { rewrite Zlt_Qlt, inject_Z_mult. change (inject_Z 100) with 100%Q. lra. }
  split; [|split; [|split; assumption]].
  - destruct (Z.eq_dec k 0) as [->|Hne].
    + now apply rnd_nonneg.
    + rewrite <- (rnd_Z k) by lia. apply rnd_mono; [zq | exact Hk1].
  - destruct (cexp_cases t) as [[Hc Hmag]|[Hc Hmag]].
    + (* the quotient is a normal number *)
      pose proof (rnd_err t) as [_ Herr]. rewrite Hc in Herr.
      pose proof (Qmag_spec t Ht) as [Ht1 Ht2].
      (* the distance from X to the next multiple of 100 *)
      set (z := 100 * (k + 1) * 2 ^ (- e) + - Zpos m).
      assert (Hz : (inject_Z z * pow2 e == 100 * (inject_Z k + 1) - X)%Q).
      { unfold z, X. rewrite inject_Z_plus, inject_Z_opp, !inject_Z_mult, inject_Z_plus.
        rewrite <- (pow2_Z (- e)) by lia.
        change (inject_Z 100) with 100%Q. change (inject_Z 1) with 1%Q.
        pose proof (pow2_cancel e) as Hc'.
        set (P := pow2 (- e)) in *. set (Pe := pow2 e) in *.
        set (A := (100 * (inject_Z k + 1))%Q). set (M := inject_Z (Zpos m)).
        assert (Hr : ((A * P + - M) * Pe == A * (P * Pe) - M * Pe)%Q) by ring.
        rewrite Hr, Hc'. ring. }
      pose proof (pow2_pos e) as Hpe.
      assert (Hz1 : 1 <= z).
      { assert (0 < z); [|lia]. rewrite Zlt_Qlt. change (inject_Z 0) with 0%Q.
        destruct (Qlt_le_dec 0 (inject_Z z)) as [|Hle]; [assumption|].
        exfalso. assert (inject_Z z * pow2 e <= 0 * pow2 e)%Q
          by (apply Qmult_le_compat_r; lra). lra. }
      assert (Hd : (pow2 e <= 100 * (inject_Z k + 1) - X)%Q).
      { rewrite <- Hz. apply Qle_trans with (1 * pow2 e)%Q; [lra|].
        apply Qmult_le_compat_r; [zq | lra]. }
      (* the exponent of the quotient is at least six below that of X *)
      assert (Hmt : Qmag t - 1 < 53 + e - 6).
      { apply pow2_lt_inv. apply Qle_lt_trans with t; [exact Ht1|].
        replace (53 + e - 6) with (53 + e + - 6) by lia. rewrite pow2_add.
        assert (HX2 : (X < pow2 (53 + e))%Q).
        { unfold X. rewrite pow2_add, (pow2_Z 53) by lia.
          apply Qmult_lt_compat_r; [exact Hpe | zq]. }
        change (pow2 (- 6)) with (1 # 64)%Q. lra. }
      assert (Hpow : (pow2 (Qmag t - 53) <= pow2 (e + - 6))%Q) by (apply pow2_le; lia).
      rewrite pow2_add in Hpow. change (pow2 (- 6)) with (1 # 64)%Q in Hpow.
      clear - Herr Hpow Hd HtX Hk2 Hpe. clearbody k t X.
      unfold Qdiv in Herr. change (/ 2)%Q with (1 # 2)%Q in Herr. lra.
    + (* the quotient is subnormal, far below 1 *)
      pose proof (Qmag_spec t Ht) as [_ Ht2].
      assert (Hs : (rnd t <= pow2 (-1022))%Q).
      { apply rnd_le_pow2; [exact Ht | lia |].
        apply Qle_trans with (pow2 (Qmag t)); [lra | apply pow2_le; lia]. }
      assert (pow2 (-1022) < pow2 0)%Q by (apply pow2_lt; lia).
      rewrite pow2_0 in *.
      assert (0 <= inject_Z k)%Q by zq. lra.
Qed.

(** The same for the numbers from 2^53 to 100 * 2^49, which are even
    whole numbers: the next multiple of 100 is at least 2 away, and at
    least 4 away from 2^54 on. *)
Lemma quotient_rounding_large (m : positive) (e : Z) :
  Zpos m < 2 ^ 53 -> 1 <= e <= 3 ->
  let X := (inject_Z (Zpos m) * pow2 e)%Q in
  let k := Qfloor (X / 100) in
  (X < inject_Z (100 * 2 ^ 49))%Q ->
  (inject_Z k <= rnd (X / 100))%Q /\ (rnd (X / 100) < inject_Z k + 1)%Q
  /\ 0 <= k /\ k < 2 ^ 49.
Proof.
  intros Hm He X k Hbound.
  assert (HXz : (X == inject_Z (Zpos m * 2 ^ e))%Q).
  { unfold X. rewrite inject_Z_mult, pow2_Z by lia. reflexivity. }
  assert (HX : (0 < X)%Q) by (apply Qmult_lt_0_compat; [zq | apply pow2_pos]).
  set (t := (X / 100)%Q) in *.
  assert (Ht : (0 < t)%Q) by (unfold t; apply Qlt_shift_div_l; lra).
  pose proof (Qfloor_bounds t) as [Hk1 Hk2]. fold k in Hk1, Hk2.
  assert (Hk0 : 0 <= k).
  { assert (-1 < k); [|lia]. rewrite Zlt_Qlt.
    change (inject_Z (-1)) with (-1)%Q. lra. }
  assert (HtX : (X == 100 * t)%Q) by (unfold t; field).
  assert (Hb' : (inject_Z (100 * 2 ^ 49) == 100 * inject_Z (2 ^ 49))%Q)
    by (rewrite inject_Z_mult; reflexivity).
  assert (Hk49 : k < 2 ^ 49).
  { rewrite Zlt_Qlt. lra. }
  split; [|split; [|split; assumption]].
  - destruct (Z.eq_dec k 0) as [->|Hne].
    + now apply rnd_nonneg.
    + rewrite <- (rnd_Z k) by lia. apply rnd_mono; [zq | exact Hk1].
  - (* the gap to the next multiple of 100, a whole number *)
    set (z := 100 * (k + 1) - Zpos m * 2 ^ e).
    assert (Hz : (inject_Z z == 100 * (inject_Z k + 1) - X)%Q).
    { unfold z. rewrite HXz. unfold Z.sub.
      rewrite inject_Z_plus, inject_Z_opp, inject_Z_mult, inject_Z_plus.
      reflexivity. }
    assert (Hz0 : 0 < z).
    { rewrite Zlt_Qlt. change (inject_Z 0) with 0%Q. lra. }
    pose proof (Qmag_spec t Ht) as [Ht1 Ht2].
    pose proof (rnd_err t) as [_ Herr].
    unfold Qdiv in Herr. change (/ 2)%Q with (1 # 2)%Q in Herr.
    assert (Hcases : e = 1 \/ e = 2 \/ e = 3) by lia.
    assert (Hmag : forall M : Z, (t < pow2 M)%Q -> -1021 <= M ->
                                 (pow2 (cexp t) <= pow2 (M - 53))%Q).
    { intros M HM HM'. apply pow2_le.
      assert (Qmag t - 1 < M) by (apply pow2_lt_inv; lra).
      destruct (cexp_cases t) as [[Hc ?]|[Hc ?]]; lia. }
    destruct Hcases as [-> | [-> | ->]].
    + (* X is even and below 2^54 *)
      assert (Hz2 : 2 <= z) by (unfold z in *; lia).
      assert (HzQ : (2 <= inject_Z z)%Q) by (change 2%Q with (inject_Z 2); now rewrite <- Zle_Qle).
      assert (Ht48 : (t < pow2 48)%Q).
      { rewrite pow2_Z by lia.
        assert (X < inject_Z (2 ^ 54))%Q by (rewrite HXz, <- Zlt_Qlt; lia).
        assert (inject_Z (2 ^ 54) <= 100 * inject_Z (2 ^ 48))%Q
          by (change 100%Q with (inject_Z 100); rewrite <- inject_Z_mult, <- Zle_Qle; lia).
        lra. }
      pose proof (Hmag 48 Ht48 ltac:(lia)) as Hp.
      change (pow2 (48 - 53)) with (1 # 32)%Q in Hp.
      clear - Hp Herr HzQ Hz Hk2 HtX. qlra.
    + assert (Hz2 : 4 <= z) by (unfold z in *; lia).
      assert (HzQ : (4 <= inject_Z z)%Q) by (change 4%Q with (inject_Z 4); now rewrite <- Zle_Qle).
      assert (Ht49 : (t < pow2 49)%Q) by (rewrite pow2_Z by lia; lra).
      pose proof (Hmag 49 Ht49 ltac:(lia)) as Hp.
      change (pow2 (49 - 53)) with (1 # 16)%Q in Hp.
      clear - Hp Herr HzQ Hz Hk2 HtX. qlra.
    + assert (Hz2 : 4 <= z) by (unfold z in *; lia).
      assert (HzQ : (4 <= inject_Z z)%Q) by (change 4%Q with (inject_Z 4); now rewrite <- Zle_Qle).
      assert (Ht49 : (t < pow2 49)%Q) by (rewrite pow2_Z by lia; lra).
      pose proof (Hmag 49 Ht49 ltac:(lia)) as Hp.
      change (pow2 (49 - 53)) with (1 # 16)%Q in Hp.
      clear - Hp Herr HzQ Hz Hk2 HtX. qlra.
Qed.

Lemma finite_nonneg (s : bool) (m : positive) (e : Z) :
  (0 <= value (S754_finite s m e))%Q -> s = false.
Proof.
  destruct s; [|reflexivity]. cbn [value cond_Zopp]. intros H. exfalso.
  pose proof (pow2_pos e) as Hp.
  assert (inject_Z (- Z.pos m) * pow2 e < 0 * pow2 e)%Q
    by (apply Qmult_lt_compat_r; [exact Hp | zq]).
  lra.
Qed.

(** For amounts below 100 * 2^49 the three binary64 steps of
    [calculatePoints] give the exact result. *)
Lemma calculatePoints_exact (amount : spec_float) :
  valid amount -> is_finite amount = true ->
  (0 <= value amount)%Q -> (value amount < inject_Z (100 * 2 ^ 49))%Q ->
  is_finite (calculatePoints amount) = true
  /\ (value (calculatePoints amount) == inject_Z (5 * Qfloor (value amount / 100)))%Q.
Proof.
  intros Hv Hf H0 Hb.
  destruct amount as [s|s| |s m e]; try discriminate Hf.
  - destruct s; vm_compute; split; reflexivity || (intros; discriminate).
  - pose proof (finite_nonneg s m e H0) as ->.
    destruct (valid_finite _ _ _ Hv) as (Hm & He & Hbig).
    cbn [value cond_Zopp] in *.
    set (X := (inject_Z (Zpos m) * pow2 e)%Q) in *.
    assert (He3 : e <= 3).
    { destruct (Z_le_gt_dec e 3) as [|Hgt]; [assumption|]. exfalso.
      specialize (Hbig ltac:(lia)).
      assert (inject_Z (100 * 2 ^ 49) <= X)%Q; [|lra].
      apply Qle_trans with (inject_Z (2 ^ 52) * pow2 4)%Q.
      - rewrite (pow2_Z 4), <- inject_Z_mult, <- Zle_Qle by lia. lia.
      - unfold X. apply Qle_trans with (inject_Z (2 ^ 52) * pow2 e)%Q.
        + apply Qmult_le_l; [zq | apply pow2_le; lia].
        + apply Qmult_le_compat_r; [zq | apply Qlt_le_weak, pow2_pos]. }
    set (k := Qfloor (X / 100)).
    assert (HX : (0 < X)%Q) by (apply Qmult_lt_0_compat; [zq | apply pow2_pos]).
    assert (Hr : (inject_Z k <= rnd (X / 100))%Q /\ (rnd (X / 100) < inject_Z k + 1)%Q
                 /\ 0 <= k /\ k < 2 ^ 49).
    { destruct (Z_le_gt_dec e 0) as [Hle|Hgt].
      - destruct (quotient_rounding m e Hm ltac:(lia)) as (Hr1 & Hr2 & Hk0 & Hk53).
        fold X in Hr1, Hr2, Hk0, Hk53. fold k in Hr1, Hr2, Hk0, Hk53.
        repeat split; try assumption. lia.
      - apply (quotient_rounding_large m e Hm ltac:(lia)). exact Hb. }
    destruct Hr as (Hr1 & Hr2 & Hk0 & Hk49).
    unfold calculatePoints. rewrite of_Z_100. cbn [div].
    rewrite <- of_Z_100.
    assert (Hq : (value (S754_finite false m e) / value (of_Z 100) == X / 100)%Q)
      by (rewrite value_100; reflexivity).
    rewrite (round_comp _ _ Hq).
    assert (Ht : (0 < X / 100)%Q) by (apply Qlt_shift_div_l; lra).
    assert (Hs : sround (X / 100) = rnd (X / 100)).
    { unfold sround. destruct (Qcompare_0_cases (X / 100)) as [[-> H]|[[-> H]|[-> H]]];
        try reflexivity; exfalso; lra. }
    assert (H253 : (inject_Z k + 1 <= inject_Z (2 ^ 53))%Q).
    { assert (Hz' : (inject_Z (k + 1) <= inject_Z (2 ^ 53))%Q) by zq.
      rewrite inject_Z_plus in Hz'. exact Hz'. }
    assert (Hbig53 : (inject_Z (2 ^ 53) < pow2 1024)%Q)
      by (rewrite <- pow2_Z by lia; apply pow2_lt; lia).
    assert (HkQ : (0 <= inject_Z k)%Q) by zq.
    pose proof (pow2_pos 1024) as Hp1024.
    destruct (round_kind (X / 100)) as [(A & B & C & D)|[(A & B)|(A & B)]];
      rewrite Hs in *; [| exfalso; clear - B Hr2 H253 Hbig53; qlra | exfalso; clear - B Hr1 HkQ Hp1024; qlra].
    set (r := round (X / 100)) in *.
    assert (Hfl : Qfloor (value r) = k) by (apply Qfloor_unique; clear - B Hr1 Hr2; qlra).
    destruct (floor_exact r A ltac:(rewrite Hfl; lia)) as [Ff Fv].
    rewrite Hfl in Fv.
    apply mul_exact.
    + exact Ff.
    + rewrite of_Z_5. reflexivity.
    + rewrite Fv, value_5, inject_Z_mult. change (inject_Z 5) with 5%Q. ring.
    + lia.
Qed.

Lemma div_100_mono (x y : spec_float) :
  leb x y = true -> leb (div x (of_Z 100)) (div y (of_Z 100)) = true.
Proof.
  apply (stage_mono (fun x => div x (of_Z 100)) (fun q => q / value (of_Z 100))%Q).
  - intros p q Hpq. rewrite value_100. apply Qmult_le_compat_r; [exact Hpq | discriminate].
  - reflexivity.
  - intros s m e. rewrite of_Z_100. reflexivity.
  - intros s. rewrite of_Z_100. cbn. now destruct s.
  - intros s. rewrite of_Z_100. cbn. now destruct s.
Qed.

Lemma floor_mono (x y : spec_float) :
  leb x y = true -> leb (floor x) (floor y) = true.
Proof.
  apply (stage_mono floor (fun q => inject_Z (Qfloor q))).
  - intros p q Hpq. rewrite <- Zle_Qle. now apply Qfloor_resp_le.
  - reflexivity.
  - reflexivity.
  - reflexivity.
  - reflexivity.
Qed.

Lemma mul_5_mono (x y : spec_float) :
  leb x y = true -> leb (mul x (of_Z 5)) (mul y (of_Z 5)) = true.
Proof.
  apply (stage_mono (fun x => mul x (of_Z 5)) (fun q => q * value (of_Z 5))%Q).
  - intros p q Hpq. rewrite value_5. apply Qmult_le_compat_r; [exact Hpq | discriminate].
  - reflexivity.
  - intros s m e. rewrite of_Z_5. reflexivity.
  - intros s. rewrite of_Z_5. cbn. now destruct s.
  - intros s. rewrite of_Z_5. cbn. now destruct s.
Qed.

Lemma calculatePoints_mono (a b : spec_float) :
  leb a b = true -> leb (calculatePoints a) (calculatePoints b) = true.
Proof.
  intros H. unfold calculatePoints.
  now apply mul_5_mono, floor_mono, div_100_mono.
Qed.

Lemma calculatePoints_not_nan (a : spec_float) :
  is_nan a = false -> is_nan (calculatePoints a) = false.
Proof.
  intros H. unfold calculatePoints.
  apply (stage_not_nan (fun x => mul x (of_Z 5)) (fun q => q * value (of_Z 5))%Q).
  - intros s m e. rewrite of_Z_5. reflexivity.
  - intros s. rewrite of_Z_5. cbn. now destruct s.
  - intros s. rewrite of_Z_5. cbn. now destruct s.
  - apply (stage_not_nan floor (fun q => inject_Z (Qfloor q))); try reflexivity.
    apply (stage_not_nan (fun x => div x (of_Z 100)) (fun q => q / value (of_Z 100))%Q).
    + intros s m e. rewrite of_Z_100. reflexivity.
    + intros s. rewrite of_Z_100. cbn. now destruct s.
    + intros s. rewrite of_Z_100. cbn. now destruct s.
    + exact H.
Qed.

Lemma calculatePoints_whole (amount : spec_float) :
  valid amount -> is_finite amount = true -> (0 <= value amount)%Q ->
  exists earned : Z, to_Z (calculatePoints amount) = Some earned /\ 0 <= earned.
Proof.
  intros Hv Hf H0.
  destruct amount as [s|s| |s m e]; try discriminate Hf.
  - exists 0. destruct s; vm_compute; split; reflexivity || (intros; discriminate).
  - pose proof (finite_nonneg s m e H0) as ->.
    destruct (valid_finite _ _ _ Hv) as (Hm & He & _).
    cbn [value cond_Zopp] in *.
    set (X := (inject_Z (Zpos m) * pow2 e)%Q) in *.
    assert (HX : (0 < X)%Q) by (apply Qmult_lt_0_compat; [zq | apply pow2_pos]).
    assert (HXb : (X <= pow2 1024)%Q).
    { unfold X. apply Qle_trans with (inject_Z (2 ^ 53) * pow2 971)%Q.
      - apply Qle_trans with (inject_Z (Zpos m) * pow2 971)%Q.
        + apply Qmult_le_l; [zq | apply pow2_le; lia].
        + apply Qmult_le_compat_r; [zq | apply Qlt_le_weak, pow2_pos].
      - rewrite <- pow2_Z, <- pow2_add by lia. apply Qle_refl. }
    unfold calculatePoints. rewrite of_Z_100. cbn [div]. rewrite <- of_Z_100.
    assert (Hq : (value (S754_finite false m e) / value (of_Z 100) == X / 100)%Q)
      by (rewrite value_100; reflexivity).
    rewrite (round_comp _ _ Hq).
    set (t := (X / 100)%Q).
    assert (Ht : (0 < t)%Q) by (unfold t; apply Qlt_shift_div_l; lra).
    assert (Htb : (t <= pow2 1018)%Q).
    { unfold t. apply Qle_shift_div_r; [reflexivity|].
      apply Qle_trans with (pow2 1024); [exact HXb|].
      replace 1024 with (1018 + 6) by lia. rewrite pow2_add.
      change (pow2 6) with 64%Q. pose proof (pow2_pos 1018). lra. }
    assert (Hs : sround t = rnd t).
    { unfold sround. destruct (Qcompare_0_cases t) as [[-> H]|[[-> H]|[-> H]]];
        try reflexivity; exfalso; lra. }
    assert (Hr : (rnd t <= pow2 1018)%Q).
    { apply rnd_le_pow2; [exact Ht | | exact Htb].
      pose proof (Qmag_spec _ Ht) as [H1 _].
      assert (Qmag t - 1 <= 1018).
      { destruct (Z_le_gt_dec (Qmag t - 1) 1018) as [|Hgt]; [assumption|].
        exfalso. assert (pow2 1018 < pow2 (Qmag t - 1))%Q by (apply pow2_lt; lia).
        lra. }
      destruct (cexp_cases t) as [[Hc ?]|[Hc ?]]; lia. }
    assert (H1018 : (pow2 1018 < pow2 1021)%Q) by (apply pow2_lt; lia).
    assert (H1021 : (pow2 1021 < pow2 1024)%Q) by (apply pow2_lt; lia).
    pose proof (pow2_pos 1018) as Hp. pose proof (rnd_nonneg _ Ht) as Hr0.
    destruct (round_kind t) as [(A & B & C & D)|[(A & B)|(A & B)]];
      rewrite Hs in *; [| exfalso; lra | exfalso; lra].
    set (r := round t) in *.
    (* the floor *)
    set (k := Qfloor (value r)).
    pose proof (Qfloor_bounds (value r)) as [Hk1 Hk2]. fold k in Hk1, Hk2.
    assert (Hk0 : 0 <= k).
    { assert (-1 < k); [|lia]. rewrite Zlt_Qlt.
      change (inject_Z (-1)) with (-1)%Q. lra. }
    assert (Hf' : exists z, is_finite (floor r) = true
                           /\ (value (floor r) == inject_Z z)%Q /\ 0 <= z
                           /\ (inject_Z z <= pow2 1018)%Q).
    { destruct r as [sr|sr| |sr mr er] eqn:Er; try discriminate A.
      - exists 0. cbn [floor is_finite value]. repeat split; try reflexivity; try lia.
        apply Qlt_le_weak, pow2_pos.
      - cbn [floor]. unfold of_Z. apply (round_whole 1018 _ k); [lia | reflexivity | exact Hk0 |].
        fold k. lra. }
    destruct Hf' as (z & Fz & Vz & Hz0 & Hzb).
    assert (Hmul : exists n, is_finite (mul (floor r) (of_Z 5)) = true
                             /\ (value (mul (floor r) (of_Z 5)) == inject_Z n)%Q /\ 0 <= n).
    { destruct (floor r) as [sf|sf| |sf mf ef] eqn:Ef; try discriminate Fz.
      - exists 0. rewrite of_Z_5. cbn. repeat split; try reflexivity; lia.
      - rewrite of_Z_5. cbn [mul]. rewrite <- of_Z_5.
        destruct (round_whole 1021 (value (S754_finite sf mf ef) * value (of_Z 5)) (z * 5))
          as (n & Fn & Vn & Hn0 & _).
        + lia.
        + rewrite Vz, value_5, inject_Z_mult. reflexivity.
        + lia.
        + rewrite inject_Z_mult. change (inject_Z 5) with 5%Q.
          replace 1021 with (1018 + 3) by lia. rewrite pow2_add.
          change (pow2 3) with 8%Q. lra.
        + exists n. auto. }
    destruct Hmul as (n & Fn & Vn & Hn0).
    exists n. split; [now apply to_Z_whole | exact Hn0].
Qed.

End NumberFacts.

(** ** [calculatePoints] *)

Section CalculatePoints.

Lemma floor_bounds (amount : Q) :
  (inject_Z (100 * Qfloor (amount / 100)) <= amount)%Q
  /\ (amount < inject_Z (100 * (Qfloor (amount / 100) + 1)))%Q.
Proof.
  pose proof (Qfloor_le (amount / 100)) as Hl.
  pose proof (Qlt_floor (amount / 100)) as Hu.
  set (f := Qfloor (amount / 100)) in *.
  rewrite !inject_Z_mult, ?inject_Z_plus.
  rewrite inject_Z_plus in Hu.
  change (inject_Z 100) with 100%Q. change (inject_Z 1) with 1%Q in *.
  unfold Qdiv in Hl, Hu. change (/ 100)%Q with (1 # 100)%Q in Hl, Hu.
  split; lra.
Qed.

Lemma floor_unique (amount : Q) (k : Z) :
  (inject_Z (100 * k) <= amount)%Q ->
  (amount < inject_Z (100 * (k + 1)))%Q ->
  Qfloor (amount / 100) = k.
Proof.
  intros Hl Hu.
  destruct (floor_bounds amount) as [Fl Fu].
  assert (inject_Z (100 * k)
          < inject_Z (100 * (Qfloor (amount / 100) + 1)))%Q by lra.
  assert (inject_Z (100 * Qfloor (amount / 100))
          < inject_Z (100 * (k + 1)))%Q by lra.
  rewrite <- Zlt_Qlt in *. lia.
Qed.

Lemma floor_nonneg (amount : Q) :
  (0 <= amount)%Q -> 0 <= Qfloor (amount / 100).
Proof.
  intros H. destruct (floor_bounds amount) as [_ Fu].
  assert (inject_Z 0 < inject_Z (100 * (Qfloor (amount / 100) + 1)))%Q
    by (change (inject_Z 0) with 0%Q; lra).
  rewrite <- Zlt_Qlt in *. lia.
Qed.

Lemma leb_values (x y : spec_float) :
  Number.is_finite x = true -> Number.is_finite y = true ->
  Number.leb x y = true -> (Number.value x <= Number.value y)%Q.
Proof.
  intros Hx Hy H. rewrite (NumberFacts.leb_finite x y Hx Hy) in H.
  now apply Qle_bool_iff.
Qed.

Lemma ltb_not_nan (x y : spec_float) :
  Number.ltb x y = true -> Number.is_nan x = false.
Proof.
  unfold Number.ltb. intros H. apply andb_true_iff in H as [H _].
  now destruct x.
Qed.

End CalculatePoints.

(** C1, as amended.  For every amount that is a number of at least 0 and
    below 100 * 2^49 = 56294995342131200, [calculatePoints] returns the
    whole number 5 * floor(amount / 100), where floor(amount / 100) is
    the integer [k] with 100 k <= amount < 100 (k + 1); it returns 0 for
    every such amount below 100, and on 0, 99, 100, 250 and 1000 it
    returns 0, 0, 5, 10 and 50.  The result is a function of the value
    of the amount alone. *)
Theorem calculatePoints_spec (amount : spec_float) :
  Number.valid amount ->
  Number.is_finite amount = true ->
  (0 <= Number.value amount)%Q ->
  (Number.value amount < inject_Z (100 * 2 ^ 49))%Q ->
  Number.whole_as (calculatePoints amount)
                  (5 * Qfloor (Number.value amount / 100))
  /\ (exists k : Z,
         0 <= k
         /\ (inject_Z (100 * k) <= Number.value amount)%Q
         /\ (Number.value amount < inject_Z (100 * (k + 1)))%Q
         /\ Number.whole_as (calculatePoints amount) (5 * k))
  /\ ((Number.value amount < 100)%Q ->
      Number.whole_as (calculatePoints amount) 0)
  /\ (calculatePoints (Number.of_Z 0) = Number.of_Z 0
      /\ calculatePoints (Number.of_Z 99) = Number.of_Z 0
      /\ calculatePoints (Number.of_Z 100) = Number.of_Z 5
      /\ calculatePoints (Number.of_Z 250) = Number.of_Z 10
      /\ calculatePoints (Number.of_Z 1000) = Number.of_Z 50)
  /\ (forall amount' : spec_float,
         Number.valid amount' -> Number.is_finite amount' = true ->
         (Number.value amount' == Number.value amount)%Q ->
         (Number.value (calculatePoints amount')
          == Number.value (calculatePoints amount))%Q).
Proof.
  intros Hv Hf H0 Hp.
  pose proof (NumberFacts.calculatePoints_exact amount Hv Hf H0 Hp) as Hdef.
  destruct (floor_bounds (Number.value amount)) as [Fl Fu].
  split; [exact Hdef|]. split; [|split; [|split]].
  - exists (Qfloor (Number.value amount / 100)).
    split; [now apply floor_nonneg|]. now repeat split.
  - intros Hlt. rewrite (floor_unique (Number.value amount) 0) in Hdef;
      [exact Hdef | exact H0 | exact Hlt].
  - repeat split; vm_compute; reflexivity.
  - intros amount' Hv' Hf' E.
    assert (H0' : (0 <= Number.value amount')%Q) by (rewrite E; exact H0).
    assert (Hp' : (Number.value amount' < inject_Z (100 * 2 ^ 49))%Q)
      by (rewrite E; exact Hp).
    destruct (NumberFacts.calculatePoints_exact amount' Hv' Hf' H0' Hp')
      as [_ E'].
    destruct Hdef as [_ Ed]. rewrite E', Ed.
    now rewrite (Qfloor_comp _ _ (Qdiv_comp _ _ E 100%Q 100%Q (Qeq_refl _))).
Qed.

Lemma calculatePoints_spec_witness :
  Number.whole_as (calculatePoints (Number.of_Z 250)) (5 * Qfloor (250 / 100))
  /\ Number.whole_as (calculatePoints (Number.of_Q (199 # 2))) 0.
Proof.
  split.
  - destruct (calculatePoints_spec (Number.of_Z 250)) as (H & _);
      [reflexivity | reflexivity | vm_compute; discriminate
       | vm_compute; reflexivity |].
    exact H.
  - destruct (calculatePoints_spec (Number.of_Q (199 # 2)))
      as (_ & _ & H & _);
      [reflexivity | reflexivity | vm_compute; discriminate
       | vm_compute; reflexivity |].
    apply H. vm_compute. reflexivity.
Defined.

(** C1 as stated fails: 56294995342131296 = 100 * 2^49 + 96 is a number,
    and dividing it by 100 rounds the quotient 562949953421312.96 up to
    562949953421313, so the call returns 2814749767106565, five more
    than 5 * floor(amount / 100). *)
Lemma calculatePoints_spec_counterexample :
  ~ (forall amount : spec_float,
        Number.valid amount ->
        Number.is_finite amount = true ->
        (0 <= Number.value amount)%Q ->
        Number.whole_as (calculatePoints amount)
                        (5 * Qfloor (Number.value amount / 100))).
Proof.
  intros H.
  destruct (H (Number.of_Z 56294995342131296)) as [_ E];
    [reflexivity | reflexivity | vm_compute; discriminate |].
  vm_compute in E. discriminate E.
Qed.

(** C2, as amended.  [calculatePoints] has no guard: for every negative
    amount the call returns a numeric result, and not the error
    [InvalidAmount]. *)
Theorem calculatePoints_negative (amount : spec_float) :
  Number.ltb amount (Number.of_Z 0) = true ->
  exists points : spec_float,
    calculatePoints_result amount = Ledger.Ok points
    /\ Number.is_nan points = false.
Proof.
  intros H. exists (calculatePoints amount). split; [reflexivity|].
  apply NumberFacts.calculatePoints_not_nan. now apply (ltb_not_nan _ _ H).
Qed.

Lemma calculatePoints_negative_witness :
  exists points : spec_float,
    calculatePoints_result (Number.of_Z (-50)) = Ledger.Ok points
    /\ Number.is_nan points = false
    /\ points = Number.of_Z (-5).
Proof.
  destruct (calculatePoints_negative (Number.of_Z (-50)))
    as (points & E & N); [vm_compute; reflexivity|].
  exists points. split; [exact E|]. split; [exact N|].
  vm_compute in E. injection E as <-. vm_compute. reflexivity.
Defined.

(** C2 as stated fails: the amount -50 is negative, and the call returns
    the number -5 instead of the error [InvalidAmount]. *)
Lemma calculatePoints_negative_counterexample :
  ~ (forall amount : spec_float,
        Number.ltb amount (Number.of_Z 0) = true ->
        calculatePoints_result amount = Ledger.Err Ledger.InvalidAmount).
Proof.
  intros H. specialize (H (Number.of_Z (-50)) eq_refl). discriminate H.
Qed.

(** ** Phone numbers *)


Module RegexFacts.
Import Regex.

Lemma is_digit_spec (c : ascii) : is_digit c = true <-> In c decimal_digits.
Proof.
  split.
  - destruct c as [[] [] [] [] [] [] [] []]; vm_compute;
      intros H; try discriminate H; tauto.
  - intros H. repeat (destruct H as [<- | H]; [reflexivity|]).
    destruct H.
Qed.

(** The matches of [\d{lo,hi}] that reach the end of the input. *)
Lemma repeat_digits_to_end (hi : nat) :
  forall (lo : nat) (b : bool) (s : string),
    (exists b', In (b', EmptyString) (repeat_from digit_step lo hi (b, s)))
    <-> canonical_digits s /\ (lo <= String.length s <= hi)%nat.
Proof.
  induction hi as [|hi IH]; intros lo b s; cbn [repeat_from].
  - destruct lo as [|lo]; cbn [In].
    + split.
      * intros (b' & [E | []]). inversion E; subst.
        split; [constructor | cbn; lia].
      * intros (_ & Hlen). destruct s; [|cbn in Hlen; lia].
        exists b. now left.
    + split; [intros (b' & []) | intros (_ & Hlen); lia].
  - split.
    + intros (b' & Hin). apply in_app_or in Hin as [Hin | Hin].
      * apply in_flat_map in Hin as (st & Hst & Hin).
        unfold digit_step in Hst. cbn in Hst.
        destruct s as [|c rest]; [destruct Hst|].
        destruct (is_digit c) eqn:Hc; [|destruct Hst].
        destruct Hst as [<- | []].
        destruct (proj1 (IH _ _ _) (ex_intro _ b' Hin)) as (Hd & Hlen).
        split.
        -- constructor; [now apply is_digit_spec | exact Hd].
        -- cbn [String.length]. lia.
      * destruct lo as [|lo]; [|destruct Hin].
        destruct Hin as [E | []]. inversion E; subst.
        split; [constructor | cbn; lia].
    + intros (Hd & Hlen). destruct s as [|c rest].
      * destruct lo as [|lo]; [|cbn in Hlen; lia].
        exists b. apply in_or_app. right. now left.
      * inversion Hd as [|? ? Hc Hrest]; subst.
        apply is_digit_spec in Hc. cbn [String.length] in Hlen.
        destruct (proj2 (IH (Nat.pred lo) false rest)) as (b' & Hin).
        { split; [exact Hrest | lia]. }
        exists b'. apply in_or_app. left. apply in_flat_map.
        exists (false, rest). split; [|exact Hin].
        unfold digit_step. cbn. rewrite Hc. now left.
Qed.

Lemma eol_after (l : list MState) :
  flat_map (match_from Eol) l <> []
  <-> exists b, In (b, EmptyString) l.
Proof.
  induction l as [|[b s] l IH]; cbn.
  - split; [congruence | intros (b & [])].
  - destruct s as [|c s]; cbn.
    + split; [intros _; exists b; now left | congruence].
    + rewrite IH. split.
      * intros (b' & H). exists b'. now right.
      * intros (b' & [E | H]); [inversion E | now exists b'].
Qed.

Lemma matches_at_true (r : Pattern) (st : MState) :
  matches_at r st = true <-> match_from r st <> [].
Proof.
  unfold matches_at. destruct (match_from r st); split; congruence.
Qed.

(** A pattern that starts with [^] matches nowhere but at the start. *)
Lemma search_anchored (r : Pattern) (s : string) :
  search (Seq Bol r) false s = false.
Proof. induction s as [|c s IH]; cbn; [reflexivity | exact IH]. Qed.

Lemma test_anchored (r : Pattern) (s : string) :
  test (Seq Bol r) s = matches_at r (true, s).
Proof.
  unfold test. destruct s as [|c s]; cbn [search].
  - unfold matches_at. cbn. rewrite app_nil_r. now rewrite orb_false_r.
  - rewrite search_anchored, orb_false_r.
    unfold matches_at. cbn. now rewrite app_nil_r.
Qed.

(** What [/^\+\d{10,15}$/] accepts. *)
Lemma test_phone_pattern (s : string) :
  test phone_pattern s = true <-> canonical_phone s.
Proof.
  unfold phone_pattern. rewrite test_anchored, matches_at_true.
  cbn [match_from snd]. destruct s as [|c ds].
  - cbn. split; [congruence | intros (ds & E & _); discriminate E].
  - cbn [class_mem]. destruct (Ascii.eqb c "+") eqn:Hc.
    + apply Ascii.eqb_eq in Hc. subst c. cbn [flat_map].
      rewrite app_nil_r, eol_after.
      change (match_from (Class Digit)) with digit_step.
      rewrite repeat_digits_to_end. unfold canonical_phone, canonical_digits.
      split.
      * intros (Hd & Hlen). now exists ds.
      * intros (ds' & E & Hd & Hlen). now inversion E; subst.
    + cbn. split; [congruence|].
      intros (ds' & E & _). inversion E; subst.
      now rewrite Ascii.eqb_refl in Hc.
Qed.

(** Deleting the characters of a class leaves none of them. *)
Lemma replace_class_all_empty_idem (cl : CharClass) (s : string) :
  replace_class_all cl "" (replace_class_all cl "" s)
  = replace_class_all cl "" s.
Proof.
  induction s as [|c s IH]; cbn; [reflexivity|].
  destruct (class_mem cl c) eqn:Hc; cbn.
  - exact IH.
  - now rewrite Hc, IH.
Qed.

Lemma replace_class_all_empty_keeps (cl : CharClass) (s : string) :
  Forall (fun c => class_mem cl c = false)
         (list_ascii_of_string (replace_class_all cl "" s)).
Proof.
  induction s as [|c s IH]; cbn; [constructor|].
  destruct (class_mem cl c) eqn:Hc; cbn; [exact IH | now constructor].
Qed.

End RegexFacts.

(** C8.  [isValidPhoneNumber] accepts a string exactly when its
    normalization by [formatPhoneNumber] is in canonical form: one
    leading [+] followed by digits only, between 10 and 15 of them. *)
Theorem isValidPhoneNumber_canonical (phone : string) :
  isValidPhoneNumber phone = true <-> canonical_phone (formatPhoneNumber phone).
Proof. unfold isValidPhoneNumber. apply RegexFacts.test_phone_pattern. Qed.

Lemma isValidPhoneNumber_canonical_witness :
  canonical_phone (formatPhoneNumber "+254 (700) 111-222")
  /\ ~ canonical_phone (formatPhoneNumber "0700 111 222").
Proof.
  split.
  - apply (proj1 (isValidPhoneNumber_canonical "+254 (700) 111-222")).
    vm_compute. reflexivity.
  - intros H.
    apply (proj2 (isValidPhoneNumber_canonical "0700 111 222")) in H.
    vm_compute in H. discriminate H.
Defined.

(** C9.  [formatPhoneNumber] is idempotent: normalizing a normalized
    phone number changes nothing. *)
Theorem formatPhoneNumber_idempotent (p : string) :
  formatPhoneNumber (formatPhoneNumber p) = formatPhoneNumber p.
Proof.
  unfold formatPhoneNumber. apply RegexFacts.replace_class_all_empty_idem.
Qed.

(** ** [getErrorMessage] *)

Section ErrorMessages.

Lemma errorMessages_listed (k m : string) :
  errorMessages !! k = Some m -> In (k, m) errorMessages_entries.
Proof.
  intros H. apply list_elem_of_In.
  now apply (elem_of_list_to_map_2 (M := gmap string)).
Qed.

Lemma errorMessages_nonempty (k m : string) :
  errorMessages !! k = Some m -> k <> "" /\ m <> "".
Proof.
  intros H. apply errorMessages_listed in H. cbn in H.
  repeat (destruct H as [E | H];
          [inversion E; subst; split; discriminate|]).
  destruct H.
Qed.

Lemma errorMessages_injective (k1 k2 m : string) :
  errorMessages !! k1 = Some m -> errorMessages !! k2 = Some m -> k1 = k2.
Proof.
  intros H1 H2.
  apply errorMessages_listed in H1. apply errorMessages_listed in H2.
  cbn in H1, H2.
  repeat (destruct H1 as [E1 | H1];
          [inversion E1; subst;
           repeat (destruct H2 as [E2 | H2];
                   [inversion E2; subst; reflexivity || discriminate|]);
           destruct H2|]).
  destruct H1.
Qed.

Lemma truthy_string (s : string) : s <> "" -> truthy (JString s) = true.
Proof.
  intros H. cbn. destruct (String.eqb_spec s ""); [contradiction | reflexivity].
Qed.

Lemma getErrorMessage_of_key (error : JsError) (m : string) :
  errorMessages !! lookup_key error = Some m ->
  getErrorMessage error = JString m.
Proof.
  intros H. unfold getErrorMessage. fold (lookup_key error).
  unfold errorMessages_get. rewrite H.
  destruct (errorMessages_nonempty _ _ H) as [_ Hm].
  unfold js_or. rewrite (truthy_string m Hm). cbv iota.
  now rewrite (truthy_string m Hm).
Qed.

Lemma lookup_key_code (error : JsError) (k : string) :
  code error = Some k -> k <> "" -> lookup_key error = k.
Proof.
  intros Hc Hk. unfold lookup_key, js_or. rewrite Hc. cbn [prop].
  now rewrite (truthy_string k Hk).
Qed.

Lemma getErrorMessage_fallback (error : JsError) :
  errorMessages !! lookup_key error = None ->
  is_inherited (lookup_key error) = false ->
  getErrorMessage error = JString (fallback_message error).
Proof.
  intros Hnone Hinh. unfold getErrorMessage. fold (lookup_key error).
  unfold errorMessages_get. rewrite Hnone, Hinh.
  unfold fallback_message, js_or. cbn [truthy].
  destruct (message error) as [detail|]; cbn; [|reflexivity].
  destruct (String.eqb detail ""); reflexivity.
Qed.

End ErrorMessages.

(** C7, as amended.  For every error whose code is one of the recognized
    kinds, [getErrorMessage] returns the message of that kind, and two
    kinds never share a message.  For every error whose key (its code
    when that is present and not empty, otherwise its message) is not
    recognized (and is not the name of a property that the table
    inherits), it returns the raw message of the error alone when the
    error has a non-empty one, and the generic message alone otherwise. *)
Theorem getErrorMessage_spec :
  (forall (error : JsError) (k m : string),
      code error = Some k ->
      errorMessages !! k = Some m ->
      getErrorMessage error = JString m)
  /\ (forall k1 k2 m : string,
         errorMessages !! k1 = Some m -> errorMessages !! k2 = Some m ->
         k1 = k2)
  /\ (forall error : JsError,
         errorMessages !! lookup_key error = None ->
         is_inherited (lookup_key error) = false ->
         getErrorMessage error = JString (fallback_message error))
  /\ (forall (error : JsError) (k : string),
         code error = Some k -> k <> "" -> lookup_key error = k)
  /\ (forall error : JsError,
         code error = None \/ code error = Some "" ->
         lookup_key error = property_key (prop (message error))).
Proof.
  split; [|split; [|split; [|split]]].
  - intros error k m Hc Hk.
    destruct (errorMessages_nonempty _ _ Hk) as [Hne _].
    apply getErrorMessage_of_key. now rewrite (lookup_key_code error k).
  - exact errorMessages_injective.
  - exact getErrorMessage_fallback.
  - exact lookup_key_code.
  - intros error [Hc | Hc]; unfold lookup_key, js_or; rewrite Hc;
      reflexivity.
Qed.

Lemma getErrorMessage_spec_witness :
  getErrorMessage {| code := Some "not-found"; message := Some "NOT_FOUND" |}
  = JString "Document not found."
  /\ getErrorMessage unavailable_error
     = JString "The service is currently unavailable."
  /\ getErrorMessage {| code := Some "unavailable"; message := None |}
     = JString "An unexpected error occurred."
  /\ getErrorMessage {| code := Some ""; message := Some "Quota exceeded." |}
     = JString "Quota exceeded.".
Proof.
  destruct getErrorMessage_spec as (H1 & _ & H3 & _).
  split; [|split; [|split]].
  - apply (H1 _ "not-found"); [reflexivity | vm_compute; reflexivity].
  - apply (H3 unavailable_error); [vm_compute; reflexivity | reflexivity].
  - apply (H3 {| code := Some "unavailable"; message := None |});
      [vm_compute; reflexivity | reflexivity].
  - apply (H3 {| code := Some ""; message := Some "Quota exceeded." |});
      [vm_compute; reflexivity | reflexivity].
Defined.

(** C7 as stated fails: the code [unavailable] is not recognized, and
    the result for it is the raw message of the error, in which the
    generic message does not occur. *)
Lemma getErrorMessage_counterexample :
  ~ (forall error : JsError,
        errorMessages !! lookup_key error = None ->
        generic_plus_detail error (getErrorMessage error)).
Proof.
  intros H. specialize (H unavailable_error).
  destruct H as (s & detail & Hs & _ & Hg & _); [vm_compute; reflexivity|].
  vm_compute in Hs. inversion Hs; subst s.
  vm_compute in Hg. discriminate Hg.
Qed.

(** ** [createCustomer] *)

Section CreateCustomer.

Lemma createCustomer_bad_phone (phoneNumber password : string)
      (name : option string) :
  isValidPhoneNumber phoneNumber = false ->
  createCustomer phoneNumber password name
  = Ret (Failure (JString "Invalid phone number format")).
Proof. intros H. unfold createCustomer. now rewrite H. Qed.

Lemma createCustomer_short_password (phoneNumber password : string)
      (name : option string) :
  isValidPhoneNumber phoneNumber = true ->
  (String.length password < 6)%nat ->
  createCustomer phoneNumber password name
  = Ret (Failure (JString "Password must be at least 6 characters")).
Proof.
  intros Hv Hp. unfold createCustomer. rewrite Hv.
  apply Nat.ltb_lt in Hp. now rewrite Hp.
Qed.

End CreateCustomer.

(** C10.  When the phone number fails [isValidPhoneNumber] or the
    password has fewer than 6 characters, [createCustomer] is the
    program that returns [{success: false}] with an error message at
    once: run against any backend it makes no call at all, so the world
    (the customers, the accounts) is what it was. *)
Theorem createCustomer_invalid_input (phoneNumber password : string)
        (name : option string) :
  isValidPhoneNumber phoneNumber = false \/ (String.length password < 6)%nat ->
  exists msg : string,
    msg <> ""
    /\ createCustomer phoneNumber password name = Ret (Failure (JString msg))
    /\ (forall (W : Type) (perform : forall X : Type, Op X -> W -> W * Outcome X)
               (w : W),
           run perform (createCustomer phoneNumber password name) w
           = (w, Resolved (Failure (JString msg)))
           /\ calls perform (createCustomer phoneNumber password name) w = [])
    /\ (forall w : World,
           same_records w
             (fst (run firebase (createCustomer phoneNumber password name) w))).
Proof.
  intros H.
  assert (exists msg : string,
             msg <> ""
             /\ createCustomer phoneNumber password name
                = Ret (Failure (JString msg))) as (msg & Hne & E).
  { destruct (isValidPhoneNumber phoneNumber) eqn:Hv.
    - destruct H as [H | H]; [discriminate H|].
      eexists. split; [|now apply createCustomer_short_password].
      discriminate.
    - eexists. split; [|now apply createCustomer_bad_phone].
      discriminate. }
  exists msg. rewrite E. cbn. repeat split; assumption || reflexivity.
Qed.

Lemma createCustomer_invalid_input_witness :
  (exists msg : string,
      createCustomer "0712 345 678" "secret1" None
      = Ret (Failure (JString msg)))
  /\ (exists msg : string,
         run firebase (createCustomer "+254 700 111 333" "12345" (Some "Otieno"))
             shop
         = (shop, Resolved (Failure (JString msg)))).
Proof.
  split.
  - destruct (createCustomer_invalid_input "0712 345 678" "secret1" None)
      as (msg & _ & E & _); [left; vm_compute; reflexivity|].
    exists msg. exact E.
  - destruct (createCustomer_invalid_input "+254 700 111 333" "12345"
                                           (Some "Otieno"))
      as (msg & _ & _ & R & _); [right; cbn; lia|].
    exists msg. apply R.
Defined.

(** ** [getStatistics] *)

Section Statistics.


(** The loop over the purchases adds the two fields to its counters,
    from the first document to the last. *)
Lemma purchase_loop (ps : list PurchaseDoc) :
  forall acc : spec_float * spec_float,
    fold_left purchase_step ps acc
    = (fold_left Number.add (revenue_terms ps) (fst acc),
       fold_left Number.add (earned_terms ps) (snd acc)).
Proof.
  induction ps as [|d ps IH]; intros [r p].
  - reflexivity.
  - cbn [fold_left revenue_terms earned_terms map]. rewrite IH. reflexivity.
Qed.

Lemma redemption_loop (rs : list RedemptionDoc) :
  forall acc : spec_float,
    fold_left redemption_step rs acc
    = fold_left Number.add (spent_terms rs) acc.
Proof.
  induction rs as [|d rs IH]; intros acc.
  - reflexivity.
  - cbn [fold_left spent_terms map]. rewrite IH. reflexivity.
Qed.

Lemma sum_pointsEarned_Zsum (ps : list PurchaseDoc) :
  sum_pointsEarned ps = Zsum (earned_fields ps).
Proof.
  induction ps as [|d ps IH]; [reflexivity|].
  unfold sum_pointsEarned, Zsum, earned_fields in *.
  cbn [fold_right map]. now rewrite IH.
Qed.

Lemma sum_pointsSpent_Zsum (rs : list RedemptionDoc) :
  sum_pointsSpent rs = Zsum (spent_fields rs).
Proof.
  induction rs as [|d rs IH]; [reflexivity|].
  unfold sum_pointsSpent, Zsum, spent_fields in *.
  cbn [fold_right map]. now rewrite IH.
Qed.

(** Point fields whose absolute values total at most 2^53 are read as
    the whole numbers they hold. *)
Lemma point_terms_whole (zs : list (option Z)) :
  Zsum_abs (map (default 0) zs) <= 2 ^ 53 ->
  Forall2 Number.whole_as (map points_or_zero zs) (map (default 0) zs).
Proof.
  induction zs as [|z zs IH]; intros Hb; cbn [map]; constructor.
  - apply NumberFacts.or_zero_of_Z.
    change (Zsum_abs (map (default 0) (z :: zs)))
      with (Z.abs (default 0 z) + Zsum_abs (map (default 0) zs)) in Hb.
    pose proof (NumberFacts.Zsum_abs_nonneg (map (default 0) zs)). lia.
  - apply IH.
    change (Zsum_abs (map (default 0) (z :: zs)))
      with (Z.abs (default 0 z) + Zsum_abs (map (default 0) zs)) in Hb.
    lia.
Qed.

Lemma earned_terms_whole (ps : list PurchaseDoc) :
  Zsum_abs (earned_fields ps) <= 2 ^ 53 ->
  Forall2 Number.whole_as (earned_terms ps) (earned_fields ps).
Proof.
  intros Hb. unfold earned_terms, earned_fields in *.
  rewrite <- (map_map pointsEarned points_or_zero).
  rewrite <- (map_map pointsEarned (default 0)) in *.
  now apply point_terms_whole.
Qed.

Lemma spent_terms_whole (rs : list RedemptionDoc) :
  Zsum_abs (spent_fields rs) <= 2 ^ 53 ->
  Forall2 Number.whole_as (spent_terms rs) (spent_fields rs).
Proof.
  intros Hb. unfold spent_terms, spent_fields in *.
  rewrite <- (map_map pointsSpent points_or_zero).
  rewrite <- (map_map pointsSpent (default 0)) in *.
  now apply point_terms_whole.
Qed.

(** A left-to-right sum of whole numbers whose absolute values total at
    most 2^53 is exact. *)
Lemma float_sum_exact (xs : list spec_float) (zs : list Z) :
  Forall2 Number.whole_as xs zs -> Zsum_abs zs <= 2 ^ 53 ->
  Number.whole_as (float_sum xs) (Zsum zs).
Proof.
  intros Hw Hb. unfold float_sum.
  change (Zsum zs) with (0 + Zsum zs).
  apply NumberFacts.fold_add_exact; [exact Hw | split; reflexivity | lia].
Qed.





Lemma firebase_up (X : Type) (op : Op X) (w : World) :
  outage w = None -> firebase X op w = serve op w.
Proof. intros H. unfold firebase. now rewrite H. Qed.

Lemma firebase_out (X : Type) (op : Op X) (w : World) (e : JsError) :
  outage w = Some e -> is_console op = false ->
  firebase X op w = (w, Rejected e).
Proof. intros H Hc. unfold firebase. now rewrite H, Hc. Qed.

(** While the backend answers, [getStatistics] makes its three reads
    and returns the totals of the loops. *)
Lemma getStatistics_run (w : World) :
  outage w = None ->
  run firebase getStatistics w
  = (w,
     Resolved
       (Success
          (let earned := float_sum (earned_terms (purchases w)) in
           let redeemed := float_sum (spent_terms (redemptions w)) in
           {| totalCustomers :=
                Z.of_nat (length (map_to_list (customers w)));
              totalPurchases := Z.of_nat (length (purchases w));
              totalRedemptions := Z.of_nat (length (redemptions w));
              totalRevenue := float_sum (revenue_terms (purchases w));
              totalPointsEarned := earned;
              totalPointsRedeemed := redeemed;
              activePoints := Number.sub earned redeemed |}))).
Proof.
  intros Hup. unfold getStatistics, await_all3, mbind, Prog_bind.
  cbn [try_catch run bind].
  repeat (rewrite (firebase_up _ _ w Hup); cbn -[firebase fold_left Number.of_Z]).
  rewrite purchase_loop, redemption_loop. reflexivity.
Qed.

(** When the backend is out, nothing is read and the error goes to the
    console. *)
Lemma getStatistics_outage (w : World) (e : JsError) :
  outage w = Some e ->
  run firebase getStatistics w
  = (with_console w (console w ++ [("Error getting statistics:", e)]),
     Resolved (Failure (getErrorMessage e))).
Proof.
  intros Hout. unfold getStatistics, await_all3, throw_first, mbind, Prog_bind.
  cbn [try_catch run bind].
  repeat (rewrite (firebase_out _ _ w e Hout) by reflexivity;
          cbn -[firebase]).
  unfold firebase. rewrite Hout. reflexivity.
Qed.

End Statistics.




(** ** The ledger *)

Section LedgerFacts.
Import Ledger.

Lemma redeem_points_short (customerPhone tier : string) (w : World)
      (customer : CustomerDoc) (cost : Z) :
  customers w !! formatPhoneNumber customerPhone = Some customer ->
  tier_cost tier = Some cost ->
  points customer < cost ->
  redeem_points customerPhone tier w = (w, Err InsufficientPoints).
Proof.
  intros Hc Ht Hlt. unfold redeem_points. rewrite Ht, Hc.
  now rewrite (proj2 (Z.ltb_lt _ _) Hlt).
Qed.

Lemma redeem_points_enough (customerPhone tier : string) (w : World)
      (customer : CustomerDoc) (cost : Z) :
  customers w !! formatPhoneNumber customerPhone = Some customer ->
  tier_cost tier = Some cost ->
  cost <= points customer ->
  redeem_points customerPhone tier w
  = ({| customers :=
          <[formatPhoneNumber customerPhone :=
              with_points customer (points customer - cost)]> (customers w);
        purchases := purchases w;
        redemptions :=
          (redemptions w ++
           [ {| r_customerPhone := formatPhoneNumber customerPhone;
                tier := tier;
                pointsSpent := Some cost;
                r_createdAt := TimeAt (clock w) |} ])%list;
        accounts := accounts w;
        console := console w;
        clock := clock w;
        outage := outage w |},
     Ok (points customer - cost, cost)).
Proof.
  intros Hc Ht Hle. unfold redeem_points. rewrite Ht, Hc.
  now rewrite (proj2 (Z.ltb_ge _ _) Hle).
Qed.

Lemma valid_amount_nonneg (amount : spec_float) :
  Number.is_finite amount = true -> (0 <= Number.value amount)%Q ->
  valid_amount amount = true.
Proof.
  intros Hf H0. unfold valid_amount. rewrite Hf. cbn [andb].
  rewrite NumberFacts.leb_finite by (exact Hf || reflexivity).
  now apply Qle_bool_iff.
Qed.

(** The points that [award_points] credits for an amount that section
    4.1 admits: the whole number that [calculatePoints] returns. *)
Lemma award_points_earned (amount : spec_float) :
  Number.valid amount -> Number.is_finite amount = true ->
  (0 <= Number.value amount)%Q ->
  exists earned : Z,
    Number.to_Z (calculatePoints amount) = Some earned
    /\ Number.whole_as (calculatePoints amount) earned
    /\ ((Number.value amount < inject_Z (100 * 2 ^ 49))%Q ->
        earned = 5 * Qfloor (Number.value amount / 100)).
Proof.
  intros Hv Hf H0.
  destruct (NumberFacts.calculatePoints_whole amount Hv Hf H0)
    as (earned & He & _).
  exists earned. split; [exact He|].
  pose proof (NumberFacts.to_Z_spec _ _ He) as Hw. split; [exact Hw|].
  intros Hp.
  destruct (NumberFacts.calculatePoints_exact amount Hv Hf H0 Hp) as [_ E].
  destruct Hw as [_ E']. rewrite E' in E.
  exact (proj1 (inject_Z_injective _ _) E).
Qed.

End LedgerFacts.

(** C3.  For every existing customer and every valid amount (a number
    that is finite and not negative), [award_points] in one step adds
    exactly the points that [calculatePoints] returns for the amount
    (5 * floor(amount / 100) for an amount below 100 * 2^49) to the
    balance of that customer, leaving the other fields of the
    customer as they were, and appends exactly one Purchase record with
    the same amount and points, and returns the new balance; every other
    customer and every other record is as before.  When no customer
    exists for the normalized phone it fails with [CustomerNotFound] and
    the world is unchanged. *)
Theorem award_points_spec (customerPhone : string) (amount : spec_float)
        (w : World) :
  let phone := formatPhoneNumber customerPhone in
  (customers w !! phone = None ->
   Ledger.award_points customerPhone amount w
   = (w, Ledger.Err Ledger.CustomerNotFound))
  /\ (forall customer : CustomerDoc,
         customers w !! phone = Some customer ->
         Number.valid amount ->
         Number.is_finite amount = true ->
         (0 <= Number.value amount)%Q ->
         exists earned : Z,
           Number.whole_as (calculatePoints amount) earned
           /\ ((Number.value amount < inject_Z (100 * 2 ^ 49))%Q ->
               earned = 5 * Qfloor (Number.value amount / 100))
           /\ let w' := fst (Ledger.award_points customerPhone amount w) in
              snd (Ledger.award_points customerPhone amount w)
              = Ledger.Ok (points customer + earned, earned)
              /\ customers w' !! phone
                 = Some {| points := points customer + earned;
                           createdAt := createdAt customer;
                           name := name customer;
                           uid := uid customer;
                           lastLogin := lastLogin customer |}
              /\ (forall other : string,
                     other <> phone ->
                     customers w' !! other = customers w !! other)
              /\ purchases w'
                 = (purchases w ++
                    [ {| p_customerPhone := phone; amount := Some amount;
                         pointsEarned := Some earned;
                         p_createdAt := TimeAt (clock w) |} ])%list
              /\ redemptions w' = redemptions w
              /\ accounts w' = accounts w).
Proof.
  intros phone. split.
  - intros Hnone. unfold Ledger.award_points. fold phone. now rewrite Hnone.
  - intros customer Hc Hv Hf H0.
    destruct (award_points_earned amount Hv Hf H0) as (earned & He & Hw & H53).
    exists earned. split; [exact Hw|]. split; [exact H53|].
    intros w'. subst w'.
    unfold Ledger.award_points. fold phone.
    rewrite Hc, (valid_amount_nonneg amount Hf H0), He.
    cbn [negb fst snd customers purchases redemptions accounts].
    repeat split.
    + apply lookup_insert_eq.
    + intros other Hne. now apply lookup_insert_ne.
Qed.

Lemma award_points_spec_witness :
  snd (Ledger.award_points "+254 700 111 222" (Number.of_Z 250) shop)
  = Ledger.Ok (15, 10)
  /\ points <$> customers
                  (fst (Ledger.award_points "+254 700 111 222"
                          (Number.of_Z 250) shop))
                !! "+254700111222"
     = Some 15
  /\ Ledger.award_points "+254 700 999 999" (Number.of_Z 250) shop
     = (shop, Ledger.Err Ledger.CustomerNotFound).
Proof.
  destruct (award_points_spec "+254 700 111 222" (Number.of_Z 250) shop)
    as [_ H].
  destruct (award_points_spec "+254 700 999 999" (Number.of_Z 250) shop)
    as [Hnone _].
  destruct (H (wanjiru 5)) as (earned & _ & He & R & Hc & _);
    [vm_compute; reflexivity | reflexivity | reflexivity
     | vm_compute; discriminate |].
  rewrite (He ltac:(vm_compute; reflexivity)) in R, Hc.
  split; [exact R|]. split.
  - change (formatPhoneNumber "+254 700 111 222") with "+254700111222" in Hc.
    now rewrite Hc.
  - apply Hnone. vm_compute. reflexivity.
Defined.

(** C4.  The tiers cost 100 points ([small]) and 180 points ([large]).
    For every existing customer whose points are strictly below the cost
    of the requested tier, [redeem_points] fails with
    [InsufficientPoints] and the world, the balance included, is
    unchanged; so does [redeem_points(phone, "large")] for a customer
    with 179 points. *)
Theorem redeem_points_insufficient (customerPhone : string) (w : World)
        (customer : CustomerDoc) :
  customers w !! formatPhoneNumber customerPhone = Some customer ->
  (Ledger.tier_cost "small" = Some 100 /\ Ledger.tier_cost "large" = Some 180)
  /\ (forall (tier : string) (cost : Z),
         Ledger.tier_cost tier = Some cost ->
         points customer < cost ->
         Ledger.redeem_points customerPhone tier w
         = (w, Ledger.Err Ledger.InsufficientPoints))
  /\ (points customer = 179 ->
      Ledger.redeem_points customerPhone "large" w
      = (w, Ledger.Err Ledger.InsufficientPoints)).
Proof.
  intros Hc. split; [split; reflexivity|]. split.
  - intros tier cost Ht Hlt. now apply (redeem_points_short _ _ _ customer cost).
  - intros H179. apply (redeem_points_short _ _ _ customer 180);
      [assumption | reflexivity | lia].
Qed.

Lemma redeem_points_insufficient_witness :
  Ledger.redeem_points "+254 700 111 222" "large" (shop_with 179)
  = (shop_with 179, Ledger.Err Ledger.InsufficientPoints)
  /\ Ledger.redeem_points "+254 700 111 222" "small" (shop_with 99)
     = (shop_with 99, Ledger.Err Ledger.InsufficientPoints).
Proof.
  split.
  - refine (proj2 (proj2 (redeem_points_insufficient
                            "+254 700 111 222" (shop_with 179)
                            (wanjiru 179) _)) _);
      [vm_compute; reflexivity | reflexivity].
  - refine (proj1 (proj2 (redeem_points_insufficient
                            "+254 700 111 222" (shop_with 99)
                            (wanjiru 99) _))
                  "small" 100 _ _);
      [vm_compute; reflexivity | reflexivity | reflexivity].
Defined.

(** C5.  [redeem_points(phone, "small")] for a customer with exactly 100
    points succeeds: the new balance is 0 and one Redemption record with
    [pointsSpent = 100] is appended.  The same call again, on the world
    that the first one leaves, fails with [InsufficientPoints]. *)
Theorem redeem_points_small_twice (customerPhone : string) (w : World)
        (customer : CustomerDoc) :
  customers w !! formatPhoneNumber customerPhone = Some customer ->
  points customer = 100 ->
  let phone := formatPhoneNumber customerPhone in
  let w' := fst (Ledger.redeem_points customerPhone "small" w) in
  snd (Ledger.redeem_points customerPhone "small" w) = Ledger.Ok (0, 100)
  /\ points <$> customers w' !! phone = Some 0
  /\ redemptions w'
     = (redemptions w ++
        [ {| r_customerPhone := phone; tier := "small";
             pointsSpent := Some 100; r_createdAt := TimeAt (clock w) |} ])%list
  /\ purchases w' = purchases w
  /\ Ledger.redeem_points customerPhone "small" w'
     = (w', Ledger.Err Ledger.InsufficientPoints).
Proof.
  intros Hc H100 phone w'. subst w'.
  rewrite (redeem_points_enough customerPhone "small" w customer 100 Hc eq_refl)
    by lia.
  fold phone. cbn [fst snd customers redemptions purchases].
  rewrite H100. change (100 - 100) with 0.
  repeat split.
  - now rewrite lookup_insert_eq.
  - apply (redeem_points_short _ _ _ (Ledger.with_points customer 0) 100);
      [apply lookup_insert_eq | reflexivity | cbn; lia].
Qed.

Lemma redeem_points_small_twice_witness :
  snd (Ledger.redeem_points "+254 700 111 222" "small" (shop_with 100))
  = Ledger.Ok (0, 100)
  /\ snd (Ledger.redeem_points "+254 700 111 222" "small"
            (fst (Ledger.redeem_points "+254 700 111 222" "small"
                    (shop_with 100))))
     = Ledger.Err Ledger.InsufficientPoints.
Proof.
  destruct (redeem_points_small_twice "+254 700 111 222" (shop_with 100)
              (wanjiru 100))
    as (H1 & _ & _ & _ & H2); [vm_compute; reflexivity | reflexivity|].
  split; [exact H1 | now rewrite H2].
Defined.

(** ** The code on concrete inputs *)

Example formatPhoneNumber_strips :
  formatPhoneNumber "+1 (234) 567-890" = "+1234567890".
Proof. reflexivity. Qed.

Example isValidPhoneNumber_formatted :
  isValidPhoneNumber "+1 (234) 567-890" = true.
Proof. vm_compute. reflexivity. Qed.

Example isValidPhoneNumber_no_plus : isValidPhoneNumber "1234567890" = false.
Proof. vm_compute. reflexivity. Qed.

Example isValidPhoneNumber_nine_digits : isValidPhoneNumber "+123456789" = false.
Proof. vm_compute. reflexivity. Qed.

Example isValidPhoneNumber_sixteen_digits :
  isValidPhoneNumber "+1234567890123456" = false.
Proof. vm_compute. reflexivity. Qed.

Example isValidPhoneNumber_inner_plus :
  isValidPhoneNumber "+12345+67890" = false.
Proof. vm_compute. reflexivity. Qed.

Example calculatePoints_fraction :
  calculatePoints (Number.of_Q (1999 # 20)) = Number.of_Z 0.
Proof. vm_compute. reflexivity. Qed.

Example calculatePoints_minus_fifty :
  calculatePoints (Number.of_Z (-50)) = Number.of_Z (-5).
Proof. vm_compute. reflexivity. Qed.

(** Beyond 2^53 the quotient by 100 can round up to the next whole
    number. *)
Example calculatePoints_rounds_up :
  calculatePoints (Number.of_Z 56294995342131296)
  = Number.of_Z 2814749767106565.
Proof. vm_compute. reflexivity. Qed.

(** The smallest negative number: the quotient underflows to [-0]. *)
Example calculatePoints_underflow :
  calculatePoints (S754_finite true 1 (-1074)) = S754_zero true.
Proof. vm_compute. reflexivity. Qed.

Example calculatePoints_not_a_number :
  calculatePoints S754_nan = S754_nan
  /\ calculatePoints (S754_infinity false) = S754_infinity false.
Proof. vm_compute. split; reflexivity. Qed.

(** The operations of [Number] and those of [SpecFloat] on the same
    operands. *)
Example number_operations_agree :
  let a := Number.of_Z 56294995342131296 in
  let b := Number.of_Q (1 # 10) in
  let c := Number.of_Q (2 # 10) in
  let d := S754_finite true 1 (-1074) in
  let big := Number.of_Z (10 ^ 16) in
  let huge := S754_finite false 9007199254740991 971 in
  Number.div a (Number.of_Z 100) = SFdiv Number.prec Number.emax a (Number.of_Z 100)
  /\ Number.div d (Number.of_Z 100) = SFdiv Number.prec Number.emax d (Number.of_Z 100)
  /\ Number.div b c = SFdiv Number.prec Number.emax b c
  /\ Number.div c (Number.of_Z 3) = SFdiv Number.prec Number.emax c (Number.of_Z 3)
  /\ Number.add b c = SFadd Number.prec Number.emax b c
  /\ Number.add b c = S754_finite false 5404319552844596 (-54)
  /\ Number.add big (Number.of_Z 1) = SFadd Number.prec Number.emax big (Number.of_Z 1)
  /\ Number.add (Number.add big (Number.of_Z 1)) (Number.of_Z 1) = big
  /\ Number.add (Number.add (Number.of_Z 1) (Number.of_Z 1)) big
     = Number.of_Z (10 ^ 16 + 2)
  /\ Number.add huge huge = SFadd Number.prec Number.emax huge huge
  /\ Number.add huge huge = S754_infinity false
  /\ Number.sub b c = SFsub Number.prec Number.emax b c
  /\ Number.sub d (Number.of_Z 1) = SFsub Number.prec Number.emax d (Number.of_Z 1)
  /\ Number.mul b c = SFmul Number.prec Number.emax b c
  /\ Number.mul d b = SFmul Number.prec Number.emax d b
  /\ Number.mul huge (Number.of_Z 5) = SFmul Number.prec Number.emax huge (Number.of_Z 5)
  /\ Number.mul a a = SFmul Number.prec Number.emax a a.
Proof. vm_compute. repeat split; reflexivity. Qed.

(** The four operations of [Number] and those of [SpecFloat] agree on
    every pair of the numbers below: zeros, infinities, NaN, the least
    subnormal number, the greatest finite number, numbers around 2^53,
    fractions that are not numbers of the format. *)
Example number_operations_agree_on_samples :
  let samples :=
    [ S754_zero false; S754_zero true; S754_infinity false;
      S754_infinity true; S754_nan;
      S754_finite false 1 (-1074); S754_finite true 1 (-1074);
      S754_finite false 4503599627370496 (-1074);
      S754_finite false 9007199254740991 971;
      S754_finite true 9007199254740991 971;
      Number.of_Z 1; Number.of_Z (-7); Number.of_Z 100;
      Number.of_Z (2 ^ 53); Number.of_Z (2 ^ 53 + 2);
      Number.of_Z 56294995342131296; Number.of_Z 507539853988754944;
      Number.of_Q (1 # 10); Number.of_Q (2 # 10); Number.of_Q (1 # 3);
      Number.of_Q (-1999 # 20); Number.of_Q (1 # 1267650600228229401496703205376) ] in
  let pairs := x ← samples; y ← samples; [(x, y)] in
  map (fun p => Number.add (fst p) (snd p)) pairs
  = map (fun p => SFadd Number.prec Number.emax (fst p) (snd p)) pairs
  /\ map (fun p => Number.sub (fst p) (snd p)) pairs
     = map (fun p => SFsub Number.prec Number.emax (fst p) (snd p)) pairs
  /\ map (fun p => Number.mul (fst p) (snd p)) pairs
     = map (fun p => SFmul Number.prec Number.emax (fst p) (snd p)) pairs
  /\ map (fun p => Number.div (fst p) (snd p)) pairs
     = map (fun p => SFdiv Number.prec Number.emax (fst p) (snd p)) pairs
  /\ Forall Number.valid samples.
Proof.
  vm_compute. repeat split; try reflexivity.
  repeat constructor.
Qed.

Example getErrorMessage_message_as_code :
  getErrorMessage {| code := None; message := Some "not-found" |}
  = JString "Document not found.".
Proof. vm_compute. reflexivity. Qed.

Example getErrorMessage_empty_error :
  getErrorMessage {| code := None; message := None |}
  = JString "An unexpected error occurred.".
Proof. vm_compute. reflexivity. Qed.

(** A code that names a property of [Object.prototype] finds that
    property in the table. *)
Example getErrorMessage_inherited :
  getErrorMessage {| code := Some "constructor"; message := Some "boom" |}
  = JObject "constructor".
Proof. vm_compute. reflexivity. Qed.

Example trim_name : trim "  Otieno K. " = "Otieno K.".
Proof. reflexivity. Qed.

(** A valid registration reads the customer, creates the account and
    writes the customer document, in this order. *)
Example createCustomer_registers :
  let p := createCustomer "+254 700 111 333" "secret2" (Some " Otieno ") in
  let w' := fst (run firebase p shop) in
  snd (run firebase p shop)
  = Resolved (Success ({| user_uid := 1;
                          user_email := "+254700111333@butchery.local" |},
                       "+254700111333"))
  /\ customers w' !! "+254700111333"
     = Some {| points := 0; createdAt := TimeAt 7; name := "Otieno";
               uid := 1; lastLogin := TimeAt 7 |}
  /\ accounts w' !! "+254700111333@butchery.local" = Some ("secret2", 1%nat)
  /\ calls firebase p shop
     = [ any_op (GetCustomer "+254700111333");
         any_op (CreateUser "+254700111333@butchery.local" "secret2");
         any_op (SetCustomer "+254700111333"
                   {| points := 0; createdAt := ServerTimestamp;
                      name := "Otieno"; uid := 1;
                      lastLogin := ServerTimestamp |}) ].
Proof. vm_compute. repeat split. Qed.

Example createCustomer_existing :
  snd (run firebase (createCustomer "+254 700 111 222" "secret2" None) shop)
  = Resolved
      (Failure (JString "Customer with this phone number already exists")).
Proof. vm_compute. reflexivity. Qed.

(** A rejected call ends in the [catch]: the message of the table. *)
Example createCustomer_outage :
  snd (run firebase (createCustomer "+254 700 111 333" "secret2" None)
           {| customers := customers shop; purchases := purchases shop;
              redemptions := redemptions shop; accounts := accounts shop;
              console := []; clock := 7;
              outage := Some {| code := Some "permission-denied";
                                message := Some "Missing permissions." |} |})
  = Resolved
      (Failure (JString "Permission denied. Please check your credentials.")).
Proof. vm_compute. reflexivity. Qed.

(** Of two rejected reads, [Promise.all] reports the one that was
    rejected first in time, not the first of the array. *)
Example getStatistics_first_rejection :
  snd (run racing getStatistics tt)
  = Resolved
      (Failure (JString "Permission denied. Please check your credentials."))
  /\ calls racing getStatistics tt
     = [ any_op GetCustomers; any_op GetPurchases; any_op GetRedemptions;
         any_op (FirstRejected 2);
         any_op (ConsoleError "Error getting statistics:" permission_denied) ].
Proof. vm_compute. split; reflexivity. Qed.

Example award_points_negative :
  Ledger.award_points "+254 700 111 222" (Number.of_Z (-50)) shop
  = (shop, Ledger.Err Ledger.InvalidAmount).
Proof. vm_compute. reflexivity. Qed.

Example redeem_points_unknown_tier :
  Ledger.redeem_points "+254 700 111 222" "medium" (shop_with 500)
  = (shop_with 500, Ledger.Err Ledger.InvalidTier).
Proof. vm_compute. reflexivity. Qed.

(* ===================================================================== *)
(** * Further properties of [app.js] *)
(* ===================================================================== *)

(** ** Normalization and validation of phone numbers *)

Section PhoneFacts.

Lemma non_phone_char_false (c : ascii) :
  Regex.class_mem non_phone_char c = false <-> phone_char c.
Proof.
  unfold phone_char. rewrite <- RegexFacts.is_digit_spec. cbn.
  rewrite negb_false_iff, orb_true_iff, Ascii.eqb_eq. reflexivity.
Qed.

Lemma formatPhoneNumber_cons (c : ascii) (s : string) :
  formatPhoneNumber (String c s)
  = if Regex.class_mem non_phone_char c then formatPhoneNumber s
    else String c (formatPhoneNumber s).
Proof.
  unfold formatPhoneNumber. cbn [Regex.replace_class_all].
  now destruct (Regex.class_mem non_phone_char c).
Qed.

Lemma formatPhoneNumber_length (s : string) :
  (String.length (formatPhoneNumber s) <= String.length s)%nat.
Proof.
  induction s as [|c s IH]; [cbn; lia|].
  rewrite formatPhoneNumber_cons.
  destruct (Regex.class_mem non_phone_char c); cbn [String.length]; lia.
Qed.

Lemma formatPhoneNumber_fixed (s : string) :
  Forall phone_char (list_ascii_of_string s) -> formatPhoneNumber s = s.
Proof.
  induction s as [|c s IH]; intros H; [reflexivity|].
  cbn in H. inversion H as [|? ? Hc Hs]; subst.
  rewrite formatPhoneNumber_cons.
  apply non_phone_char_false in Hc. rewrite Hc. now rewrite IH.
Qed.

Lemma count_chars_format (f : ascii -> bool) (s : string) :
  (forall c, f c = true -> Regex.class_mem non_phone_char c = false) ->
  count_chars f (formatPhoneNumber s) = count_chars f s.
Proof.
  intros Hf. induction s as [|c s IH]; [reflexivity|].
  rewrite formatPhoneNumber_cons. cbn [count_chars].
  destruct (Regex.class_mem non_phone_char c) eqn:Hc.
  - destruct (f c) eqn:Hfc; [|exact IH].
    apply Hf in Hfc. congruence.
  - cbn [count_chars]. now rewrite IH.
Qed.

Lemma count_digits_format (s : string) :
  count_digits (formatPhoneNumber s) = count_digits s.
Proof.
  apply count_chars_format. intros c Hc. cbn. now rewrite Hc.
Qed.

Lemma count_plus_format (s : string) :
  count_plus (formatPhoneNumber s) = count_plus s.
Proof.
  apply count_chars_format. intros c Hc. cbn. rewrite Hc.
  now rewrite orb_true_r.
Qed.

Lemma digit_not_plus (c : ascii) :
  Regex.is_digit c = true -> Ascii.eqb c "+" = false.
Proof.
  intros H. destruct (Ascii.eqb_spec c "+"%char) as [-> |]; [|reflexivity].
  discriminate H.
Qed.

(** A string of digits has no [+] and as many digits as characters. *)
Lemma canonical_digits_counts (ds : string) :
  canonical_digits ds ->
  count_plus ds = 0%nat /\ count_digits ds = String.length ds.
Proof.
  unfold canonical_digits, count_plus, count_digits.
  induction ds as [|c ds IH]; intros H; [split; reflexivity|].
  cbn in H. inversion H as [|? ? Hc Hs]; subst.
  apply RegexFacts.is_digit_spec in Hc.
  destruct (IH Hs) as [IHp IHd]. cbn [count_chars String.length].
  rewrite Hc, (digit_not_plus c Hc), IHp, IHd. split; reflexivity.
Qed.

(** Conversely: kept characters without a [+] among them are digits. *)
Lemma no_plus_digits (s : string) :
  Forall phone_char (list_ascii_of_string s) ->
  count_plus s = 0%nat ->
  canonical_digits s.
Proof.
  unfold canonical_digits, count_plus.
  induction s as [|c s IH]; intros H Hp; [constructor|].
  cbn in H. inversion H as [|? ? Hc Hs]; subst. cbn [count_chars] in Hp.
  destruct Hc as [Hc | ->]; [|discriminate Hp].
  cbn. constructor; [exact Hc|].
  apply IH; [exact Hs|].
  destruct (Ascii.eqb c "+"); [discriminate Hp | exact Hp].
Qed.

Lemma formatPhoneNumber_kept (s : string) :
  Forall phone_char (list_ascii_of_string (formatPhoneNumber s)).
Proof.
  unfold formatPhoneNumber.
  eapply List.Forall_impl; [|apply RegexFacts.replace_class_all_empty_keeps].
  intros c Hc. now apply non_phone_char_false.
Qed.

Lemma append_length (s t : string) :
  String.length (s ++ t) = (String.length s + String.length t)%nat.
Proof.
  induction s as [|c s IH]; [reflexivity|].
  change (String c s ++ t) with (String c (s ++ t)).
  cbn [String.length]. now rewrite IH.
Qed.

Lemma append_cancel_r (s1 s2 t : string) : s1 ++ t = s2 ++ t -> s1 = s2.
Proof.
  revert s2. induction s1 as [|c s1 IH]; intros s2 H.
  - destruct s2 as [|d s2]; [reflexivity|].
    apply (f_equal String.length) in H.
    rewrite !append_length in H. cbn [String.length] in H. lia.
  - destruct s2 as [|d s2].
    + apply (f_equal String.length) in H.
      rewrite !append_length in H. cbn [String.length] in H. lia.
    + change (String c (s1 ++ t) = String d (s2 ++ t)) in H.
      inversion H; subst. f_equal. now apply IH.
Qed.

End PhoneFacts.

(** X1.  What [formatPhoneNumber] returns holds digits and [+] only, and
    is never longer than its argument. *)
Theorem formatPhoneNumber_only_phone_chars (phone : string) :
  Forall phone_char (list_ascii_of_string (formatPhoneNumber phone))
  /\ (String.length (formatPhoneNumber phone) <= String.length phone)%nat.
Proof.
  split; [apply formatPhoneNumber_kept | apply formatPhoneNumber_length].
Qed.

(** X2.  The strings that [formatPhoneNumber] leaves as they are, are
    exactly the strings of digits and [+]. *)
Theorem formatPhoneNumber_fixed_points (phone : string) :
  formatPhoneNumber phone = phone
  <-> Forall phone_char (list_ascii_of_string phone).
Proof.
  split.
  - intros E. rewrite <- E. apply formatPhoneNumber_kept.
  - apply formatPhoneNumber_fixed.
Qed.

Lemma formatPhoneNumber_fixed_points_witness :
  Forall phone_char (list_ascii_of_string "+254700111222")
  /\ ~ Forall phone_char (list_ascii_of_string "0700 111 222").
Proof.
  split.
  - apply (proj1 (formatPhoneNumber_fixed_points "+254700111222")).
    vm_compute. reflexivity.
  - intros H.
    apply (proj2 (formatPhoneNumber_fixed_points "0700 111 222")) in H.
    vm_compute in H. discriminate H.
Defined.

(** [formatPhoneNumber] works character by character: the
    normalization of a concatenation is the concatenation of the
    normalizations. *)
Theorem formatPhoneNumber_append (a b : string) :
  formatPhoneNumber (a ++ b) = formatPhoneNumber a ++ formatPhoneNumber b.
Proof.
  induction a as [|c a IH]; [reflexivity|].
  change (String c a ++ b) with (String c (a ++ b)).
  rewrite !formatPhoneNumber_cons, IH.
  now destruct (Regex.class_mem non_phone_char c).
Qed.

(** X3.  Validity read off the raw input: a string is a valid phone
    number exactly when, among its digits and [+] signs, the first is a
    [+], there is no other [+], and there are between 10 and 15 digits;
    every other character is ignored. *)
Theorem isValidPhoneNumber_raw (phone : string) :
  isValidPhoneNumber phone = true
  <-> (exists rest : string, formatPhoneNumber phone = String "+"%char rest)
      /\ count_plus phone = 1%nat
      /\ (10 <= count_digits phone <= 15)%nat.
Proof.
  unfold isValidPhoneNumber. rewrite RegexFacts.test_phone_pattern.
  rewrite <- (count_plus_format phone), <- (count_digits_format phone).
  pose proof (formatPhoneNumber_kept phone) as Hkept.
  destruct (formatPhoneNumber phone) as [|c rest].
  - split.
    + intros (ds & E & _). discriminate E.
    + intros ((r & E) & _). discriminate E.
  - split.
    + intros (ds & E & Hd & Hlen). inversion E; subst c rest.
      destruct (canonical_digits_counts ds Hd) as [Hp Hn].
      split; [now exists ds|].
      unfold count_plus, count_digits in *. cbn [count_chars].
      rewrite Hp, Hn.
      change (Regex.is_digit "+") with false. cbn [Ascii.eqb Nat.add].
      split; [reflexivity | lia].
    + intros ((r & E) & Hp & Hn). inversion E; subst c r.
      cbn in Hkept. inversion Hkept as [|? ? _ Hrest]; subst.
      unfold count_plus, count_digits in *. cbn [count_chars] in Hp, Hn.
      change (Regex.is_digit "+") with false in Hn.
      change (Ascii.eqb "+" "+") with true in Hp.
      cbn [Nat.add] in Hp, Hn.
      assert (Hd : canonical_digits rest)
        by (apply no_plus_digits; [exact Hrest | unfold count_plus; lia]).
      destruct (canonical_digits_counts rest Hd) as [_ Hc].
      unfold count_digits in Hc.
      exists rest. split; [reflexivity|]. split; [exact Hd | lia].
Qed.

Lemma isValidPhoneNumber_raw_witness :
  isValidPhoneNumber "tel: +254 (700) 111-222" = true
  /\ isValidPhoneNumber "+254 700 +111 222" <> true.
Proof.
  split.
  - apply (proj2 (isValidPhoneNumber_raw "tel: +254 (700) 111-222")).
    split; [exists "254700111222"; vm_compute; reflexivity|].
    split; [vm_compute; reflexivity | vm_compute; lia].
  - intros H.
    apply (proj1 (isValidPhoneNumber_raw "+254 700 +111 222")) in H.
    destruct H as (_ & H & _). vm_compute in H. discriminate H.
Defined.

(** Normalizing first does not change the verdict of
    [isValidPhoneNumber]: the key under which a customer is stored is
    valid whenever the number that was typed is. *)
Theorem isValidPhoneNumber_formatted_same (phone : string) :
  isValidPhoneNumber (formatPhoneNumber phone) = isValidPhoneNumber phone.
Proof.
  unfold isValidPhoneNumber, formatPhoneNumber.
  now rewrite RegexFacts.replace_class_all_empty_idem.
Qed.

(** X4.  Two phone numbers get the same sign-in email exactly when they
    normalize to the same number, and the email of a normalized number
    is the email of the number itself. *)
Theorem phoneToEmail_injective (p1 p2 : string) :
  (phoneToEmail p1 = phoneToEmail p2
   <-> formatPhoneNumber p1 = formatPhoneNumber p2)
  /\ phoneToEmail (formatPhoneNumber p1) = phoneToEmail p1.
Proof.
  unfold phoneToEmail. split; [split|].
  - apply append_cancel_r.
  - now intros ->.
  - unfold formatPhoneNumber.
    now rewrite RegexFacts.replace_class_all_empty_idem.
Qed.

(** ** More on [calculatePoints] *)

Section PointsFacts.

Lemma floor_monotone (a b : Q) :
  (a <= b)%Q -> Qfloor (a / 100) <= Qfloor (b / 100).
Proof.
  intros H.
  destruct (floor_bounds a) as [La _]. destruct (floor_bounds b) as [_ Ub].
  assert (inject_Z (100 * Qfloor (a / 100))
          < inject_Z (100 * (Qfloor (b / 100) + 1)))%Q by lra.
  rewrite <- Zlt_Qlt in *. lia.
Qed.

Lemma floor_sum (a b : Q) :
  Qfloor (a / 100) + Qfloor (b / 100) <= Qfloor ((a + b) / 100)
  /\ Qfloor ((a + b) / 100) <= Qfloor (a / 100) + Qfloor (b / 100) + 1.
Proof.
  destruct (floor_bounds a) as [La Ua]. destruct (floor_bounds b) as [Lb Ub].
  destruct (floor_bounds (a + b)) as [Ls Us].
  set (fa := Qfloor (a / 100)) in *. set (fb := Qfloor (b / 100)) in *.
  set (fs := Qfloor ((a + b) / 100)) in *.
  assert (H1 : 100 * (fa + fb) < 100 * (fs + 1)).
  { rewrite Zlt_Qlt.
    repeat (rewrite inject_Z_mult in * || rewrite inject_Z_plus in * ).
    change (inject_Z 1) with 1%Q in *. lra. }
  assert (H2 : 100 * fs < 100 * (fa + fb + 2)).
  { rewrite Zlt_Qlt.
    repeat (rewrite inject_Z_mult in * || rewrite inject_Z_plus in * ).
    change (inject_Z 1) with 1%Q in *. change (inject_Z 2) with 2%Q. lra. }
  lia.
Qed.

Lemma add_valid (x y : spec_float) :
  Number.valid x -> Number.valid y -> Number.valid (Number.add x y).
Proof.
  intros Hx Hy.
  destruct x as [sx|sx| |sx mx ex], y as [sy|sy| |sy my ey];
    try (apply NumberFacts.round_valid);
    repeat match goal with s : bool |- _ => destruct s end;
    assumption || reflexivity.
Qed.

End PointsFacts.

(** X5.  [calculatePoints] is monotone: a larger amount never earns
    fewer points, whatever the two numbers are (the infinities
    included). *)
Theorem calculatePoints_monotone (a b : spec_float) :
  Number.leb a b = true ->
  Number.leb (calculatePoints a) (calculatePoints b) = true.
Proof. apply NumberFacts.calculatePoints_mono. Qed.

Lemma calculatePoints_monotone_witness :
  Number.leb (calculatePoints (Number.of_Q (1999 # 20)))
             (calculatePoints (Number.of_Z 100)) = true.
Proof. apply calculatePoints_monotone. vm_compute. reflexivity. Defined.

(** X6.  Splitting a purchase never earns more points than the whole:
    for amounts [a] and [b] that are whole numbers, not negative, with
    a sum below 2^53, the points for [a + b] are at least the points
    for [a] plus the points for [b], and at most 5 more. *)
Theorem calculatePoints_split (a b : spec_float) (m n : Z) :
  Number.valid a -> Number.valid b ->
  Number.whole_as a m -> Number.whole_as b n ->
  0 <= m -> 0 <= n -> m + n < 2 ^ 53 ->
  exists pa pb ps : Z,
    Number.whole_as (calculatePoints a) pa
    /\ Number.whole_as (calculatePoints b) pb
    /\ Number.whole_as (calculatePoints (Number.add a b)) ps
    /\ pa + pb <= ps <= pa + pb + 5.
Proof.
  intros Va Vb [Fa Ea] [Fb Eb] Hm Hn Hs.
  assert (Bound : forall k : Z, 0 <= k -> k < 2 ^ 53 ->
                    (0 <= inject_Z k)%Q
                    /\ (inject_Z k < inject_Z (100 * 2 ^ 49))%Q).
  { intros k Hk0 Hk.
    split; [change 0%Q with (inject_Z 0); rewrite <- Zle_Qle
           | rewrite <- Zlt_Qlt]; lia. }
  destruct (NumberFacts.add_exact a b (m + n) Fa Fb) as [Fs Es];
    [rewrite Ea, Eb, inject_Z_plus; reflexivity | lia |].
  destruct (Bound m Hm ltac:(lia)) as [Ha0 Ha53].
  destruct (Bound n Hn ltac:(lia)) as [Hb0 Hb53].
  destruct (Bound (m + n) ltac:(lia) Hs) as [Hs0 Hs53].
  rewrite <- Ea in Ha0, Ha53. rewrite <- Eb in Hb0, Hb53.
  rewrite <- Es in Hs0, Hs53.
  pose proof (NumberFacts.calculatePoints_exact a Va Fa Ha0 Ha53) as Pa.
  pose proof (NumberFacts.calculatePoints_exact b Vb Fb Hb0 Hb53) as Pb.
  pose proof (NumberFacts.calculatePoints_exact (Number.add a b)
                (add_valid a b Va Vb) Fs Hs0 Hs53) as Ps.
  exists (5 * Qfloor (Number.value a / 100)),
         (5 * Qfloor (Number.value b / 100)),
         (5 * Qfloor (Number.value (Number.add a b) / 100)).
  split; [exact Pa|]. split; [exact Pb|]. split; [exact Ps|].
  assert (E : (Number.value (Number.add a b) / 100
               == (Number.value a + Number.value b) / 100)%Q).
  { rewrite Es, Ea, Eb, inject_Z_plus. reflexivity. }
  rewrite (Qfloor_comp _ _ E).
  destruct (floor_sum (Number.value a) (Number.value b)) as [H1 H2]. lia.
Qed.

Lemma calculatePoints_split_witness :
  exists pa pb ps : Z,
    Number.whole_as (calculatePoints (Number.of_Z 150)) pa
    /\ Number.whole_as (calculatePoints (Number.of_Z 50)) pb
    /\ Number.whole_as
         (calculatePoints (Number.add (Number.of_Z 150) (Number.of_Z 50))) ps
    /\ pa + pb <= ps <= pa + pb + 5.
Proof.
  apply (calculatePoints_split (Number.of_Z 150) (Number.of_Z 50) 150 50);
    try reflexivity; try lia; vm_compute; split; reflexivity.
Defined.

(** ** More on [getErrorMessage] *)

Section ErrorFacts.

Lemma js_or_truthy (a b : JsValue) :
  truthy b = true -> truthy (js_or a b) = true.
Proof. intros H. unfold js_or. destruct (truthy a) eqn:E; assumption. Qed.

Lemma lookup_key_message (error : JsError) (k : string) :
  code error = None \/ code error = Some "" ->
  message error = Some k ->
  lookup_key error = k.
Proof.
  intros Hc Hm. unfold lookup_key, js_or. rewrite Hm.
  destruct Hc as [-> | ->]; reflexivity.
Qed.

Lemma is_inherited_not_listed (key : string) :
  is_inherited key = true -> errorMessages !! key = None.
Proof.
  intros H. destruct (errorMessages !! key) as [m|] eqn:E; [|reflexivity].
  apply errorMessages_listed in E. cbn in E.
  repeat (destruct E as [E | E]; [inversion E; subst; discriminate H|]).
  destruct E.
Qed.

End ErrorFacts.

(** X7.  [getErrorMessage] always has something to show: whatever the
    error, the result is neither [undefined] nor the empty string. *)
Theorem getErrorMessage_truthy (error : JsError) :
  truthy (getErrorMessage error) = true.
Proof. unfold getErrorMessage. now apply js_or_truthy. Qed.

(** X8.  An error without a code (or with an empty one) is looked up by
    its message: when the message is one of the recognized kinds, the
    text of that kind is returned instead of the message. *)
Theorem getErrorMessage_message_key (error : JsError) (k m : string) :
  code error = None \/ code error = Some "" ->
  message error = Some k ->
  errorMessages !! k = Some m ->
  getErrorMessage error = JString m.
Proof.
  intros Hc Hm Hk. apply getErrorMessage_of_key.
  now rewrite (lookup_key_message error k Hc Hm).
Qed.

Lemma getErrorMessage_message_key_witness :
  getErrorMessage {| code := Some ""; message := Some "permission-denied" |}
  = JString "Permission denied. Please check your credentials.".
Proof.
  apply (getErrorMessage_message_key _ "permission-denied");
    [right; reflexivity | reflexivity | vm_compute; reflexivity].
Defined.

(** X9.  A code that is the name of a property which the table inherits
    from [Object.prototype] ([constructor], [toString], ...) finds that
    property: the result is then an object, not a message. *)
Theorem getErrorMessage_inherited_key (error : JsError) :
  is_inherited (lookup_key error) = true ->
  getErrorMessage error = JObject (lookup_key error).
Proof.
  intros H. unfold getErrorMessage. fold (lookup_key error).
  unfold errorMessages_get.
  now rewrite (is_inherited_not_listed _ H), H.
Qed.

Lemma getErrorMessage_inherited_key_witness :
  getErrorMessage {| code := Some "toString"; message := Some "boom" |}
  = JObject "toString".
Proof.
  apply (getErrorMessage_inherited_key
           {| code := Some "toString"; message := Some "boom" |}).
  reflexivity.
Defined.

(** ** More on [createCustomer] *)

Section CreateCustomerFacts.

Lemma run_returns {W A : Type}
      (perform : forall X : Type, Op X -> W -> W * Outcome X) (p : Prog A) :
  Returns p -> forall w : W, exists a : A, snd (run perform p w) = Resolved a.
Proof.
  intros Hp. induction Hp as [a | X op k _ IH]; intros w; cbn [run].
  - now exists a.
  - destruct (perform X op w) as [w' o]. apply IH.
Qed.

(** A [catch] that logs and returns makes the whole body return. *)
Lemma try_catch_returns {A : Type} (p : Prog A) (label : string)
      (f : JsError -> A) :
  Returns (try_catch p (fun error =>
                          _ ← console_error label error; Ret (f error))).
Proof.
  induction p as [a | e | X op k IH]; cbn [try_catch].
  - constructor.
  - unfold console_error, mbind, Prog_bind. cbn [bind].
    constructor. intros _. constructor.
  - constructor. exact IH.
Qed.

(** The body of [createCustomer] once both checks have passed. *)
Lemma createCustomer_checked (phoneNumber password : string)
      (name : option string) :
  isValidPhoneNumber phoneNumber = true ->
  (6 <= String.length password)%nat ->
  createCustomer phoneNumber password name
  = Call (GetCustomer (formatPhoneNumber phoneNumber))
      (fun o =>
         try_catch
           (existingCustomer ← settle o;
            if bool_decide (is_Some existingCustomer) then
              Ret (Failure
                     (JString "Customer with this phone number already exists"))
            else
              user ← await (CreateUser
                              (formatPhoneNumber phoneNumber ++ "@butchery.local")
                              password);
              _ ← await (SetCustomer (formatPhoneNumber phoneNumber)
                           (new_customer name user));
              Ret (Success (user, formatPhoneNumber phoneNumber)))
           (fun error =>
              _ ← console_error "Error creating customer:" error;
              Ret (Failure (getErrorMessage error)))).
Proof.
  intros Hv Hp. unfold createCustomer. rewrite Hv.
  rewrite (proj2 (Nat.ltb_ge _ _) Hp). cbn [negb].
  unfold phoneToEmail, formatPhoneNumber.
  rewrite RegexFacts.replace_class_all_empty_idem. reflexivity.
Qed.

End CreateCustomerFacts.

(** X10.  [createCustomer] and [getStatistics] never throw to their
    caller: under every backend whose rejections carry an error object,
    whatever it answers and whatever the input, the promise they return
    is resolved (with a success or with a failure reply), never
    rejected. *)
Theorem helpers_never_reject {W : Type}
        (perform : forall X : Type, Op X -> W -> W * Outcome X) (w : W)
        (phoneNumber password : string) (name : option string) :
  (exists reply,
      snd (run perform (createCustomer phoneNumber password name) w)
      = Resolved reply)
  /\ (exists reply, snd (run perform getStatistics w) = Resolved reply).
Proof.
  split; apply run_returns.
  - unfold createCustomer. apply try_catch_returns.
  - unfold getStatistics. apply try_catch_returns.
Qed.

(** X11.  When a customer document already exists under the normalized
    phone, [createCustomer] stops after reading it: it reports that the
    customer exists, and creates no account and writes no document. *)
Theorem createCustomer_existing_customer {W : Type}
        (perform : forall X : Type, Op X -> W -> W * Outcome X) (w w1 : W)
        (phoneNumber password : string) (name : option string)
        (existing : CustomerDoc) :
  isValidPhoneNumber phoneNumber = true ->
  (6 <= String.length password)%nat ->
  perform _ (GetCustomer (formatPhoneNumber phoneNumber)) w
  = (w1, Resolved (Some existing)) ->
  run perform (createCustomer phoneNumber password name) w
  = (w1, Resolved
           (Failure (JString "Customer with this phone number already exists")))
  /\ calls perform (createCustomer phoneNumber password name) w
     = [any_op (GetCustomer (formatPhoneNumber phoneNumber))].
Proof.
  intros Hv Hp Hget. rewrite (createCustomer_checked _ _ _ Hv Hp).
  cbn [run calls]. rewrite Hget. split; reflexivity.
Qed.

Lemma createCustomer_existing_customer_witness :
  run firebase (createCustomer "+254 700 111 222" "secret9" (Some "W")) shop
  = (shop, Resolved
             (Failure
                (JString "Customer with this phone number already exists"))).
Proof.
  refine (proj1 (createCustomer_existing_customer firebase shop shop
                   "+254 700 111 222" "secret9" (Some "W") (wanjiru 5) _ _ _)).
  - vm_compute. reflexivity.
  - cbn. lia.
  - vm_compute. reflexivity.
Defined.

(** X12.  When the account is created but the write of the customer
    document is rejected, [createCustomer] reports the message for that
    error and makes no further backend call: the account that was just
    created is not removed. *)
Theorem createCustomer_no_rollback {W : Type}
        (perform : forall X : Type, Op X -> W -> W * Outcome X)
        (w w1 w2 w3 : W)
        (phoneNumber password : string) (name : option string)
        (user : User) (e : JsError) :
  isValidPhoneNumber phoneNumber = true ->
  (6 <= String.length password)%nat ->
  let phone := formatPhoneNumber phoneNumber in
  let email := phone ++ "@butchery.local" in
  perform _ (GetCustomer phone) w = (w1, Resolved None) ->
  perform _ (CreateUser email password) w1 = (w2, Resolved user) ->
  perform _ (SetCustomer phone (new_customer name user)) w2
  = (w3, Rejected e) ->
  snd (run perform (createCustomer phoneNumber password name) w)
  = Resolved (Failure (getErrorMessage e))
  /\ calls perform (createCustomer phoneNumber password name) w
     = [ any_op (GetCustomer phone);
         any_op (CreateUser email password);
         any_op (SetCustomer phone (new_customer name user));
         any_op (ConsoleError "Error creating customer:" e) ].
Proof.
  intros Hv Hp phone email Hget Hcreate Hset.
  rewrite (createCustomer_checked _ _ _ Hv Hp). fold phone. fold email.
  cbn [run calls]. rewrite Hget. cbn. rewrite Hcreate. cbn. rewrite Hset.
  cbn. destruct (perform unit _ w3). split; reflexivity.
Qed.

(** X13.  When Firebase Auth rejects the registration, [createCustomer]
    reports the message for that error and never writes a customer
    document; for [auth/email-already-in-use] the message says that an
    account with this phone number exists. *)
Theorem createCustomer_auth_rejected {W : Type}
        (perform : forall X : Type, Op X -> W -> W * Outcome X)
        (w w1 w2 : W)
        (phoneNumber password : string) (name : option string)
        (e : JsError) :
  isValidPhoneNumber phoneNumber = true ->
  (6 <= String.length password)%nat ->
  let phone := formatPhoneNumber phoneNumber in
  let email := phone ++ "@butchery.local" in
  perform _ (GetCustomer phone) w = (w1, Resolved None) ->
  perform _ (CreateUser email password) w1 = (w2, Rejected e) ->
  snd (run perform (createCustomer phoneNumber password name) w)
  = Resolved (Failure (getErrorMessage e))
  /\ calls perform (createCustomer phoneNumber password name) w
     = [ any_op (GetCustomer phone);
         any_op (CreateUser email password);
         any_op (ConsoleError "Error creating customer:" e) ]
  /\ (code e = Some "auth/email-already-in-use" ->
      getErrorMessage e
      = JString "An account with this phone number already exists.").
Proof.
  intros Hv Hp phone email Hget Hcreate.
  rewrite (createCustomer_checked _ _ _ Hv Hp). fold phone. fold email.
  cbn [run calls]. rewrite Hget. cbn. rewrite Hcreate. cbn.
  destruct (perform unit _ w2). repeat split.
  intros Hc. apply getErrorMessage_of_key.
  rewrite (lookup_key_code e "auth/email-already-in-use" Hc); [|discriminate].
  vm_compute. reflexivity.
Qed.

Lemma createCustomer_no_rollback_witness :
  snd (run firebase_write_denied
           (createCustomer "+254 700 111 333" "secret2" (Some "Otieno")) shop)
  = Resolved
      (Failure (JString "Permission denied. Please check your credentials.")).
Proof.
  refine (proj1 (createCustomer_no_rollback firebase_write_denied
                   shop shop _ _ "+254 700 111 333" "secret2" (Some "Otieno")
                   _ permission_denied _ _ _ _ _)).
  - vm_compute. reflexivity.
  - cbn. lia.
  - vm_compute. reflexivity.
  - reflexivity.
  - reflexivity.
Defined.

Lemma createCustomer_auth_rejected_witness :
  snd (run firebase
           (createCustomer "+254 700 111 222" "secret2" None)
           shop_without_documents)
  = Resolved
      (Failure (JString "An account with this phone number already exists.")).
Proof.
  refine (proj1 (createCustomer_auth_rejected firebase
                   shop_without_documents shop_without_documents
                   shop_without_documents
                   "+254 700 111 222" "secret2" None email_in_use _ _ _ _)).
  - vm_compute. reflexivity.
  - cbn. lia.
  - vm_compute. reflexivity.
  - vm_compute. reflexivity.
Defined.

Section CreateCustomerFirebase.

Variables (phoneNumber password : string) (name : option string) (w : World).

Let phone : string := formatPhoneNumber phoneNumber.
Let email : string := phone ++ "@butchery.local".
Let user : User := {| user_uid := size (accounts w); user_email := email |}.

(** The world after a registration that went through. *)
Let registered : World :=
  with_customers
    (with_accounts w (<[email := (password, size (accounts w))]> (accounts w)))
    (<[phone := stored (clock w) (new_customer name user)]> (customers w)).

Lemma createCustomer_firebase_success :
  isValidPhoneNumber phoneNumber = true ->
  (6 <= String.length password)%nat ->
  outage w = None ->
  customers w !! phone = None ->
  accounts w !! email = None ->
  run firebase (createCustomer phoneNumber password name) w
  = (registered, Resolved (Success (user, phone))).
Proof.
  intros Hv Hp Hup Hdoc Hacc.
  rewrite (createCustomer_checked _ _ _ Hv Hp). fold phone. fold email.
  cbn [run]. rewrite (firebase_up _ _ w Hup). cbn [serve]. rewrite Hdoc.
  cbn -[firebase]. rewrite (firebase_up _ _ w Hup). cbn [serve].
  rewrite Hacc. rewrite (proj2 (Nat.ltb_ge _ _) Hp).
  cbn -[firebase with_accounts with_customers].
  rewrite firebase_up by exact Hup. reflexivity.
Qed.

(** In every other case the records and the accounts are as before. *)
Lemma createCustomer_firebase_cases :
  let w' := fst (run firebase (createCustomer phoneNumber password name) w) in
  same_records w w'
  \/ (customers w !! phone = None /\ accounts w !! email = None
      /\ w' = registered).
Proof.
  intros w'. subst w'.
  destruct (isValidPhoneNumber phoneNumber) eqn:Hv;
    [|left; rewrite (createCustomer_bad_phone _ _ _ Hv); repeat split].
  destruct (Nat.ltb_spec (String.length password) 6) as [Hp | Hp];
    [left; rewrite (createCustomer_short_password _ _ _ Hv Hp); repeat split|].
  destruct (outage w) as [e|] eqn:Hout.
  - left. rewrite (createCustomer_checked _ _ _ Hv Hp).
    cbn [run]. rewrite (firebase_out _ _ w e Hout) by reflexivity.
    cbn -[firebase]. unfold firebase. rewrite Hout. repeat split.
  - destruct (customers w !! phone) as [c|] eqn:Hdoc.
    + left. rewrite (createCustomer_checked _ _ _ Hv Hp). fold phone.
      cbn [run]. rewrite (firebase_up _ _ w Hout). cbn [serve].
      rewrite Hdoc. repeat split.
    + destruct (accounts w !! email) as [a|] eqn:Hacc.
      * left. rewrite (createCustomer_checked _ _ _ Hv Hp).
        fold phone. fold email.
        cbn [run]. rewrite (firebase_up _ _ w Hout). cbn [serve].
        rewrite Hdoc. cbn -[firebase].
        rewrite (firebase_up _ _ w Hout). cbn [serve]. rewrite Hacc.
        cbn -[firebase]. unfold firebase. rewrite Hout. repeat split.
      * right. rewrite createCustomer_firebase_success by assumption.
        repeat split.
Qed.

End CreateCustomerFirebase.

(** X14.  A registration that goes through stores the new customer
    under the normalized phone with 0 points, the trimmed name and the
    uid of the new account, registers the sign-in email
    [<normalized phone>@butchery.local] with the password, and returns
    the user with the normalized phone. *)
Theorem createCustomer_registers_customer (phoneNumber password : string)
        (name : option string) (w : World) :
  isValidPhoneNumber phoneNumber = true ->
  (6 <= String.length password)%nat ->
  outage w = None ->
  customers w !! formatPhoneNumber phoneNumber = None ->
  accounts w !! phoneToEmail phoneNumber = None ->
  let r := run firebase (createCustomer phoneNumber password name) w in
  exists user : User,
    snd r = Resolved (Success (user, formatPhoneNumber phoneNumber))
    /\ user_email user = phoneToEmail phoneNumber
    /\ customers (fst r) !! formatPhoneNumber phoneNumber
       = Some {| points := 0; createdAt := TimeAt (clock w);
                 name := trim (default "" name); uid := user_uid user;
                 lastLogin := TimeAt (clock w) |}
    /\ accounts (fst r) !! phoneToEmail phoneNumber
       = Some (password, user_uid user)
    /\ purchases (fst r) = purchases w
    /\ redemptions (fst r) = redemptions w.
Proof.
  intros Hv Hp Hup Hdoc Hacc r. subst r.
  rewrite createCustomer_firebase_success by assumption.
  eexists. split; [reflexivity|].
  cbn [fst snd with_customers with_accounts customers accounts purchases
       redemptions user_email user_uid].
  repeat split; apply lookup_insert_eq.
Qed.

Lemma createCustomer_registers_customer_witness :
  exists user : User,
    customers (fst (run firebase
                        (createCustomer "+254 700 111 333" "secret2"
                                        (Some " Otieno "))
                        shop))
    !! "+254700111333"
    = Some {| points := 0; createdAt := TimeAt 7; name := "Otieno";
              uid := user_uid user; lastLogin := TimeAt 7 |}.
Proof.
  destruct (createCustomer_registers_customer
              "+254 700 111 333" "secret2" (Some " Otieno ") shop)
    as (user & _ & _ & H & _).
  - vm_compute. reflexivity.
  - cbn. lia.
  - reflexivity.
  - vm_compute. reflexivity.
  - vm_compute. reflexivity.
  - exists user. exact H.
Defined.

(** X15.  [createCustomer] never touches what is already stored:
    whatever the input, every customer document and every account that
    existed before is still there unchanged afterwards, balance
    included, and so are all purchases and redemptions. *)
Theorem createCustomer_preserves_existing (phoneNumber password : string)
        (name : option string) (w : World) :
  let w' := fst (run firebase (createCustomer phoneNumber password name) w) in
  (forall (q : string) (c : CustomerDoc),
      customers w !! q = Some c -> customers w' !! q = Some c)
  /\ (forall (e : string) (a : string * nat),
         accounts w !! e = Some a -> accounts w' !! e = Some a)
  /\ purchases w' = purchases w
  /\ redemptions w' = redemptions w.
Proof.
  intros w'. subst w'.
  destruct (createCustomer_firebase_cases phoneNumber password name w)
    as [(Hc & Hp & Hr & Ha) | (Hdoc & Hacc & ->)].
  - rewrite Hc, Hp, Hr, Ha. repeat split; auto.
  - cbn [with_customers with_accounts customers accounts purchases
         redemptions].
    repeat split.
    + intros q c Hq. rewrite lookup_insert_ne; [exact Hq | congruence].
    + intros e a He. rewrite lookup_insert_ne; [exact He | congruence].
Qed.

Lemma createCustomer_preserves_existing_witness :
  customers
    (fst (run firebase
            (createCustomer "+254 700 111 333" "secret2" (Some "Otieno"))
            shop))
  !! "+254700111222"
  = Some (wanjiru 5).
Proof.
  apply (proj1 (createCustomer_preserves_existing
                  "+254 700 111 333" "secret2" (Some "Otieno") shop)).
  vm_compute. reflexivity.
Defined.

(** ** More on [getStatistics] *)

Section StatisticsFacts.

Lemma sum_pointsEarned_perm (ps qs : list PurchaseDoc) :
  Permutation ps qs -> sum_pointsEarned ps = sum_pointsEarned qs.
Proof.
  unfold sum_pointsEarned.
  induction 1 as [| d ps qs _ IH | d d' ps | ps qs rs _ IH1 _ IH2];
    cbn [fold_right]; lia.
Qed.

Lemma sum_pointsSpent_perm (rs ss : list RedemptionDoc) :
  Permutation rs ss -> sum_pointsSpent rs = sum_pointsSpent ss.
Proof.
  unfold sum_pointsSpent.
  induction 1 as [| d ps qs _ IH | d d' ps | ps qs rs' _ IH1 _ IH2];
    cbn [fold_right]; lia.
Qed.

Lemma Zsum_abs_perm (xs ys : list Z) :
  Permutation xs ys -> Zsum_abs xs = Zsum_abs ys.
Proof.
  unfold Zsum_abs.
  induction 1 as [| z xs ys _ IH | z z' xs | xs ys zs _ IH1 _ IH2];
    cbn [fold_right]; lia.
Qed.

(** While the backend answers and the absolute values of the point
    fields total at most 2^53, the point totals are the exact sums. *)
Lemma stats_of_up (w : World) :
  outage w = None ->
  Zsum_abs (earned_fields (purchases w))
  + Zsum_abs (spent_fields (redemptions w)) <= 2 ^ 53 ->
  exists st : Stats,
    stats_of w = Some st
    /\ Number.whole_as (totalPointsEarned st) (sum_pointsEarned (purchases w))
    /\ Number.whole_as (totalPointsRedeemed st)
                       (sum_pointsSpent (redemptions w))
    /\ Number.whole_as (activePoints st)
                       (sum_pointsEarned (purchases w)
                        - sum_pointsSpent (redemptions w)).
Proof.
  intros Hup Hb. unfold stats_of. rewrite (getStatistics_run w Hup).
  cbn [snd]. eexists. split; [reflexivity|].
  cbn [totalPointsEarned totalPointsRedeemed activePoints].
  pose proof (NumberFacts.Zsum_abs_nonneg (earned_fields (purchases w))).
  pose proof (NumberFacts.Zsum_abs_nonneg (spent_fields (redemptions w))).
  pose proof (NumberFacts.Zsum_abs_bound (earned_fields (purchases w))).
  pose proof (NumberFacts.Zsum_abs_bound (spent_fields (redemptions w))).
  assert (He : Number.whole_as (float_sum (earned_terms (purchases w)))
                               (sum_pointsEarned (purchases w))).
  { rewrite sum_pointsEarned_Zsum.
    apply float_sum_exact; [apply earned_terms_whole|]; lia. }
  assert (Hr : Number.whole_as (float_sum (spent_terms (redemptions w)))
                               (sum_pointsSpent (redemptions w))).
  { rewrite sum_pointsSpent_Zsum.
    apply float_sum_exact; [apply spent_terms_whole|]; lia. }
  split; [exact He|]. split; [exact Hr|].
  destruct He as [Fe Ve], Hr as [Fr Vr].
  apply NumberFacts.sub_exact; [exact Fe | exact Fr | |].
  - rewrite Ve, Vr. unfold Z.sub. rewrite inject_Z_plus, inject_Z_opp.
    reflexivity.
  - rewrite sum_pointsEarned_Zsum, sum_pointsSpent_Zsum. lia.
Qed.

End StatisticsFacts.

(** When the reads are rejected, [getStatistics] returns no
    statistics: it logs the error on the console, reports the message
    for it, and leaves every record as it was. *)
Theorem getStatistics_reads_rejected (w : World) (e : JsError) :
  outage w = Some e ->
  run firebase getStatistics w
  = (with_console w (console w ++ [("Error getting statistics:", e)]),
     Resolved (Failure (getErrorMessage e)))
  /\ stats_of w = None.
Proof.
  intros Hout. unfold stats_of.
  rewrite (getStatistics_outage w e Hout). split; reflexivity.
Qed.

Lemma getStatistics_reads_rejected_witness :
  stats_of {| customers := customers shop; purchases := purchases shop;
              redemptions := redemptions shop; accounts := accounts shop;
              console := []; clock := 7;
              outage := Some permission_denied |}
  = None.
Proof.
  refine (proj2 (getStatistics_reads_rejected _ permission_denied _)).
  reflexivity.
Defined.

(** X16.  When the point fields are integers whose absolute values
    total at most 2^53, the point totals of [getStatistics] do not
    depend on the order in which the snapshots list the documents: two
    stores with the same purchases and redemptions, in any order, give
    the same whole numbers for [totalPointsEarned],
    [totalPointsRedeemed] and [activePoints]. *)
Theorem getStatistics_order_independent (w1 w2 : World) :
  outage w1 = None -> outage w2 = None ->
  Permutation (purchases w1) (purchases w2) ->
  Permutation (redemptions w1) (redemptions w2) ->
  Zsum_abs (earned_fields (purchases w1))
  + Zsum_abs (spent_fields (redemptions w1)) <= 2 ^ 53 ->
  exists (st1 st2 : Stats) (earned redeemed : Z),
    stats_of w1 = Some st1 /\ stats_of w2 = Some st2
    /\ Number.whole_as (totalPointsEarned st1) earned
    /\ Number.whole_as (totalPointsEarned st2) earned
    /\ Number.whole_as (totalPointsRedeemed st1) redeemed
    /\ Number.whole_as (totalPointsRedeemed st2) redeemed
    /\ Number.whole_as (activePoints st1) (earned - redeemed)
    /\ Number.whole_as (activePoints st2) (earned - redeemed).
Proof.
  intros Hup1 Hup2 Hp Hr Hb.
  assert (Hb2 : Zsum_abs (earned_fields (purchases w2))
                + Zsum_abs (spent_fields (redemptions w2)) <= 2 ^ 53).
  { rewrite <- (Zsum_abs_perm (earned_fields (purchases w1))
                              (earned_fields (purchases w2)))
      by (unfold earned_fields; now apply Permutation_map).
    rewrite <- (Zsum_abs_perm (spent_fields (redemptions w1))
                              (spent_fields (redemptions w2)))
      by (unfold spent_fields; now apply Permutation_map).
    exact Hb. }
  destruct (stats_of_up w1 Hup1 Hb) as (st1 & E1 & He1 & Hr1 & Ha1).
  destruct (stats_of_up w2 Hup2 Hb2) as (st2 & E2 & He2 & Hr2 & Ha2).
  rewrite <- (sum_pointsEarned_perm _ _ Hp) in He2, Ha2.
  rewrite <- (sum_pointsSpent_perm _ _ Hr) in Hr2, Ha2.
  exists st1, st2, (sum_pointsEarned (purchases w1)),
         (sum_pointsSpent (redemptions w1)).
  repeat split; assumption || apply He1 || apply He2 || apply Hr1
                || apply Hr2 || apply Ha1 || apply Ha2.
Qed.

Lemma getStatistics_order_independent_witness :
  exists (st1 st2 : Stats) (active : Z),
    stats_of shop = Some st1
    /\ stats_of {| customers := customers shop;
                   purchases := rev (purchases shop);
                   redemptions := redemptions shop; accounts := accounts shop;
                   console := []; clock := 7; outage := None |}
       = Some st2
    /\ Number.whole_as (activePoints st1) active
    /\ Number.whole_as (activePoints st2) active.
Proof.
  destruct (getStatistics_order_independent shop
              {| customers := customers shop;
                 purchases := rev (purchases shop);
                 redemptions := redemptions shop; accounts := accounts shop;
                 console := []; clock := 7; outage := None |})
    as (st1 & st2 & earned & redeemed & E1 & E2 & _ & _ & _ & _ & Ha1 & Ha2).
  - reflexivity.
  - reflexivity.
  - apply Permutation_rev.
  - apply Permutation_refl.
  - vm_compute. discriminate.
  - exists st1, st2, (earned - redeemed).
    split; [exact E1|]. split; [exact E2|]. split; [exact Ha1 | exact Ha2].
Defined.

(** ** [setButtonLoading] *)

(** X17.  Loading and then unloading a button restores it: the text is
    the one it had (or [Submit] when it had none), the button is enabled
    and nothing is left in its [dataset]. *)
Theorem setButtonLoading_round_trip (button : Button) :
  setButtonLoading (setButtonLoading button true None) false None
  = {| textContent :=
         if String.eqb (textContent button) "" then "Submit"
         else textContent button;
       disabled := false;
       dataset_originalText := None |}.
Proof.
  unfold setButtonLoading. cbn [dataset_originalText string_or].
  reflexivity.
Qed.

(** X18.  Only the last call with [loading = true] is remembered: a
    button set loading twice comes back with the text [Loading...], and a
    button that was never set loading comes back with [Submit], whatever
    text it had. *)
Theorem setButtonLoading_forgets (button : Button) :
  textContent
    (setButtonLoading
       (setButtonLoading (setButtonLoading button true None) true None)
       false None)
  = "Loading..."
  /\ (dataset_originalText button = None ->
      textContent (setButtonLoading button false None) = "Submit").
Proof.
  split; [reflexivity|].
  intros H. unfold setButtonLoading. cbn. now rewrite H.
Qed.

Lemma setButtonLoading_forgets_witness :
  textContent
    (setButtonLoading
       {| textContent := "Award points"; disabled := false;
          dataset_originalText := None |} false None)
  = "Submit".
Proof.
  refine (proj2 (setButtonLoading_forgets
                   {| textContent := "Award points"; disabled := false;
                      dataset_originalText := None |}) _).
  reflexivity.
Defined.

(** ** [loginCustomer] *)

Section SessionFacts.
Import Session.

Lemma script_run_returns {S A : Type}
      (perform : forall X : Type, Request X -> S -> S * Outcome X)
      (p : Script A) :
  Session.Returns p ->
  forall s : S, exists a : A, snd (Session.run perform p s) = Resolved a.
Proof.
  intros Hp. induction Hp as [a | X rq k _ IH]; intros s; cbn [Session.run].
  - now exists a.
  - destruct (perform X rq s) as [s' o]. apply IH.
Qed.

Lemma script_try_catch_returns {A : Type} (p : Script A) (label : string)
      (f : JsError -> A) :
  Session.Returns
    (Session.try_catch p
       (fun error => _ ← Session.console_error label error; Return (f error))).
Proof.
  induction p as [a | e | X rq k IH]; cbn [Session.try_catch].
  - constructor.
  - unfold Session.console_error, mbind, Script_bind. cbn [Session.bind].
    constructor. intros _. constructor.
  - constructor. exact IH.
Qed.

Lemma loginCustomer_bad_phone (phoneNumber password : string) :
  isValidPhoneNumber phoneNumber = false ->
  loginCustomer phoneNumber password
  = Return (Failure (JString "Invalid phone number format")).
Proof. intros H. unfold loginCustomer. now rewrite H. Qed.

(** The body of [loginCustomer] once the phone has passed the check. *)
Lemma loginCustomer_checked (phoneNumber password : string) :
  isValidPhoneNumber phoneNumber = true ->
  loginCustomer phoneNumber password
  = Ask (SignIn (formatPhoneNumber phoneNumber ++ "@butchery.local") password)
      (fun o =>
         Session.try_catch
           (user ← Session.settle o;
            customerDoc ← Session.await
              (Backend (GetCustomer (formatPhoneNumber phoneNumber)));
            match customerDoc with
            | None =>
                _ ← Session.await SignOut;
                Return (Failure (JString "Customer account not found"))
            | Some customer =>
                _ ← Session.await
                  (UpdateLastLogin (formatPhoneNumber phoneNumber));
                Return (Success (user, formatPhoneNumber phoneNumber, customer))
            end)
           (fun error =>
              _ ← Session.console_error "Error logging in customer:" error;
              Return (Failure (getErrorMessage error)))).
Proof.
  intros Hv. unfold loginCustomer. rewrite Hv. cbn [negb].
  unfold phoneToEmail, formatPhoneNumber.
  rewrite RegexFacts.replace_class_all_empty_idem. reflexivity.
Qed.

End SessionFacts.

(** [loginCustomer] with a phone number that fails
    [isValidPhoneNumber] returns the failure [Invalid phone number
    format] at once: under every backend no sign-in is attempted and no
    call is made. *)
Theorem loginCustomer_invalid_phone {S : Type}
        (perform : forall X : Type, Session.Request X -> S -> S * Outcome X)
        (s : S) (phoneNumber password : string) :
  isValidPhoneNumber phoneNumber = false ->
  Session.run perform (Session.loginCustomer phoneNumber password) s
  = (s, Resolved (Failure (JString "Invalid phone number format")))
  /\ Session.calls perform (Session.loginCustomer phoneNumber password) s = [].
Proof.
  intros H. rewrite (loginCustomer_bad_phone _ _ H). split; reflexivity.
Qed.

Lemma loginCustomer_invalid_phone_witness :
  Session.calls Session.backend
    (Session.loginCustomer "0700 111 222" "secret1")
    {| Session.store := shop; Session.currentUser := None |}
  = [].
Proof.
  refine (proj2 (loginCustomer_invalid_phone Session.backend _
                   "0700 111 222" "secret1" _)).
  vm_compute. reflexivity.
Defined.

(** X19.  When the sign-in is rejected, [loginCustomer] reports the
    message for the error and never reads or writes the store; a wrong
    password gives [Incorrect password. Please try again.] and an
    unknown account [Account not found. Please check your phone
    number.]. *)
Theorem loginCustomer_sign_in_rejected {S : Type}
        (perform : forall X : Type, Session.Request X -> S -> S * Outcome X)
        (s s1 : S) (phoneNumber password : string) (e : JsError) :
  isValidPhoneNumber phoneNumber = true ->
  let email := formatPhoneNumber phoneNumber ++ "@butchery.local" in
  perform _ (Session.SignIn email password) s = (s1, Rejected e) ->
  snd (Session.run perform (Session.loginCustomer phoneNumber password) s)
  = Resolved (Failure (getErrorMessage e))
  /\ Session.calls perform (Session.loginCustomer phoneNumber password) s
     = [ Session.any_request (Session.SignIn email password);
         Session.any_request
           (Session.Backend (ConsoleError "Error logging in customer:" e)) ]
  /\ (code e = Some "auth/wrong-password" ->
      getErrorMessage e = JString "Incorrect password. Please try again.")
  /\ (code e = Some "auth/user-not-found" ->
      getErrorMessage e
      = JString "Account not found. Please check your phone number.").
Proof.
  intros Hv email Hin. rewrite (loginCustomer_checked _ _ Hv). fold email.
  cbn [Session.run Session.calls]. rewrite Hin. cbn.
  destruct (perform unit _ s1). repeat split.
  - intros Hc. apply getErrorMessage_of_key.
    rewrite (lookup_key_code e _ Hc); [|discriminate].
    vm_compute. reflexivity.
  - intros Hc. apply getErrorMessage_of_key.
    rewrite (lookup_key_code e _ Hc); [|discriminate].
    vm_compute. reflexivity.
Qed.

Lemma loginCustomer_sign_in_rejected_witness :
  snd (Session.run Session.backend
         (Session.loginCustomer "+254 700 111 222" "guess!")
         {| Session.store := shop; Session.currentUser := None |})
  = Resolved (Failure (JString "Incorrect password. Please try again.")).
Proof.
  refine (proj1 (loginCustomer_sign_in_rejected Session.backend _ _
                   "+254 700 111 222" "guess!" Session.wrong_password _ _)).
  - vm_compute. reflexivity.
  - vm_compute. reflexivity.
Defined.

(** X20.  When the sign-in succeeds but no customer document exists
    under the normalized phone, [loginCustomer] calls [auth.signOut()].
    When the sign-out resolves, it reports [Customer account not found]
    after exactly three calls: the sign-in, the read and the sign-out.
    When the sign-out is rejected, the rejection is caught like any
    other: it is logged on the console, the fourth call, and the failure
    carries the message for that error.  Nothing is written to the store
    in either case. *)
Theorem loginCustomer_no_document {S : Type}
        (perform : forall X : Type, Session.Request X -> S -> S * Outcome X)
        (s s1 s2 s3 : S) (phoneNumber password : string) (user : User)
        (signedOut : Outcome unit) :
  isValidPhoneNumber phoneNumber = true ->
  let phone := formatPhoneNumber phoneNumber in
  let email := phone ++ "@butchery.local" in
  perform _ (Session.SignIn email password) s = (s1, Resolved user) ->
  perform _ (Session.Backend (GetCustomer phone)) s1 = (s2, Resolved None) ->
  perform _ Session.SignOut s2 = (s3, signedOut) ->
  match signedOut with
  | Resolved _ =>
      Session.run perform (Session.loginCustomer phoneNumber password) s
      = (s3, Resolved (Failure (JString "Customer account not found")))
      /\ Session.calls perform (Session.loginCustomer phoneNumber password) s
         = [ Session.any_request (Session.SignIn email password);
             Session.any_request (Session.Backend (GetCustomer phone));
             Session.any_request Session.SignOut ]
  | Rejected e =>
      let logged :=
        Session.Backend (ConsoleError "Error logging in customer:" e) in
      Session.run perform (Session.loginCustomer phoneNumber password) s
      = (fst (perform _ logged s3), Resolved (Failure (getErrorMessage e)))
      /\ Session.calls perform (Session.loginCustomer phoneNumber password) s
         = [ Session.any_request (Session.SignIn email password);
             Session.any_request (Session.Backend (GetCustomer phone));
             Session.any_request Session.SignOut;
             Session.any_request logged ]
  end.
Proof.
  intros Hv phone email Hin Hget Hout.
  rewrite (loginCustomer_checked _ _ Hv). fold phone. fold email.
  cbn [Session.run Session.calls]. rewrite Hin. cbn. rewrite Hget. cbn.
  rewrite Hout. destruct signedOut as [[]|e]; cbn.
  - split; reflexivity.
  - destruct (perform unit
                (Session.Backend (ConsoleError "Error logging in customer:" e))
                s3) as [s4 o].
    split; reflexivity.
Qed.

Lemma loginCustomer_no_document_witness :
  Session.currentUser
    (fst (Session.run Session.backend
            (Session.loginCustomer "+254 700 111 222" "secret1")
            {| Session.store := shop_without_documents;
               Session.currentUser := None |}))
  = None.
Proof.
  rewrite (proj1 (loginCustomer_no_document Session.backend
                    {| Session.store := shop_without_documents;
                       Session.currentUser := None |}
                    _ _ _ "+254 700 111 222" "secret1" _ (Resolved tt)
                    ltac:(vm_compute; reflexivity)
                    ltac:(vm_compute; reflexivity)
                    ltac:(vm_compute; reflexivity)
                    ltac:(vm_compute; reflexivity))).
  reflexivity.
Defined.

(** X21.  [loginCustomer], [getCustomerPurchases] and
    [getCustomerRedemptions] never throw to their caller: under every
    backend whose rejections carry an error object and for every input
    the promise they return is resolved, with a success or with a
    failure reply. *)
Theorem session_helpers_never_reject {S : Type}
        (perform : forall X : Type, Session.Request X -> S -> S * Outcome X)
        (s : S) (phoneNumber password : string) (limit : option nat) :
  (exists reply,
      snd (Session.run perform (Session.loginCustomer phoneNumber password) s)
      = Resolved reply)
  /\ (exists reply,
         snd (Session.run perform
                (Session.getCustomerPurchases phoneNumber limit) s)
         = Resolved reply)
  /\ (exists reply,
         snd (Session.run perform
                (Session.getCustomerRedemptions phoneNumber limit) s)
         = Resolved reply).
Proof.
  repeat split; apply script_run_returns; apply script_try_catch_returns.
Qed.

Section LoginInMemory.

Lemma backend_up (X : Type) (rq : Session.Request X) (s : Session.State) :
  outage (Session.store s) = None -> Session.backend X rq s = Session.serve rq s.
Proof. intros H. unfold Session.backend. now rewrite H. Qed.

Lemma console_keeps (s : Session.State) (label : string) (e : JsError) :
  same_records (Session.store s)
    (Session.store (fst (Session.backend unit (Session.Backend (ConsoleError label e)) s))).
Proof.
  unfold Session.backend, Session.serve, firebase.
  destruct (outage (Session.store s)); cbn; repeat split.
Qed.

Lemma console_then_keeps {A : Type} (s : Session.State) (label : string)
      (e : JsError) (a : A) :
  same_records (Session.store s)
    (Session.store
       (fst (let '(s', _) :=
               Session.backend unit
                 (Session.Backend (ConsoleError label e)) s in
             (s', a)))).
Proof.
  pose proof (console_keeps s label e) as K.
  destruct (Session.backend unit _ s) as [s' o]. exact K.
Qed.

Variables (phoneNumber password : string) (s : Session.State).

Let phone : string := formatPhoneNumber phoneNumber.
Let email : string := phone ++ "@butchery.local".

Lemma loginCustomer_success (uid : nat) (customer : CustomerDoc) :
  isValidPhoneNumber phoneNumber = true ->
  outage (Session.store s) = None ->
  accounts (Session.store s) !! email = Some (password, uid) ->
  customers (Session.store s) !! phone = Some customer ->
  Session.run Session.backend (Session.loginCustomer phoneNumber password) s
  = ({| Session.store :=
          with_customers (Session.store s)
            (<[phone := Session.with_lastLogin customer (TimeAt (clock (Session.store s)))]>
               (customers (Session.store s)));
        Session.currentUser := Some {| user_uid := uid; user_email := email |} |},
     Resolved (Success ({| user_uid := uid; user_email := email |},
                        phone, customer))).
Proof.
  intros Hv Hup Hacc Hdoc.
  rewrite (loginCustomer_checked _ _ Hv). fold phone. fold email.
  cbn [Session.run]. rewrite (backend_up _ _ s Hup). cbn [Session.serve].
  rewrite Hacc, String.eqb_refl.
  cbn -[Session.backend]. rewrite backend_up by exact Hup.
  cbn [Session.serve Session.store]. rewrite (firebase_up _ _ _ Hup).
  cbn [serve]. rewrite Hdoc.
  cbn -[Session.backend]. rewrite backend_up by exact Hup.
  cbn [Session.serve Session.store Session.with_store Session.currentUser].
  rewrite Hdoc. reflexivity.
Qed.

(** In every other case the records and the accounts are as before. *)
Lemma loginCustomer_cases :
  let s' := fst (Session.run Session.backend
                   (Session.loginCustomer phoneNumber password) s) in
  same_records (Session.store s) (Session.store s')
  \/ (exists (uid : nat) (customer : CustomerDoc),
         customers (Session.store s) !! phone = Some customer
         /\ Session.store s'
            = with_customers (Session.store s)
                (<[phone := Session.with_lastLogin customer (TimeAt (clock (Session.store s)))]>
                   (customers (Session.store s)))).
Proof.
  intros s'. subst s'.
  destruct (isValidPhoneNumber phoneNumber) eqn:Hv;
    [|left; rewrite (loginCustomer_bad_phone _ _ Hv); repeat split].
  destruct (outage (Session.store s)) as [e|] eqn:Hout.
  - left. rewrite (loginCustomer_checked _ _ Hv). cbn [Session.run].
    unfold Session.backend at 1. rewrite Hout. cbn -[Session.backend].
    apply console_then_keeps.
  - destruct (accounts (Session.store s) !! email) as [[pw uid]|] eqn:Hacc.
    + destruct (String.eqb_spec pw password) as [-> | Hne].
      * destruct (customers (Session.store s) !! phone) as [c|] eqn:Hdoc.
        -- right. exists uid, c. split; [reflexivity|].
           now rewrite (loginCustomer_success uid c Hv Hout Hacc Hdoc).
        -- left. rewrite (loginCustomer_checked _ _ Hv).
           fold phone. fold email.
           cbn [Session.run]. rewrite (backend_up _ _ s Hout).
           cbn [Session.serve]. rewrite Hacc, String.eqb_refl.
           cbn -[Session.backend]. rewrite backend_up by exact Hout.
           cbn [Session.serve Session.store]. rewrite (firebase_up _ _ _ Hout).
           cbn [serve]. rewrite Hdoc.
           cbn -[Session.backend]. rewrite backend_up by exact Hout.
           cbn. repeat split.
      * left. rewrite (loginCustomer_checked _ _ Hv).
        fold phone. fold email.
        cbn [Session.run]. rewrite (backend_up _ _ s Hout).
        cbn [Session.serve]. rewrite Hacc.
        rewrite (proj2 (String.eqb_neq pw password) Hne).
        cbn -[Session.backend]. apply console_then_keeps.
    + left. rewrite (loginCustomer_checked _ _ Hv).
      fold phone. fold email.
      cbn [Session.run]. rewrite (backend_up _ _ s Hout).
      cbn [Session.serve]. rewrite Hacc.
      cbn -[Session.backend]. apply console_then_keeps.
Qed.

End LoginInMemory.

(** X22.  A login with the right password for a registered customer
    succeeds: it returns the user, the normalized phone and the customer
    document as it was read, that is with the previous [lastLogin]; in
    the store only [lastLogin] of that customer changes, to the time of
    the login. *)
Theorem loginCustomer_signs_in (phoneNumber password : string)
        (s : Session.State) (account : nat) (customer : CustomerDoc) :
  isValidPhoneNumber phoneNumber = true ->
  outage (Session.store s) = None ->
  accounts (Session.store s) !! phoneToEmail phoneNumber
  = Some (password, account) ->
  customers (Session.store s) !! formatPhoneNumber phoneNumber
  = Some customer ->
  let r := Session.run Session.backend
             (Session.loginCustomer phoneNumber password) s in
  let user :=
    {| user_uid := account; user_email := phoneToEmail phoneNumber |} in
  snd r = Resolved (Success (user, formatPhoneNumber phoneNumber, customer))
  /\ Session.currentUser (fst r) = Some user
  /\ customers (Session.store (fst r)) !! formatPhoneNumber phoneNumber
     = Some {| points := points customer; createdAt := createdAt customer;
               name := name customer; uid := uid customer;
               lastLogin := TimeAt (clock (Session.store s)) |}
  /\ (forall q : string,
         q <> formatPhoneNumber phoneNumber ->
         customers (Session.store (fst r)) !! q
         = customers (Session.store s) !! q).
Proof.
  intros Hv Hup Hacc Hdoc r user. subst r.
  rewrite (loginCustomer_success phoneNumber password s account customer
             Hv Hup Hacc Hdoc).
  cbn [fst snd Session.store Session.currentUser with_customers customers].
  repeat split.
  - apply lookup_insert_eq.
  - intros q Hq. now apply lookup_insert_ne.
Qed.

Lemma loginCustomer_signs_in_witness :
  snd (Session.run Session.backend
         (Session.loginCustomer "+254 (700) 111-222" "secret1")
         {| Session.store := shop; Session.currentUser := None |})
  = Resolved
      (Success ({| user_uid := 0;
                   user_email := "+254700111222@butchery.local" |},
                "+254700111222", wanjiru 5)).
Proof.
  refine (proj1 (loginCustomer_signs_in "+254 (700) 111-222" "secret1"
                   {| Session.store := shop; Session.currentUser := None |}
                   0%nat (wanjiru 5) _ _ _ _)).
  - vm_compute. reflexivity.
  - reflexivity.
  - vm_compute. reflexivity.
  - vm_compute. reflexivity.
Defined.

(** X23.  [loginCustomer] never changes a balance: whatever the input
    and whether it succeeds or fails, every customer has the points it
    had, and the purchases, the redemptions and the accounts are as
    before. *)
Theorem loginCustomer_keeps_points (phoneNumber password : string)
        (s : Session.State) :
  let s' := fst (Session.run Session.backend
                   (Session.loginCustomer phoneNumber password) s) in
  (forall q : string,
      points <$> customers (Session.store s') !! q
      = points <$> customers (Session.store s) !! q)
  /\ purchases (Session.store s') = purchases (Session.store s)
  /\ redemptions (Session.store s') = redemptions (Session.store s)
  /\ accounts (Session.store s') = accounts (Session.store s).
Proof.
  intros s'. subst s'.
  destruct (loginCustomer_cases phoneNumber password s)
    as [(Hc & Hp & Hr & Ha) | (uid & c & Hdoc & ->)].
  - rewrite Hc, Hp, Hr, Ha. repeat split.
  - cbn [with_customers customers purchases redemptions accounts].
    repeat split. intros q.
    destruct (decide (q = formatPhoneNumber phoneNumber)) as [-> | Hne].
    + now rewrite lookup_insert_eq, Hdoc.
    + now rewrite lookup_insert_ne by congruence.
Qed.

(** X24.  Registration and login agree: after [createCustomer] has
    registered a customer, [loginCustomer] with the same phone number
    (in any spelling that normalizes to the same number) and the same
    password succeeds, and returns the customer with 0 points. *)
Theorem createCustomer_then_loginCustomer
        (phoneNumber phoneAgain password : string) (given : option string)
        (w : World) :
  isValidPhoneNumber phoneNumber = true ->
  (6 <= String.length password)%nat ->
  outage w = None ->
  customers w !! formatPhoneNumber phoneNumber = None ->
  accounts w !! phoneToEmail phoneNumber = None ->
  formatPhoneNumber phoneAgain = formatPhoneNumber phoneNumber ->
  let w' := fst (run firebase (createCustomer phoneNumber password given) w) in
  exists (user : User) (customer : CustomerDoc),
    snd (Session.run Session.backend
           (Session.loginCustomer phoneAgain password)
           {| Session.store := w'; Session.currentUser := None |})
    = Resolved (Success (user, formatPhoneNumber phoneNumber, customer))
    /\ points customer = 0
    /\ name customer = trim (default "" given)
    /\ uid customer = user_uid user.
Proof.
  intros Hv Hp Hup Hdoc Hacc Hsame w'. subst w'.
  rewrite (createCustomer_firebase_success phoneNumber password given w
             Hv Hp Hup Hdoc Hacc).
  cbn [fst].
  assert (Hv' : isValidPhoneNumber phoneAgain = true).
  { unfold isValidPhoneNumber in *. now rewrite Hsame. }
  match goal with
  | |- context [Session.run _ _ ?s0] =>
      pose proof (loginCustomer_success phoneAgain password s0
                    (size (accounts w))
                    (stored (clock w)
                       (new_customer given
                          {| user_uid := size (accounts w);
                             user_email := phoneToEmail phoneNumber |}))
                    Hv' Hup) as L
  end.
  rewrite Hsame in L. rewrite L.
  - eexists. eexists. split; [reflexivity|]. repeat split.
  - apply lookup_insert_eq.
  - apply lookup_insert_eq.
Qed.

Lemma createCustomer_then_loginCustomer_witness :
  exists (user : User) (customer : CustomerDoc),
    snd (Session.run Session.backend
           (Session.loginCustomer "+254-700-111-333" "secret2")
           {| Session.store :=
                fst (run firebase
                       (createCustomer "+254 700 111 333" "secret2"
                                       (Some "Otieno")) shop);
              Session.currentUser := None |})
    = Resolved (Success (user, "+254700111333", customer))
    /\ points customer = 0.
Proof.
  destruct (createCustomer_then_loginCustomer
              "+254 700 111 333" "+254-700-111-333" "secret2" (Some "Otieno")
              shop)
    as (user & customer & R & P & _).
  - vm_compute. reflexivity.
  - cbn. lia.
  - reflexivity.
  - vm_compute. reflexivity.
  - vm_compute. reflexivity.
  - vm_compute. reflexivity.
  - exists user, customer. split; [exact R | exact P].
Defined.

(** ** [getCustomerPurchases] and [getCustomerRedemptions] *)

Section QueryFacts.

Context {D : Type} (phone_of : D -> string) (time_of : D -> FieldTime).

#[local] Instance newer_transitive : Transitive (Session.newer time_of).
Proof. intros a b c. unfold Session.newer. lia. Qed.

#[local] Instance newer_total : Total (Session.newer time_of).
Proof. intros a b. unfold Session.newer. lia. Qed.

Lemma collect_all (snapshot : list (Session.DocId * D)) :
  Session.collect snapshot = snapshot.
Proof.
  unfold Session.collect.
  enough (H : forall acc : list (Session.DocId * D),
             fold_left (fun acc doc => (acc ++ [(fst doc, snd doc)])%list)
                       snapshot acc
             = (acc ++ snapshot)%list) by apply (H []).
  induction snapshot as [|[i d] l IH]; intros acc; cbn [fold_left fst snd].
  - now rewrite app_nil_r.
  - rewrite IH, <- app_assoc. reflexivity.
Qed.

Lemma select_elem (phone : string) (limit : nat) (docs : list D)
      (r : Session.DocId * D) :
  r ∈ Session.select phone_of time_of phone limit docs ->
  phone_of (snd r) = phone /\ docs !! fst r = Some (snd r).
Proof.
  unfold Session.select. intros H.
  apply subseteq_take in H. rewrite merge_sort_Permutation in H.
  apply list_elem_of_filter in H as [Hp H]. split; [exact Hp|].
  unfold Session.with_ids in H.
  apply elem_of_lookup_imap in H as (i & d & -> & Hd). exact Hd.
Qed.

Lemma select_length (phone : string) (limit : nat) (docs : list D) :
  (length (Session.select phone_of time_of phone limit docs) <= limit)%nat.
Proof. unfold Session.select. rewrite length_take. lia. Qed.

Lemma select_sorted (phone : string) (limit : nat) (docs : list D) :
  StronglySorted (Session.newer time_of)
    (Session.select phone_of time_of phone limit docs).
Proof.
  unfold Session.select.
  set (l := merge_sort _ _).
  assert (Hs : StronglySorted (Session.newer time_of) l)
    by (apply StronglySorted_merge_sort; apply _).
  rewrite <- (take_drop limit l) in Hs.
  now apply StronglySorted_app_1_l in Hs.
Qed.

Lemma select_complete (phone : string) (limit : nat) (docs : list D)
      (i : nat) (d : D) :
  (length (filter (fun d => phone_of d = phone) docs) <= limit)%nat ->
  docs !! i = Some d -> phone_of d = phone ->
  (i, d) ∈ Session.select phone_of time_of phone limit docs.
Proof.
  intros Hlen Hd Hp. unfold Session.select.
  assert (Hlen' :
            (length (merge_sort (Session.newer time_of)
                       (filter (fun r => phone_of (snd r) = phone)
                               (Session.with_ids docs))) <= limit)%nat).
  { rewrite merge_sort_Permutation.
    enough (E : forall (l : list D) (k : nat),
               length (filter (fun r : nat * D => phone_of (snd r) = phone)
                              (imap (fun i d => ((k + i)%nat, d)) l))
               = length (filter (fun d => phone_of d = phone) l)).
    { unfold Session.with_ids.
      rewrite <- (E docs 0%nat) in Hlen. exact Hlen. }
    clear. induction l as [|x l IH]; intros k; [reflexivity|].
    cbn [imap]. rewrite !filter_cons. cbn [snd].
    rewrite (imap_ext _ (fun i d => ((S k + i)%nat, d)))
      by (intros; unfold compose; f_equal; lia).
    destruct (decide (phone_of x = phone)); cbn [length]; now rewrite IH. }
  rewrite take_ge by exact Hlen'. rewrite merge_sort_Permutation.
  apply list_elem_of_filter. split; [exact Hp|].
  unfold Session.with_ids.
  apply (elem_of_lookup_imap_2 (fun i d => (i, d)) docs d i Hd).
Qed.

End QueryFacts.

Section HistoryFacts.

Context {D : Type} (phone_of : D -> string) (time_of : D -> FieldTime).

Lemma select_history (docs : list D) (phone : string) (limit : nat) :
  history_of phone_of time_of docs phone limit
    (Session.select phone_of time_of phone limit docs).
Proof.
  split; [apply select_length|]. split; [|split].
  - intros id d H. apply (select_elem _ _ _ _ _ (id, d) H).
  - apply select_sorted.
  - intros Hlen id d Hd Hp. now apply select_complete.
Qed.

End HistoryFacts.

(** X25.  While the store answers, [getCustomerPurchases] and
    [getCustomerRedemptions] return at most [limit] records (10 when no
    limit is given), each one a record of the collection whose
    [customerPhone] is the phone number exactly as it was passed, the
    newest first, and all of them when there are no more than [limit];
    the world is unchanged. *)
Theorem history_queries (phoneNumber : string) (limit : option nat)
        (s : Session.State) :
  outage (Session.store s) = None ->
  (0 < default 10%nat limit)%nat ->
  (exists result : list (Session.DocId * PurchaseDoc),
      Session.run Session.backend
        (Session.getCustomerPurchases phoneNumber limit) s
      = (s, Resolved (Success result))
      /\ history_of p_customerPhone p_createdAt
           (purchases (Session.store s)) phoneNumber (default 10%nat limit)
           result)
  /\ (exists result : list (Session.DocId * RedemptionDoc),
         Session.run Session.backend
           (Session.getCustomerRedemptions phoneNumber limit) s
         = (s, Resolved (Success result))
         /\ history_of r_customerPhone r_createdAt
              (redemptions (Session.store s)) phoneNumber (default 10%nat limit)
              result).
Proof.
  intros Hup Hpos. split.
  - eexists. split; [|apply select_history].
    unfold Session.getCustomerPurchases, mbind, Session.Script_bind.
    cbn [Session.try_catch Session.bind Session.await Session.run].
    rewrite (backend_up _ _ s Hup). cbn [Session.serve].
    destruct (default 10%nat limit) as [|n] eqn:E; [lia|].
    cbn. now rewrite collect_all.
  - eexists. split; [|apply select_history].
    unfold Session.getCustomerRedemptions, mbind, Session.Script_bind.
    cbn [Session.try_catch Session.bind Session.await Session.run].
    rewrite (backend_up _ _ s Hup). cbn [Session.serve].
    destruct (default 10%nat limit) as [|n] eqn:E; [lia|].
    cbn. now rewrite collect_all.
Qed.

Lemma history_queries_witness :
  (exists result : list (Session.DocId * PurchaseDoc),
      Session.run Session.backend
        (Session.getCustomerPurchases "+254700111222" (Some 2%nat))
        shop_session
      = (shop_session, Resolved (Success result))
      /\ (length result <= 2)%nat)
  /\ (exists result : list (Session.DocId * PurchaseDoc),
         Session.run Session.backend
           (Session.getCustomerPurchases "+254 700 111 222" None)
           shop_session
         = (shop_session, Resolved (Success result))
         /\ forall (id : Session.DocId) (d : PurchaseDoc),
              (id, d) ∈ result -> p_customerPhone d = "+254 700 111 222").
Proof.
  split.
  - destruct (proj1 (history_queries "+254700111222" (Some 2%nat) shop_session
                       eq_refl ltac:(cbn; lia)))
      as (result & R & Hlen & _).
    exists result. split; [exact R | exact Hlen].
  - destruct (proj1 (history_queries "+254 700 111 222" None shop_session
                       eq_refl ltac:(cbn; lia)))
      as (result & R & _ & Hel & _).
    exists result. split; [exact R|].
    intros id d H. exact (proj1 (Hel id d H)).
Defined.

Example getCustomerPurchases_newest_first :
  snd (Session.run Session.backend
         (Session.getCustomerPurchases "+254700111222" (Some 2%nat))
         shop_session)
  = Resolved
      (Success
         [ (2%nat, {| p_customerPhone := "+254700111222"; amount := Some (Number.of_Z 100);
                      pointsEarned := Some 5; p_createdAt := TimeAt 5 |});
           (1%nat, {| p_customerPhone := "+254700111222";
                      amount := Some (Number.of_Q (1999 # 20));
                      pointsEarned := Some 0; p_createdAt := TimeAt 4 |}) ]).
Proof. vm_compute. reflexivity. Qed.

(** The phone is compared as it is passed: a spelling that is not the
    stored one finds nothing. *)
Example getCustomerPurchases_raw_phone :
  snd (Session.run Session.backend
         (Session.getCustomerPurchases "+254 700 111 222" None) shop_session)
  = Resolved (Success []).
Proof. vm_compute. reflexivity. Qed.

(** ** [debounce] *)

Section DebounceFacts.

Context {Args : Type}.
Variable wait : Z.

Lemma clearTimeout_own (t : @Debounce.Timer Args) :
  Debounce.clearTimeout (Some (Debounce.timer_id t)) [t] = [].
Proof. cbn. now rewrite Nat.eqb_refl. Qed.

Lemma clearTimeout_nil (id : option nat) :
  Debounce.clearTimeout id ([] : list (@Debounce.Timer Args)) = [].
Proof. now destruct id. Qed.

(** After a call exactly one timer is pending: the new one. *)
Lemma executedFunction_pending (args : Args) (st : @Debounce.State Args) :
  Debounce.tidy st ->
  Debounce.pending (Debounce.executedFunction wait args st)
  = [ {| Debounce.timer_id := Debounce.next_id st;
         Debounce.due := Debounce.now st + Debounce.delay wait;
         Debounce.timer_args := args |} ].
Proof.
  intros [Hnil | (t & Ht & Hid)]; unfold Debounce.executedFunction;
    cbn [Debounce.pending].
  - now rewrite Hnil, clearTimeout_nil.
  - now rewrite Ht, Hid, clearTimeout_own.
Qed.

Lemma executedFunction_tidy (args : Args) (st : @Debounce.State Args) :
  Debounce.tidy st -> Debounce.tidy (Debounce.executedFunction wait args st).
Proof.
  intros H. right. eexists. split; [now apply executedFunction_pending|].
  reflexivity.
Qed.

(** Idle time with nothing pending only moves the clock. *)
Lemma elapse_idle (d : Z) (st : @Debounce.State Args) :
  Debounce.pending st = [] ->
  Debounce.elapse d st
  = {| Debounce.now := Debounce.now st + Z.max 0 d;
       Debounce.next_id := Debounce.next_id st;
       Debounce.pending := [];
       Debounce.timeout := Debounce.timeout st;
       Debounce.invoked := Debounce.invoked st |}.
Proof. intros H. unfold Debounce.elapse. now rewrite H. Qed.

(** Idle time with the one timer pending: it fires if it is due. *)
Lemma elapse_one (d : Z) (st : @Debounce.State Args) (t : @Debounce.Timer Args) :
  Debounce.pending st = [t] ->
  Debounce.timeout st = Some (Debounce.timer_id t) ->
  Debounce.elapse d st
  = if Debounce.due t <=? Debounce.now st + Z.max 0 d then
      {| Debounce.now := Debounce.now st + Z.max 0 d;
         Debounce.next_id := Debounce.next_id st;
         Debounce.pending := [];
         Debounce.timeout := Debounce.timeout st;
         Debounce.invoked :=
           (Debounce.invoked st ++ [Debounce.timer_args t])%list |}
    else
      {| Debounce.now := Debounce.now st + Z.max 0 d;
         Debounce.next_id := Debounce.next_id st;
         Debounce.pending := [t];
         Debounce.timeout := Debounce.timeout st;
         Debounce.invoked := Debounce.invoked st |}.
Proof.
  intros Hp Hid. unfold Debounce.elapse. rewrite Hp.
  cbn [length Debounce.run_due Debounce.now Debounce.pending
       Debounce.next_due].
  destruct (Debounce.due t <=? Debounce.now st + Z.max 0 d); [|reflexivity].
  unfold Debounce.later, Debounce.remove_timer.
  cbn [Debounce.pending Debounce.timeout Debounce.invoked Debounce.now
       Debounce.next_id List.filter].
  rewrite Nat.eqb_refl. cbn [negb]. now rewrite clearTimeout_nil.
Qed.

Lemma elapse_tidy (d : Z) (st : @Debounce.State Args) :
  Debounce.tidy st -> Debounce.tidy (Debounce.elapse d st).
Proof.
  intros [Hnil | (t & Ht & Hid)].
  - rewrite (elapse_idle d st Hnil). now left.
  - rewrite (elapse_one d st t Ht Hid).
    destruct (Debounce.due t <=? _); [now left|].
    right. exists t. split; [reflexivity | exact Hid].
Qed.

Lemma step_tidy (st : @Debounce.State Args) (ev : Debounce.Event) :
  Debounce.tidy st -> Debounce.tidy (Debounce.step wait st ev).
Proof.
  destruct ev; [apply executedFunction_tidy | apply elapse_tidy].
Qed.

Lemma run_events_tidy (evs : list Debounce.Event) (st : @Debounce.State Args) :
  Debounce.tidy st -> Debounce.tidy (Debounce.run_events wait evs st).
Proof.
  revert st. induction evs as [|ev evs IH]; intros st H; [exact H|].
  apply IH. now apply step_tidy.
Qed.

(** A call followed by less idle time than the delay delivers nothing,
    and leaves the clock of the page as the only change besides the
    new timer. *)
Lemma call_then_short_idle (args : Args) (d : Z) (st : @Debounce.State Args) :
  Debounce.tidy st ->
  0 <= d < Debounce.delay wait ->
  let st' := Debounce.elapse d (Debounce.executedFunction wait args st) in
  Debounce.tidy st' /\ Debounce.invoked st' = Debounce.invoked st.
Proof.
  intros Ht Hd st'. subst st'.
  split; [now apply elapse_tidy, executedFunction_tidy|].
  rewrite (elapse_one d _ _ (executedFunction_pending args st Ht) eq_refl).
  cbn [Debounce.due Debounce.executedFunction Debounce.now].
  destruct (Z.leb_spec (Debounce.now st + Debounce.delay wait)
                       (Debounce.now st + Z.max 0 d)); [lia | reflexivity].
Qed.

Lemma call_then_long_idle (args : Args) (d : Z) (st : @Debounce.State Args) :
  Debounce.tidy st ->
  Debounce.delay wait <= d ->
  let st' := Debounce.elapse d (Debounce.executedFunction wait args st) in
  Debounce.pending st' = []
  /\ Debounce.invoked st' = (Debounce.invoked st ++ [args])%list.
Proof.
  intros Ht Hd st'. subst st'.
  rewrite (elapse_one d _ _ (executedFunction_pending args st Ht) eq_refl).
  cbn [Debounce.due Debounce.executedFunction Debounce.now].
  destruct (Z.leb_spec (Debounce.now st + Debounce.delay wait)
                       (Debounce.now st + Z.max 0 d)) as [_ | Hlt];
    [split; reflexivity|].
  unfold Debounce.delay in *. lia.
Qed.

Lemma burst_quiet (burst : list (Args * Z)) (st : @Debounce.State Args) :
  Debounce.tidy st ->
  Forall (fun call => 0 <= snd call < Debounce.delay wait) burst ->
  let st' := Debounce.run_events wait (Debounce.burst_events burst) st in
  Debounce.tidy st' /\ Debounce.invoked st' = Debounce.invoked st.
Proof.
  revert st. induction burst as [|[a d] burst IH]; intros st Ht Hall;
    [split; [exact Ht | reflexivity]|].
  inversion Hall as [|? ? Hd Hrest]; subst. cbn [snd] in Hd.
  destruct (call_then_short_idle a d st Ht Hd) as [Ht1 Hi1].
  destruct (IH _ Ht1 Hrest) as [Ht2 Hi2].
  cbn [Debounce.burst_events flat_map app Debounce.run_events fold_left
       Debounce.step fst snd].
  split; [exact Ht2 | now rewrite <- Hi1].
Qed.

End DebounceFacts.

Section DebounceTrace.

Context {Args : Type}.
Variable wait : Z.

Lemma delivered_of_step (seen : list Args) (st : @Debounce.State Args)
      (ev : Debounce.Event) :
  delivered_of seen st ->
  delivered_of (seen ++ invocations [ev])%list (Debounce.step wait st ev).
Proof.
  intros [Ht Hs]. split; [now apply step_tidy|].
  destruct ev as [args | d]; cbn [Debounce.step invocations flat_map].
  - rewrite (executedFunction_pending wait args st Ht).
    cbn [Debounce.invoked Debounce.executedFunction map Debounce.timer_args].
    rewrite app_nil_r. apply sublist_app; [|reflexivity].
    etransitivity; [|exact Hs]. now apply sublist_inserts_r.
  - cbn [app]. rewrite app_nil_r.
    destruct Ht as [Hnil | (t & Hp & Hid)].
    + rewrite (elapse_idle d st Hnil). now rewrite Hnil in Hs.
    + rewrite (elapse_one d st t Hp Hid). rewrite Hp in Hs.
      destruct (Debounce.due t <=? _); cbn [Debounce.invoked Debounce.pending map];
        [now rewrite app_nil_r | exact Hs].
Qed.

Lemma delivered_of_run (evs : list Debounce.Event) :
  forall (seen : list Args) (st : @Debounce.State Args),
    delivered_of seen st ->
    delivered_of (seen ++ invocations evs)%list
                 (Debounce.run_events wait evs st).
Proof.
  induction evs as [|ev evs IH]; intros seen st H.
  - cbn. now rewrite app_nil_r.
  - replace (invocations (ev :: evs))
      with (invocations [ev] ++ invocations evs)%list
      by (unfold invocations; cbn [flat_map]; now rewrite app_nil_r).
    rewrite app_assoc. apply IH. now apply delivered_of_step.
Qed.

End DebounceTrace.

(** X26.  However the calls of a debounced function and the idle times
    follow each other, at most one timer is pending at any moment, and
    [func] is run on a selection of the calls, in their order: never with
    arguments that were not passed, never twice for one call, never out
    of order. *)
Theorem debounce_delivers_selection {Args : Type} (wait : Z)
        (evs : list (@Debounce.Event Args)) :
  let st := Debounce.run_events wait evs Debounce.initial in
  (length (Debounce.pending st) <= 1)%nat
  /\ Debounce.invoked st `sublist_of` invocations evs
  /\ (length (Debounce.invoked st) <= length (invocations evs))%nat.
Proof.
  intros st.
  destruct (delivered_of_run wait evs [] Debounce.initial) as [Ht Hs].
  { split; [now left | reflexivity]. }
  fold st in Ht, Hs. cbn [app] in Hs.
  assert (Hsub : Debounce.invoked st `sublist_of` invocations evs).
  { etransitivity; [|exact Hs]. now apply sublist_inserts_r. }
  repeat split.
  - destruct Ht as [-> | (t & -> & _)]; cbn; lia.
  - exact Hsub.
  - now apply sublist_length.
Qed.

(** X27.  A burst of calls, each one less than [wait] milliseconds after
    the one before, followed by a call and at least [wait] milliseconds
    without one, runs [func] exactly once, with the arguments of the
    last call. *)
Theorem debounce_burst {Args : Type} (wait : Z) (burst : list (Args * Z))
        (last : Args) (d : Z) :
  Forall (fun call => 0 <= snd call < Debounce.delay wait) burst ->
  Debounce.delay wait <= d ->
  let st := Debounce.run_events wait
              (Debounce.burst_events burst
               ++ [Debounce.Invoke last; Debounce.Elapse d])
              Debounce.initial in
  Debounce.invoked st = [last] /\ Debounce.pending st = [].
Proof.
  intros Hall Hd st. subst st.
  unfold Debounce.run_events. rewrite fold_left_app.
  destruct (burst_quiet wait burst Debounce.initial) as [Ht Hi];
    [now left | exact Hall |].
  unfold Debounce.run_events in Ht, Hi.
  cbn [fold_left Debounce.step].
  destruct (call_then_long_idle wait last d _ Ht Hd) as [Hp Hinv].
  rewrite Hinv, Hp, Hi. split; reflexivity.
Qed.

Lemma debounce_burst_witness :
  Debounce.invoked
    (Debounce.run_events 300
       [ Debounce.Invoke "w"; Debounce.Elapse 120;
         Debounce.Invoke "wa"; Debounce.Elapse 299;
         Debounce.Invoke "wan"; Debounce.Elapse 300 ]
       Debounce.initial)
  = ["wan"].
Proof.
  refine (proj1 (debounce_burst 300 [("w", 120); ("wa", 299)] "wan" 300 _ _)).
  - constructor; [unfold Debounce.delay; cbn; lia|].
    constructor; [unfold Debounce.delay; cbn; lia|]. constructor.
  - unfold Debounce.delay. lia.
Defined.

(** ** [storage] *)

Section StorageFacts.

Context {V : Type}.
Variables (null : V) (stringify : V -> Storage.Stringified)
          (parse : string -> option V).

Lemma storage_set_saved (key text : string) (value : V) (st : Storage.State) :
  Storage.blocked st = false -> Storage.full st = false ->
  stringify value = Storage.Text text ->
  Storage.set stringify key value st
  = Storage.with_items st (<[key := text]> (Storage.items st)).
Proof.
  intros Hb Hf Hs. unfold Storage.set. now rewrite Hs, Hb, Hf.
Qed.

Lemma storage_get_other (other : string) (d : option V)
      (st : Storage.State) (m : gmap string string) :
  m !! other = Storage.items st !! other ->
  snd (Storage.get null parse other d (Storage.with_items st m))
  = snd (Storage.get null parse other d st).
Proof.
  intros H. unfold Storage.get.
  cbn [Storage.blocked Storage.items Storage.with_items]. rewrite H.
  destruct (Storage.blocked st); [reflexivity|].
  destruct (Storage.items st !! other) as [item|]; [|reflexivity].
  destruct (String.eqb item ""); [reflexivity|].
  destruct (parse item); reflexivity.
Qed.

End StorageFacts.

(** X28.  What [storage.set] saves, [storage.get] returns: when the
    storage accepts the write and the value has a JSON text that parses
    back to it, [get] of the key returns the value, and [get] of every
    other key returns what it returned before. *)
Theorem storage_set_get {V : Type} (null : V)
        (stringify : V -> Storage.Stringified) (parse : string -> option V)
        (key text : string) (value : V) (st : Storage.State) :
  Storage.blocked st = false -> Storage.full st = false ->
  stringify value = Storage.Text text ->
  text <> "" ->
  parse text = Some value ->
  (forall d : option V,
      snd (Storage.get null parse key d (Storage.set stringify key value st))
      = value)
  /\ (forall (other : string) (d : option V),
         other <> key ->
         snd (Storage.get null parse other d
                (Storage.set stringify key value st))
         = snd (Storage.get null parse other d st)).
Proof.
  intros Hb Hf Hs Hne Hp.
  rewrite (storage_set_saved stringify key text value st Hb Hf Hs). split.
  - intros d. unfold Storage.get.
    cbn [Storage.blocked Storage.items Storage.with_items].
    rewrite Hb, lookup_insert_eq, Hp.
    now rewrite (proj2 (String.eqb_neq text "") Hne).
  - intros other d Hother. apply storage_get_other.
    now apply lookup_insert_ne.
Qed.

Lemma storage_set_get_witness :
  snd (Storage.get Storage.FNull Storage.flag_parse "remember" None
         (Storage.set Storage.flag_stringify "remember" (Storage.FBool true)
            Storage.empty))
  = Storage.FBool true.
Proof.
  refine (proj1 (storage_set_get Storage.FNull Storage.flag_stringify
                   Storage.flag_parse "remember" "true" (Storage.FBool true)
                   Storage.empty _ _ _ _ _) None);
    reflexivity || discriminate.
Defined.



(** X30.  A write that [localStorage] refuses, or a value that
    [JSON.stringify] cannot serialize, is dropped without an exception:
    the items are unchanged and a warning is logged.  A value for which
    [JSON.stringify] gives [undefined] is stored as the text
    [undefined], which does not parse: reading it back logs a warning
    and returns the default. *)
Theorem storage_set_failures {V : Type} (null : V)
        (stringify : V -> Storage.Stringified) (parse : string -> option V)
        (key : string) (value : V) (st : Storage.State) :
  (Storage.blocked st = true \/ Storage.full st = true
   \/ stringify value = Storage.StringifyThrows ->
   Storage.set stringify key value st
   = Storage.warn "Failed to save to localStorage:" st)
  /\ (Storage.blocked st = false -> Storage.full st = false ->
      stringify value = Storage.NoText ->
      parse "undefined" = None ->
      forall d : option V,
        Storage.get null parse key d (Storage.set stringify key value st)
        = (Storage.warn "Failed to read from localStorage:"
             (Storage.with_items st
                (<[key := "undefined"]> (Storage.items st))),
           default null d)).
Proof.
  split.
  - intros H. unfold Storage.set.
    destruct (stringify value) eqn:Hs; [| |reflexivity];
      (destruct H as [-> | [-> | H]];
       [reflexivity | now rewrite orb_true_r | discriminate H]).
  - intros Hb Hf Hs Hp d. unfold Storage.set, Storage.get.
    rewrite Hs, Hb, Hf.
    cbn [orb Storage.blocked Storage.items Storage.with_items].
    now rewrite Hb, lookup_insert_eq, Hp.
Qed.

Lemma storage_set_failures_witness :
  snd (Storage.get Storage.FNull Storage.flag_parse "remember"
         (Some (Storage.FBool false))
         (Storage.set Storage.flag_stringify "remember" Storage.FUndefined
            Storage.empty))
  = Storage.FBool false.
Proof.
  rewrite (proj2 (storage_set_failures Storage.FNull Storage.flag_stringify
                    Storage.flag_parse "remember" Storage.FUndefined
                    Storage.empty)
             eq_refl eq_refl eq_refl eq_refl).
  reflexivity.
Defined.

(** A call that is followed by enough idle time is delivered before the
    next burst starts. *)
Example debounce_two_bursts :
  Debounce.invoked
    (Debounce.run_events 300
       [ Debounce.Invoke "w"; Debounce.Elapse 100;
         Debounce.Invoke "wa"; Debounce.Elapse 400;
         Debounce.Invoke "wan"; Debounce.Elapse 50;
         Debounce.Invoke "wanj"; Debounce.Elapse 300 ]
       Debounce.initial)
  = ["wa"; "wanj"].
Proof. vm_compute. reflexivity. Qed.

Example storage_remove_example :
  snd (Storage.get Storage.FNull Storage.flag_parse "remember" None
         (Storage.remove "remember"
            (Storage.set Storage.flag_stringify "remember"
               (Storage.FBool true) Storage.empty)))
  = Storage.FNull.
Proof. vm_compute. reflexivity. Qed.
